(** * PMM Magaiba controller: signal processing and DCA ladder

    A shallow embedding of [bots/controllers/market_making/pmm_magaiba.py]:
    the controller's constructor, [update_processed_data] and
    [get_executor_config], over

    - Python's [decimal.Decimal] under the default context (28 significant
      digits, ROUND_HALF_EVEN, exponent limits Emin/Emax = -/+999999, traps
      on InvalidOperation, DivisionByZero and Overflow);
    - IEEE 754 binary64 floats, as [SpecFloat] specifies them;
    - the collaborators the module calls but does not define (pandas_ta,
      pandas reductions, the market data provider, the base controller),
      gathered in the record [Externals].

    The definitions come first: results and exceptions, decimals, floats
    and Series, the configuration and the controller, the three methods,
    the validators of the configuration class, and concrete collaborators
    for closed examples.  Then the facts about rounding ([DecFacts]), about
    comprehensions, the ladder, floats and exceptions, the properties of the
    three methods, and last further properties of the ladder, the signal
    computation, the constructor and the validators. *)

From Stdlib Require Import ZArith QArith Qpower Qabs Lia Lqa List Bool String.
From Stdlib Require Import SpecFloat.
Import ListNotations.

Local Open Scope Z_scope.

(** ** Exceptions and results *)

(** The exceptions a call can end in.  [TypeError], [IndexError], [KeyError]
    and the three trapped [decimal] signals are what the Python operations
    used by the module raise; the last three are the error classes the
    specification names. *)
Inductive exn : Type :=
| TypeError
| IndexError
| KeyError
| InvalidOperation
| DivisionByZero
| Overflow
| InsufficientHistory
| InvalidIndicatorOutput
| InvalidLadderConfig.

Inductive result (A : Type) : Type :=
| Ok (a : A)
| Raise (e : exn).
Arguments Ok {A} a.
Arguments Raise {A} e.

Definition bind {A B : Type} (r : result A) (f : A -> result B) : result B :=
  match r with
  | Ok a => f a
  | Raise e => Raise e
  end.

Notation "x <- c ;; k" := (bind c (fun x => k))
  (at level 61, c at next level, right associativity).

(** A list comprehension whose element expression can raise: the first
    failing element ends the comprehension. *)
Fixpoint mapM {A B : Type} (f : A -> result B) (l : list A) : result (list B) :=
  match l with
  | [] => Ok []
  | x :: t => y <- f x ;; ys <- mapM f t ;; Ok (y :: ys)
  end.

(** [range(n)]: the integers 0, 1, ..., n-1; empty when [n <= 0]. *)
Definition range (n : Z) : list Z := map Z.of_nat (seq 0 (Z.to_nat n)).

(** Closed facts about concrete runs: split the conjunctions and compute
    both sides of each equation, one conjunct after the other. *)
Ltac evaluate :=
  lazymatch goal with
  | |- _ /\ _ => split; [evaluate | evaluate]
  | |- let _ := _ in _ => cbv zeta; evaluate
  | |- _ => vm_compute; reflexivity
  end.

(** ** Decimal *)

Module Dec.

(** A [Decimal] is a sign, a coefficient and an exponent, or an infinity, or
    a quiet NaN. *)
Inductive decimal : Type :=
| Fin (sign : bool) (coeff : N) (exp : Z)
| Inf (sign : bool)
| NaN.

(** The default context: precision, exponent limits, and the smallest and
    largest exponent of a full-precision coefficient. *)
Definition prec : Z := 28.
Definition Emax : Z := 999999.
Definition Emin : Z := -999999.
Definition Etiny : Z := Emin - prec + 1.
Definition Etop : Z := Emax - prec + 1.

Fixpoint digits_fuel (fuel : nat) (c : Z) : Z :=
  match fuel with
  | O => 1
  | S f => if c <? 10 then 1 else 1 + digits_fuel f (c / 10)
  end.

(** [len(str(c))] for [c >= 0]. *)
Definition ndigits (c : Z) : Z := digits_fuel (Z.to_nat (Z.log2 c)) c.

(** ROUND_HALF_EVEN: drop the [k] low digits of [c]. *)
Definition round_half_even (c k : Z) : Z :=
  let p := 10 ^ k in
  let q := c / p in
  let r := c mod p in
  if (2 * r >? p) || ((2 * r =? p) && Z.odd q) then q + 1 else q.

(** [Decimal._fix]: round a finite number to the context.  A result whose
    adjusted exponent exceeds [Emax] raises Overflow; one below [Emin] is
    rounded at [Etiny] (the Underflow and Subnormal signals are not
    trapped); a zero has its exponent clamped. *)
Definition fix_ (s : bool) (c : Z) (e : Z) : result decimal :=
  if c =? 0 then Ok (Fin s 0 (Z.min (Z.max e Etiny) Emax))
  else
    let exp_min := ndigits c + e - prec in
    if exp_min >? Etop then Raise Overflow
    else
      let exp_min := Z.max exp_min Etiny in
      if e <? exp_min then
        let q := round_half_even c (exp_min - e) in
        if ndigits q >? prec then
          if exp_min + 1 >? Etop then Raise Overflow
          else Ok (Fin s (Z.to_N (q / 10)) (exp_min + 1))
        else Ok (Fin s (Z.to_N q) exp_min)
      else Ok (Fin s (Z.to_N c) e).

Definition of_int (n : Z) : decimal := Fin (n <? 0) (Z.abs_N n) 0.

Definition is_zero (d : decimal) : bool :=
  match d with
  | Fin _ c _ => N.eqb c 0
  | _ => false
  end.

Definition is_finite (d : decimal) : bool :=
  match d with
  | Fin _ _ _ => true
  | _ => false
  end.

Definition signed (s : bool) (c : Z) : Z := if s then - c else c.

(** [Decimal.__mul__]. *)
Definition mul (a b : decimal) : result decimal :=
  match a, b with
  | NaN, _ | _, NaN => Ok NaN
  | Inf sa, Inf sb => Ok (Inf (xorb sa sb))
  | Inf sa, Fin sb cb _ =>
      if N.eqb cb 0 then Raise InvalidOperation else Ok (Inf (xorb sa sb))
  | Fin sa ca _, Inf sb =>
      if N.eqb ca 0 then Raise InvalidOperation else Ok (Inf (xorb sa sb))
  | Fin sa ca ea, Fin sb cb eb =>
      fix_ (xorb sa sb) (Z.of_N ca * Z.of_N cb) (ea + eb)
  end.

(** [Decimal.__add__]: the exact sum at the smaller exponent, rounded. *)
Definition add (a b : decimal) : result decimal :=
  match a, b with
  | NaN, _ | _, NaN => Ok NaN
  | Inf sa, Inf sb => if Bool.eqb sa sb then Ok (Inf sa) else Raise InvalidOperation
  | Inf sa, Fin _ _ _ => Ok (Inf sa)
  | Fin _ _ _, Inf sb => Ok (Inf sb)
  | Fin sa ca ea, Fin sb cb eb =>
      let e := Z.min ea eb in
      let x := signed sa (Z.of_N ca) * 10 ^ (ea - e) in
      let y := signed sb (Z.of_N cb) * 10 ^ (eb - e) in
      let z := x + y in
      let s := if z =? 0
               then (if (N.eqb ca 0 && N.eqb cb 0)%bool then andb sa sb else false)
               else z <? 0 in
      fix_ s (Z.abs z) e
  end.

(** [Decimal.copy_negate]. *)
Definition neg (a : decimal) : decimal :=
  match a with
  | Fin s c e => Fin (negb s) c e
  | Inf s => Inf (negb s)
  | NaN => NaN
  end.

(** [Decimal.__sub__]. *)
Definition sub (a b : decimal) : result decimal := add a (neg b).

(** Strip trailing zeros of an exact quotient towards the ideal exponent. *)
Fixpoint strip_zeros (fuel : nat) (coeff exp ideal : Z) : Z * Z :=
  match fuel with
  | O => (coeff, exp)
  | S f =>
      if (exp <? ideal) && (coeff mod 10 =? 0)
      then strip_zeros f (coeff / 10) (exp + 1) ideal
      else (coeff, exp)
  end.

(** [Decimal.__truediv__]. *)
Definition div (a b : decimal) : result decimal :=
  match a, b with
  | NaN, _ | _, NaN => Ok NaN
  | Inf _, Inf _ => Raise InvalidOperation
  | Inf sa, Fin sb _ _ => Ok (Inf (xorb sa sb))
  | Fin sa _ _, Inf sb => Ok (Fin (xorb sa sb) 0 Etiny)
  | Fin sa ca ea, Fin sb cb eb =>
      let s := xorb sa sb in
      if N.eqb cb 0 then
        if N.eqb ca 0 then Raise InvalidOperation else Raise DivisionByZero
      else if N.eqb ca 0 then fix_ s 0 (ea - eb)
      else
        let x := Z.of_N ca in
        let y := Z.of_N cb in
        let shift := ndigits y - ndigits x + prec + 1 in
        let e := ea - eb - shift in
        let num := if 0 <=? shift then x * 10 ^ shift else x in
        let den := if 0 <=? shift then y else y * 10 ^ (- shift) in
        let q := num / den in
        let r := num mod den in
        if r =? 0 then
          let '(q', e') := strip_zeros (Z.to_nat (ea - eb - e)) q e (ea - eb) in
          fix_ s q' e'
        else
          fix_ s (if q mod 5 =? 0 then q + 1 else q) e
  end.

(** [Decimal._cmp] on finite operands. *)
Definition cmp_fin (sa : bool) (ca : N) (ea : Z) (sb : bool) (cb : N) (eb : Z)
  : comparison :=
  let e := Z.min ea eb in
  (signed sa (Z.of_N ca) * 10 ^ (ea - e)) ?= (signed sb (Z.of_N cb) * 10 ^ (eb - e)).

(** Three-way comparison; [None] when an operand is a NaN (where [==] is
    false and the ordering operators raise). *)
Definition compare (a b : decimal) : option comparison :=
  match a, b with
  | NaN, _ | _, NaN => None
  | Inf sa, Inf sb =>
      Some (match sa, sb with
            | true, false => Lt
            | false, true => Gt
            | _, _ => Eq
            end)
  | Inf sa, Fin _ _ _ => Some (if sa then Lt else Gt)
  | Fin _ _ _, Inf sb => Some (if sb then Gt else Lt)
  | Fin sa ca ea, Fin sb cb eb => Some (cmp_fin sa ca ea sb cb eb)
  end.

Definition eqb (a b : decimal) : bool :=
  match compare a b with Some Eq => true | _ => false end.
Definition ltb (a b : decimal) : bool :=
  match compare a b with Some Lt => true | _ => false end.
Definition leb (a b : decimal) : bool :=
  match compare a b with Some Lt | Some Eq => true | _ => false end.

Abbreviation ten := (10 # 1)%Q.

(** The rational a finite decimal denotes (0 for the special values). *)
Definition value (d : decimal) : Q :=
  match d with
  | Fin s c e => inject_Z (signed s (Z.of_N c)) * ten ^ e
  | _ => 0%Q
  end.

(** Number of digits the context precision drops from a coefficient. *)
Definition excess (c : Z) : Z := Z.max 0 (ndigits c - prec).

(** Rounding to the context precision alone, with no limit on the exponent:
    what [fix_] returns away from the exponent limits. *)
Definition round_fin (s : bool) (c : Z) (e : Z) : decimal :=
  let k := excess c in
  if k =? 0 then Fin s (Z.to_N c) e
  else
    let q := round_half_even c k in
    if ndigits q >? prec then Fin s (Z.to_N (q / 10)) (e + k + 1)
    else Fin s (Z.to_N q) (e + k).

(** A finite decimal whose exponent is at least [-B] and whose digits end
    below [10^B]: nonzero, its magnitude lies in [[10^-B, 10^B)]. *)
Definition within (B : Z) (d : decimal) : bool :=
  match d with
  | Fin _ c e => (- B <=? e) && (e + ndigits (Z.of_N c) <=? B)
  | _ => false
  end.

(** Far from the exponent limits of the context. *)
Definition moderate (d : decimal) : bool := within 100000 d.

(** The coefficient [c >= 0] rounded to the context precision, written at
    the scale of [c]; [rz] extends it to signed integers. *)
Definition rcoef (c : Z) : Z := round_half_even c (excess c) * 10 ^ excess c.
Definition rz (z : Z) : Z := Z.sgn z * rcoef (Z.abs z).

(** [r] is [x] rounded to the context precision, for [x] a decimal
    fraction. *)
Definition rounds_to (x r : Q) : Prop :=
  exists z e, (x == inject_Z z * ten ^ e /\ r == inject_Z (rz z) * ten ^ e)%Q.

(** Half a unit in the last place, relative: 5e-28. *)
Definition half_ulp : Q := 5 # (10 ^ 28).

End Dec.

Import Dec.

(** ** Floats and pandas Series *)

Module Flt.

(** binary64. *)
Definition float : Type := spec_float.

Definition fadd : float -> float -> float := SFadd 53 1024.
Definition fsub : float -> float -> float := SFsub 53 1024.
Definition fmul : float -> float -> float := SFmul 53 1024.
Definition fdiv : float -> float -> float := SFdiv 53 1024.
Definition fneg : float -> float := SFopp.
Definition fltb : float -> float -> bool := SFltb.
Definition fleb : float -> float -> bool := SFleb.

(** Conversion of a Python [int] to a float. *)
Definition of_Z (n : Z) : float := binary_normalize 53 1024 n 0 false.

Definition fzero : float := S754_zero false.
Definition fone : float := S754_finite false 4503599627370496 (-52).
Definition fhalf : float := S754_finite false 4503599627370496 (-53).

(** Number of trailing zero bits. *)
Fixpoint ctz (p : positive) : Z :=
  match p with
  | xO p' => 1 + ctz p'
  | _ => 0
  end.

(** [Decimal(f)] for a float [f] ([Decimal.from_float]): exact.  With
    [n / 2^k] the float's [as_integer_ratio], the result has coefficient
    [n * 5^k] and exponent [-k]. *)
Definition to_decimal (f : float) : decimal :=
  match f with
  | S754_nan => NaN
  | S754_infinity s => Inf s
  | S754_zero s => Fin s 0 0
  | S754_finite s m e =>
      if 0 <=? e then Fin s (Z.to_N (Zpos m * 2 ^ e)) 0
      else
        let t := Z.min (- e) (ctz m) in
        let k := - e - t in
        Fin s (Z.to_N (Zpos m / 2 ^ t * 5 ^ k)) (- k)
  end.

(** [x] is a zero, a finite number or an infinity with sign bit [s]. *)
Definition has_sign (s : bool) (x : float) : bool :=
  match x with
  | S754_zero s' | S754_infinity s' | S754_finite s' _ _ => Bool.eqb s' s
  | S754_nan => false
  end.

(** [x] is a NaN or an infinity. *)
Definition is_special (x : float) : bool :=
  match x with
  | S754_nan | S754_infinity _ => true
  | _ => false
  end.

(** A pandas Series of floats over a RangeIndex. *)
Definition Series : Type := list float.

(** Binary operator on two Series: aligned on the index, NaN where one of
    them has no entry. *)
Fixpoint series_binop (f : float -> float -> float) (a b : Series) : Series :=
  match a with
  | [] => map (fun y => f S754_nan y) b
  | x :: a' =>
      match b with
      | [] => map (fun x' => f x' S754_nan) a
      | y :: b' => f x y :: series_binop f a' b'
      end
  end.

(** [series.iloc[-1]]. *)
Fixpoint iloc_last {A : Type} (l : list A) : result A :=
  match l with
  | [] => Raise IndexError
  | [x] => Ok x
  | _ :: t => iloc_last t
  end.

End Flt.

Import Flt.

(** ** Configuration, collaborators and controller state *)

Inductive TradeType : Type := BUY | SELL.
Inductive PriceType : Type := MidPrice | BestBid | BestAsk | LastTrade.

Record CandlesConfig : Type := {
  cc_connector : string;
  cc_trading_pair : string;
  cc_interval : string;
  cc_max_records : Z
}.

(** [PMMMagaibaControllerConfig], with the fields of its base class that the
    controller reads. *)
Record Config : Type := {
  connector_name : string;
  trading_pair : string;
  leverage : Z;
  time_limit : option Z;
  stop_loss : option decimal;
  trailing_stop : option (decimal * decimal);
  candles_config : list CandlesConfig;
  candles_connector : string;
  candles_trading_pair : string;
  interval : string;
  macd_fast : Z;
  macd_slow : Z;
  macd_signal : Z;
  natr_length : Z;
  dca_levels : Z;
  dca_spread_scalar : decimal;
  dca_amount_ratio_increment : float;
  executor_activation_bounds : option (list decimal)
}.

Definition set_candles_config (c : Config) (l : list CandlesConfig) : Config :=
  {| connector_name := connector_name c;
     trading_pair := trading_pair c;
     leverage := leverage c;
     time_limit := time_limit c;
     stop_loss := stop_loss c;
     trailing_stop := trailing_stop c;
     candles_config := l;
     candles_connector := candles_connector c;
     candles_trading_pair := candles_trading_pair c;
     interval := interval c;
     macd_fast := macd_fast c;
     macd_slow := macd_slow c;
     macd_signal := macd_signal c;
     natr_length := natr_length c;
     dca_levels := dca_levels c;
     dca_spread_scalar := dca_spread_scalar c;
     dca_amount_ratio_increment := dca_amount_ratio_increment c;
     executor_activation_bounds := executor_activation_bounds c |}.

(** The candles DataFrame: the columns the controller reads. *)
Record Candles : Type := {
  high : Series;
  low : Series;
  close : Series
}.

(** The DataFrame [ta.macd] returns: line, histogram and signal columns. *)
Record MacdOutput : Type := {
  MACD : Series;
  MACDh : Series;
  MACDs : Series
}.

(** What the module calls and does not define: the market data provider,
    pandas_ta (which returns [None] when it cannot compute an indicator),
    the pandas reductions [Series.mean] and [Series.std], and the base
    controller's [get_trade_type_from_level_id]. *)
Record Externals : Type := {
  get_candles_df : string -> string -> string -> Z -> Candles;
  get_price_by_type : string -> string -> PriceType -> decimal;
  ta_natr : Series -> Series -> Series -> Z -> option Series;
  ta_macd : Series -> Z -> Z -> Z -> option MacdOutput;
  series_mean : Series -> float;
  series_std : Series -> float;
  get_trade_type_from_level_id : string -> TradeType
}.

Record ProcessedData : Type := {
  reference_price : decimal;
  spread_multiplier : decimal
}.

(** The controller object: [None] for [processed_data] is the empty dict
    the base class starts with. *)
Record Controller : Type := {
  config : Config;
  max_records : Z;
  dca_amounts_pct : list decimal;
  processed_data : option ProcessedData
}.

Record DCAExecutorConfig : Type := {
  x_timestamp : float;
  x_level_id : string;
  x_connector_name : string;
  x_trading_pair : string;
  x_prices : list decimal;
  x_amounts_quote : list decimal;
  x_leverage : Z;
  x_side : TradeType;
  x_time_limit : option Z;
  x_stop_loss : option decimal;
  x_trailing_stop : option (decimal * decimal);
  x_activation_bounds : option (list decimal)
}.

(** ** The constructor *)

(** Modelled from the spec: [Distributions.geometric] (the hummingbot helper
    is not part of the sources): a geometric progression of [n_levels] terms
    with first term [start], each further term the previous one times
    [ratio], as decimals. *)
Fixpoint geometric_from (n : nat) (term ratio : decimal) : result (list decimal) :=
  match n with
  | O => Ok []
  | S n' =>
      match n' with
      | O => Ok [term]
      | S _ =>
          next <- mul term ratio ;;
          rest <- geometric_from n' next ratio ;;
          Ok (term :: rest)
      end
  end.

Definition geometric (n_levels : Z) (start ratio : float) : result (list decimal) :=
  geometric_from (Z.to_nat n_levels) (to_decimal start) (to_decimal ratio).

(** Consecutive terms of [l] are in the ratio [ratio]. *)
Fixpoint progression (ratio : decimal) (l : list decimal) : Prop :=
  match l with
  | a :: t =>
      match t with
      | b :: _ => mul a ratio = Ok b /\ progression ratio t
      | [] => True
      end
  | [] => True
  end.

(** The exact sum of the values of a list of decimals. *)
Definition sum_values (l : list decimal) : Q :=
  fold_right (fun d acc => (value d + acc)%Q) 0%Q l.

(** The number of elements of a list, as a rational. *)
Abbreviation qlen l := (inject_Z (Z.of_nat (List.length l))).

(** A finite decimal above zero. *)
Definition positive_finite (d : decimal) : Prop :=
  is_finite d = true /\ (0 < value d)%Q.

(** The builtin [sum]: starts from the int 0 and adds from the left. *)
Fixpoint sum_from (acc : decimal) (l : list decimal) : result decimal :=
  match l with
  | [] => Ok acc
  | x :: t => acc' <- add acc x ;; sum_from acc' t
  end.

Definition py_sum (l : list decimal) : result decimal := sum_from (of_int 0) l.

(** [[amount / sum(amounts_distributed) for amount in amounts_distributed]]. *)
Definition normalize (amounts_distributed : list decimal) : result (list decimal) :=
  mapM (fun amount => total <- py_sum amounts_distributed ;; div amount total)
       amounts_distributed.

Definition required_records (c : Config) : Z :=
  Z.max (Z.max (Z.max (macd_slow c) (macd_fast c)) (macd_signal c)) (natr_length c) + 10.

(** [PMMMagaibaController.__init__]. *)
Definition init (c : Config) : result Controller :=
  let max_records := required_records c in
  amounts_distributed <-
    geometric (dca_levels c) fone (dca_amount_ratio_increment c) ;;
  pct <- normalize amounts_distributed ;;
  let c' :=
    match candles_config c with
    | [] => set_candles_config c
              [ {| cc_connector := candles_connector c;
                   cc_trading_pair := candles_trading_pair c;
                   cc_interval := interval c;
                   cc_max_records := max_records |} ]
    | _ :: _ => c
    end in
  Ok {| config := c';
        max_records := max_records;
        dca_amounts_pct := pct;
        processed_data := None |}.

(** The statements of [__init__] around the call of
    [Distributions.geometric], for an arbitrary outcome [amounts] of that
    call (the list it returns, or the exception it raises): the
    normalisation of the amounts and the default of the candles feed. *)
Definition init_with (amounts : result (list decimal)) (c : Config)
  : result Controller :=
  let max_records := required_records c in
  amounts_distributed <- amounts ;;
  pct <- normalize amounts_distributed ;;
  let c' :=
    match candles_config c with
    | [] => set_candles_config c
              [ {| cc_connector := candles_connector c;
                   cc_trading_pair := candles_trading_pair c;
                   cc_interval := interval c;
                   cc_max_records := max_records |} ]
    | _ :: _ => c
    end in
  Ok {| config := c';
        max_records := max_records;
        dca_amounts_pct := pct;
        processed_data := None |}.

(** ** update_processed_data *)

(** [macdh.apply(lambda x: 1 if x > 0 else -1)]. *)
Definition trend_direction (x : float) : Z := if fltb fzero x then 1 else -1.

Definition set_processed_data (self : Controller) (pd : ProcessedData) : Controller :=
  {| config := config self;
     max_records := max_records self;
     dca_amounts_pct := dca_amounts_pct self;
     processed_data := Some pd |}.

(** The calls of a cycle to the collaborators: the candles, the two
    indicators computed on them, and the mid-price. *)
Definition cycle_candles (E : Externals) (self : Controller) : Candles :=
  let cfg := config self in
  get_candles_df E (candles_connector cfg) (candles_trading_pair cfg)
    (interval cfg) (max_records self).

Definition cycle_natr (E : Externals) (self : Controller) : option Series :=
  let candles := cycle_candles E self in
  ta_natr E (high candles) (low candles) (close candles) (natr_length (config self)).

Definition cycle_macd (E : Externals) (self : Controller) : option MacdOutput :=
  let cfg := config self in
  ta_macd E (close (cycle_candles E self)) (macd_fast cfg) (macd_slow cfg)
    (macd_signal cfg).

Definition cycle_mid_price (E : Externals) (self : Controller) : decimal :=
  get_price_by_type E (connector_name (config self)) (trading_pair (config self))
    MidPrice.

(** The body of [update_processed_data] up to the assignment of
    [self.processed_data]. *)
Definition compute_processed_data (E : Externals) (self : Controller)
  : result ProcessedData :=
  match cycle_natr E self with
  | None => Raise TypeError
  | Some natr_pct =>
      let natr := map (fun x => fdiv x (of_Z 100)) natr_pct in
      match cycle_macd E self with
      | None => Raise TypeError
      | Some macd_output =>
          let macd := MACD macd_output in
          let mean := series_mean E macd in
          let std := series_std E macd in
          let macd_signal :=
            map (fun x => fdiv (fneg (fsub x mean)) std) macd in
          let macdh := MACDh macd_output in
          let macdh_signal := map trend_direction macdh in
          let max_price_shift := map (fun x => fdiv x (of_Z 2)) natr in
          let blended :=
            series_binop fadd
              (map (fun x => fmul fhalf x) macd_signal)
              (map (fun d => fmul fhalf (of_Z d)) macdh_signal) in
          pm <- iloc_last (series_binop fmul blended max_price_shift) ;;
          let price_multiplier := to_decimal pm in
          sm <- iloc_last natr ;;
          let spread_multiplier := to_decimal sm in
          let mid_price := cycle_mid_price E self in
          shifted <- add (of_int 1) price_multiplier ;;
          reference_price <- mul mid_price shifted ;;
          Ok {| reference_price := reference_price;
                spread_multiplier := spread_multiplier |}
      end
  end.

(** [update_processed_data]: the result (or the exception) and the
    controller afterwards. *)
Definition update_processed_data (E : Externals) (self : Controller)
  : result unit * Controller :=
  match compute_processed_data E self with
  | Ok pd => (Ok tt, set_processed_data self pd)
  | Raise e => (Raise e, self)
  end.

(** ** get_executor_config *)

(** [price * (1 -/+ n * dca_spread_scalar * spread_multiplier)]. *)
Definition level_price (side : TradeType) (price scalar sm : decimal) (n : Z)
  : result decimal :=
  ns <- mul (of_int n) scalar ;;
  offset <- mul ns sm ;;
  factor <- match side with
            | BUY => sub (of_int 1) offset
            | SELL => add (of_int 1) offset
            end ;;
  mul price factor.

(** [amount * pct * price]. *)
Definition level_amount (amount pct price : decimal) : result decimal :=
  ap <- mul amount pct ;;
  mul ap price.

(** [get_executor_config]; [now] is the reading of [time.time()]. *)
Definition get_executor_config (E : Externals) (now : float)
    (level_id : string) (price amount : decimal) (self : Controller)
  : result DCAExecutorConfig * Controller :=
  let cfg := config self in
  let trade_type := get_trade_type_from_level_id E level_id in
  let r :=
    match processed_data self with
    | None => Raise KeyError
    | Some pd =>
        let sm := spread_multiplier pd in
        prices <- mapM (level_price trade_type price (dca_spread_scalar cfg) sm)
                       (range (dca_levels cfg)) ;;
        amounts_quote <- mapM (fun '(pct, p) => level_amount amount pct p)
                              (combine (dca_amounts_pct self) prices) ;;
        Ok {| x_timestamp := now;
              x_level_id := level_id;
              x_connector_name := connector_name cfg;
              x_trading_pair := trading_pair cfg;
              x_prices := prices;
              x_amounts_quote := amounts_quote;
              x_leverage := leverage cfg;
              x_side := trade_type;
              x_time_limit := time_limit cfg;
              x_stop_loss := stop_loss cfg;
              x_trailing_stop := trailing_stop cfg;
              x_activation_bounds := executor_activation_bounds cfg |}
    end in
  (r, self).

(** ** The validators of the configuration class *)

(** The values a raw configuration field is given as. *)
#[warnings="-register-all"] Inductive pyval : Type :=
| PNone
| PStr (s : string)
| PInt (n : Z)
| PFloat (f : float)
| PDec (d : decimal)
| PList (l : list pyval).

(** [Decimal(val)]: the value itself for a Decimal, exact for an int and a
    float, a TypeError for [None]; the reading of a str and of a sequence is
    left to [parse]. *)
Definition Decimal_new (parse : pyval -> result decimal) (val : pyval)
  : result decimal :=
  match val with
  | PDec d => Ok d
  | PInt n => Ok (of_int n)
  | PFloat f => Ok (to_decimal f)
  | PNone => Raise TypeError
  | PStr _ | PList _ => parse val
  end.

(** [s.split(sep)] for a one-character separator. *)
Fixpoint split_on (sep : Ascii.ascii) (s : string) : list string :=
  match s with
  | EmptyString => [EmptyString]
  | String c rest =>
      if Ascii.eqb c sep then EmptyString :: split_on sep rest
      else
        match split_on sep rest with
        | piece :: pieces => String c piece :: pieces
        | [] => [String c EmptyString]
        end
  end.

(** [sep.join(l)] for a one-character separator. *)
Fixpoint join_with (sep : Ascii.ascii) (l : list string) : string :=
  match l with
  | [] => EmptyString
  | [piece] => piece
  | piece :: rest => append piece (String sep (join_with sep rest))
  end.

(** [s.count(sep)]. *)
Fixpoint count_char (sep : Ascii.ascii) (s : string) : nat :=
  match s with
  | EmptyString => O
  | String c rest => (if Ascii.eqb c sep then 1 else 0) + count_char sep rest
  end.

Definition comma : Ascii.ascii := Ascii.ascii_of_nat 44.

(** [parse_activation_bounds], the pre-validator of
    [executor_activation_bounds]. *)
Definition parse_activation_bounds (parse : pyval -> result decimal) (v : pyval)
  : result pyval :=
  match v with
  | PList l =>
      bounds <- mapM (Decimal_new parse) l ;;
      Ok (PList (map PDec bounds))
  | PStr s =>
      if String.eqb s EmptyString then Ok PNone
      else
        bounds <- mapM (Decimal_new parse) (map PStr (split_on comma s)) ;;
        Ok (PList (map PDec bounds))
  | _ => Ok v
  end.

(** [values.get(key)] on the fields validated so far. *)
Definition values_get (values : list (string * pyval)) (key : string) : pyval :=
  match find (fun kv => String.eqb (fst kv) key) values with
  | Some kv => snd kv
  | None => PNone
  end.

(** [v is None or v == ""]. *)
Definition none_or_empty (v : pyval) : bool :=
  match v with
  | PNone => true
  | PStr s => String.eqb s EmptyString
  | _ => false
  end.

(** [set_candles_connector] and [set_candles_trading_pair], the
    pre-validators of the two candles fields. *)
Definition set_candles_connector (v : pyval) (values : list (string * pyval))
  : pyval :=
  if none_or_empty v then values_get values "connector_name" else v.

Definition set_candles_trading_pair (v : pyval) (values : list (string * pyval))
  : pyval :=
  if none_or_empty v then values_get values "trading_pair" else v.

(** The number of digits of the coefficient of a finite decimal. *)
Definition digits (d : decimal) : Z :=
  match d with
  | Fin _ c _ => ndigits (Z.of_N c)
  | _ => 0
  end.

(** How far a finite decimal reaches from the exponent 0: the larger of
    the number of its digits after the point and of the position of its
    leading digit. *)
Definition span (d : decimal) : Z :=
  match d with
  | Fin _ c e => Z.max (- e) (e + ndigits (Z.of_N c))
  | _ => 0
  end.

(** ** Concrete collaborators for closed examples *)

Module Example.

(** A level id names its side by its prefix. *)
Definition level_side (level_id : string) : TradeType :=
  if prefix "buy"%string level_id then BUY else SELL.

Definition is_nan (x : float) : bool :=
  match x with
  | S754_nan => true
  | _ => false
  end.

Definition dropna (s : Series) : Series := filter (fun x => negb (is_nan x)) s.

Definition fsum (s : Series) : float := fold_left fadd s fzero.

(** [Series.mean] and [Series.std] (sample standard deviation), skipping
    NaN, the sums taken from the left. *)
Definition mean (s : Series) : float :=
  let v := dropna s in
  fdiv (fsum v) (of_Z (Z.of_nat (List.length v))).

Definition std (s : Series) : float :=
  let v := dropna s in
  let m := mean s in
  let sq := map (fun x => let d := fsub x m in fmul d d) v in
  SFsqrt 53 1024 (fdiv (fsum sq) (of_Z (Z.of_nat (List.length v) - 1))).

(** Collaborators that serve fixed candles, a fixed mid-price and fixed
    indicator columns, the indicators refusing (returning [None]) when there
    are fewer candles than their length. *)
Definition indicators (candles : Candles) (mid : decimal)
    (natr : Series) (macd : MacdOutput) : Externals :=
  {| get_candles_df := fun _ _ _ _ => candles;
     get_price_by_type := fun _ _ _ => mid;
     ta_natr := fun _ _ c len =>
       if Z.of_nat (List.length c) <? len then None else Some natr;
     ta_macd := fun c fast slow signal =>
       if Z.of_nat (List.length c) <? Z.max (Z.max fast slow) signal then None
       else Some macd;
     series_mean := mean;
     series_std := std;
     get_trade_type_from_level_id := level_side |}.

Definition mk_config (fast slow signal natr_len levels : Z)
    (scalar : decimal) (ratio : float) : Config :=
  {| connector_name := "binance"%string;
     trading_pair := "BTC-USDT"%string;
     leverage := 1;
     time_limit := None;
     stop_loss := None;
     trailing_stop := None;
     candles_config := [];
     candles_connector := "binance"%string;
     candles_trading_pair := "BTC-USDT"%string;
     interval := "3m"%string;
     macd_fast := fast;
     macd_slow := slow;
     macd_signal := signal;
     natr_length := natr_len;
     dca_levels := levels;
     dca_spread_scalar := scalar;
     dca_amount_ratio_increment := ratio;
     executor_activation_bounds := None |}.

(** The defaults of the configuration class, with [levels] ladder levels. *)
Definition default_config (levels : Z) (ratio : float) : Config :=
  mk_config 12 26 9 14 levels (of_int 2) ratio.

(** [n] candles, all at the same price. *)
Definition flat_candles (n : nat) (price : float) : Candles :=
  {| high := repeat price n; low := repeat price n; close := repeat price n |}.

(** A controller with the given weights and spread multiplier. *)
Definition controller (c : Config) (weights : list decimal) (sm : decimal)
  : Controller :=
  {| config := c;
     max_records := required_records c;
     dca_amounts_pct := weights;
     processed_data := Some {| reference_price := of_int 100;
                               spread_multiplier := sm |} |}.

Definition f1_5 : float := fdiv (of_Z 3) (of_Z 2).

Definition third : decimal := Fin false 3333333333333333333333333333 (-28).

(** Collaborators whose indicators return empty columns. *)
Definition quiet : Externals :=
  indicators (flat_candles 40 (of_Z 100)) (of_int 100) []
    {| MACD := []; MACDh := []; MACDs := [] |}.

Definition now : float := of_Z 1700000000.

(** Indicator lengths 1, 2, 1 and 1: twelve records are requested. *)
Definition short_config : Config := mk_config 1 2 1 1 3 (of_int 2) fone.

(** The controller the constructor builds from [short_config]. *)
Definition short_controller : Controller :=
  Eval vm_compute in
    match init short_config with
    | Ok self => self
    | Raise _ => controller short_config [] NaN
    end.

(** The float [n / d]. *)
Definition fq (n d : Z) : float := fdiv (of_Z n) (of_Z d).

(** Three candles at 100, mid-price 100, and the given NATR (in percent),
    MACD and MACD histogram columns. *)
Definition three_rows (natr macd macdh : Series) : Externals :=
  indicators (flat_candles 3 (of_Z 100)) (of_int 100) natr
    {| MACD := macd; MACDh := macdh; MACDs := macd |}.

(** Three equal levels, scalar 2, the given spread multiplier. *)
Definition ladder3 (sm : decimal) : Controller :=
  controller (default_config 3 fone) [third; third; third] sm.

End Example.

(** ** Facts about rounding to the context precision *)

Module DecFacts.

Lemma pow10_pos (k : Z) : 0 <= k -> 0 < 10 ^ k.
Proof. intros. apply Z.pow_pos_nonneg; lia. Qed.

Lemma pow10_add (a b : Z) : 0 <= a -> 0 <= b -> 10 ^ (a + b) = 10 ^ a * 10 ^ b.
Proof. intros. apply Z.pow_add_r; lia. Qed.

Lemma pow10_succ (a : Z) : 0 <= a -> 10 ^ (a + 1) = 10 * 10 ^ a.
Proof. intros. rewrite pow10_add by lia. change (10 ^ 1) with 10. lia. Qed.

Lemma pow10_le (a b : Z) : 0 <= a <= b -> 10 ^ a <= 10 ^ b.
Proof. intros. apply Z.pow_le_mono_r; lia. Qed.

Lemma pow10_lt (a b : Z) : 0 <= a < b -> 10 ^ a < 10 ^ b.
Proof. intros. apply Z.pow_lt_mono_r; lia. Qed.

Lemma digits_fuel_spec (fuel : nat) :
  forall c, 1 <= c -> c < 2 ^ (Z.of_nat fuel + 1) ->
    1 <= digits_fuel fuel c /\
    10 ^ (digits_fuel fuel c - 1) <= c < 10 ^ (digits_fuel fuel c).
Proof.
  induction fuel as [|f IH]; intros c Hc Hlt.
  - simpl in *. assert (c = 1) by lia. subst. cbn. lia.
  - cbn [digits_fuel]. destruct (c <? 10) eqn:H10.
    + apply Z.ltb_lt in H10. cbn. lia.
    + apply Z.ltb_ge in H10.
      assert (Hq : 1 <= c / 10) by (apply Z.div_le_lower_bound; lia).
      assert (Hq2 : c / 10 < 2 ^ (Z.of_nat f + 1)).
      { apply Z.div_lt_upper_bound; [lia|].
        replace (Z.of_nat (S f) + 1) with ((Z.of_nat f + 1) + 1) in Hlt by lia.
        rewrite Z.pow_add_r in Hlt by lia. change (2 ^ 1) with 2 in Hlt.
        assert (0 < 2 ^ (Z.of_nat f + 1)) by (apply Z.pow_pos_nonneg; lia).
        lia. }
      destruct (IH _ Hq Hq2) as (Hd & Hlo & Hhi).
      set (d := digits_fuel f (c / 10)) in *.
      split; [lia|].
      replace (1 + d - 1) with ((d - 1) + 1) by lia.
      replace (1 + d) with (d + 1) by lia.
      rewrite !pow10_succ by lia.
      pose proof (Z.div_mod c 10 ltac:(lia)).
      pose proof (Z.mod_pos_bound c 10 ltac:(lia)).
      lia.
Qed.

Lemma ndigits_spec (c : Z) :
  1 <= c -> 1 <= ndigits c /\ 10 ^ (ndigits c - 1) <= c < 10 ^ (ndigits c).
Proof.
  intros Hc. unfold ndigits. apply digits_fuel_spec; [lia|].
  rewrite Z2Nat.id by apply Z.log2_nonneg.
  replace (Z.log2 c + 1) with (Z.succ (Z.log2 c)) by lia.
  apply Z.log2_spec. lia.
Qed.

Lemma digits_fuel_ge1 (fuel : nat) (c : Z) : 1 <= digits_fuel fuel c.
Proof.
  revert c. induction fuel as [|f IH]; intros c; cbn [digits_fuel]; [lia|].
  destruct (c <? 10); [lia|]. specialize (IH (c / 10)). lia.
Qed.

Lemma ndigits_ge1 (c : Z) : 1 <= ndigits c.
Proof. apply digits_fuel_ge1. Qed.

Lemma ndigits_nonpos (c : Z) : c <= 0 -> ndigits c = 1.
Proof.
  intros. unfold ndigits. rewrite Z.log2_nonpos by lia. reflexivity.
Qed.

(** The digit count is determined by the enclosing powers of ten. *)
Lemma ndigits_unique (c d : Z) :
  1 <= d -> 10 ^ (d - 1) <= c < 10 ^ d -> ndigits c = d.
Proof.
  intros Hd [Hlo Hhi].
  assert (Hc : 1 <= c).
  { pose proof (pow10_pos (d - 1) ltac:(lia)). lia. }
  destruct (ndigits_spec c Hc) as (H1 & Hlo' & Hhi').
  destruct (Z.lt_trichotomy (ndigits c) d) as [Hlt|[Heq|Hgt]]; [|exact Heq|].
  - pose proof (pow10_le (ndigits c) (d - 1) ltac:(lia)). lia.
  - pose proof (pow10_le d (ndigits c - 1) ltac:(lia)). lia.
Qed.

Lemma ndigits_mono (a b : Z) : 0 <= a <= b -> ndigits a <= ndigits b.
Proof.
  intros [Ha Hab].
  destruct (Z.eq_dec a 0) as [->|Hna].
  - rewrite ndigits_nonpos by lia. apply ndigits_ge1.
  - destruct (ndigits_spec a ltac:(lia)) as (Ha1 & Halo & Hahi).
    destruct (ndigits_spec b ltac:(lia)) as (Hb1 & Hblo & Hbhi).
    destruct (Z_le_gt_dec (ndigits a) (ndigits b)) as [|Hgt]; [assumption|].
    pose proof (pow10_le (ndigits b) (ndigits a - 1) ltac:(lia)). lia.
Qed.

Lemma ndigits_pad (c j : Z) :
  1 <= c -> 0 <= j -> ndigits (c * 10 ^ j) = ndigits c + j.
Proof.
  intros Hc Hj.
  destruct (ndigits_spec c Hc) as (H1 & Hlo & Hhi).
  pose proof (pow10_pos j Hj).
  apply ndigits_unique; [lia|].
  replace (ndigits c + j - 1) with ((ndigits c - 1) + j) by lia.
  rewrite !pow10_add by lia. nia.
Qed.

Lemma rhe_split (c k : Z) :
  0 <= k ->
  c = 10 ^ k * (c / 10 ^ k) + c mod 10 ^ k /\ 0 <= c mod 10 ^ k < 10 ^ k.
Proof.
  intros Hk. pose proof (pow10_pos k Hk).
  split; [apply Z.div_mod; lia | apply Z.mod_pos_bound; lia].
Qed.

Lemma rhe_cases (c k : Z) :
  round_half_even c k = c / 10 ^ k \/ round_half_even c k = c / 10 ^ k + 1.
Proof.
  unfold round_half_even. destruct (_ || _); auto.
Qed.

Lemma rhe_error (c k : Z) :
  0 <= k -> 2 * Z.abs (round_half_even c k * 10 ^ k - c) <= 10 ^ k.
Proof.
  intros Hk. destruct (rhe_split c k Hk) as [Hc Hr].
  unfold round_half_even.
  set (p := 10 ^ k) in *. set (q := c / p) in *. set (r := c mod p) in *.
  destruct (2 * r >? p) eqn:H1; cbn [orb].
  - apply Z.gtb_lt in H1. lia.
  - destruct ((2 * r =? p) && Z.odd q) eqn:H2.
    + apply andb_true_iff in H2. destruct H2 as [H2 _].
      apply Z.eqb_eq in H2. lia.
    + assert (2 * r <= p) by (destruct (Z.gtb_spec (2 * r) p); [discriminate|lia]).
      lia.
Qed.

Lemma rhe_mono (a b k : Z) :
  0 <= k -> a <= b -> round_half_even a k <= round_half_even b k.
Proof.
  intros Hk Hab.
  destruct (rhe_split a k Hk) as [Ha Hra].
  destruct (rhe_split b k Hk) as [Hb Hrb].
  pose proof (pow10_pos k Hk) as Hp.
  assert (Hq : a / 10 ^ k <= b / 10 ^ k) by (apply Z.div_le_mono; lia).
  destruct (Z.eq_dec (a / 10 ^ k) (b / 10 ^ k)) as [Heq|Hne].
  - unfold round_half_even. rewrite <- Heq.
    set (p := 10 ^ k) in *. set (q := a / p) in *.
    assert (Hr : a mod p <= b mod p) by nia.
    destruct (2 * (a mod p) >? p) eqn:A1; cbn [orb].
    + apply Z.gtb_lt in A1.
      assert (B1 : (2 * (b mod p) >? p) = true) by (apply Z.gtb_lt; lia).
      rewrite B1. cbn [orb]. lia.
    + destruct ((2 * (a mod p) =? p) && Z.odd q) eqn:A2.
      * apply andb_true_iff in A2. destruct A2 as [A2 A3].
        apply Z.eqb_eq in A2.
        destruct (2 * (b mod p) >? p) eqn:B1; cbn [orb]; [lia|].
        assert (2 * (b mod p) <= p)
          by (destruct (Z.gtb_spec (2 * (b mod p)) p); [discriminate|lia]).
        assert (B2 : (2 * (b mod p) =? p) = true) by (apply Z.eqb_eq; lia).
        rewrite B2, A3. cbn [orb andb]. lia.
      * destruct ((2 * (b mod p) >? p) || ((2 * (b mod p) =? p) && Z.odd q)); lia.
  - destruct (rhe_cases a k), (rhe_cases b k); lia.
Qed.

Lemma rhe_zero_digits (c : Z) : round_half_even c 0 = c.
Proof.
  unfold round_half_even. change (10 ^ 0) with 1.
  rewrite Z.mod_1_r, Z.div_1_r. reflexivity.
Qed.

Lemma rhe_pad (c k j : Z) :
  0 <= k -> 0 <= j ->
  round_half_even (c * 10 ^ j) (k + j) = round_half_even c k.
Proof.
  intros Hk Hj. unfold round_half_even.
  pose proof (pow10_pos k Hk). pose proof (pow10_pos j Hj).
  rewrite pow10_add by lia.
  rewrite Z.div_mul_cancel_r by lia.
  rewrite Z.mul_mod_distr_r by lia.
  set (p := 10 ^ k) in *. set (t := 10 ^ j) in *.
  set (q := c / p). set (r := c mod p).
  replace (2 * (r * t) >? p * t) with (2 * r >? p).
  2:{ destruct (Z.gtb_spec (2 * r) p), (Z.gtb_spec (2 * (r * t)) (p * t));
      try reflexivity; nia. }
  replace (2 * (r * t) =? p * t) with (2 * r =? p).
  2:{ destruct (Z.eqb_spec (2 * r) p), (Z.eqb_spec (2 * (r * t)) (p * t));
      try reflexivity; nia. }
  reflexivity.
Qed.

Lemma rhe_exact (c k : Z) : 0 <= k -> round_half_even (c * 10 ^ k) k = c.
Proof.
  intros Hk. pose proof (rhe_pad c 0 k ltac:(lia) Hk) as H.
  simpl in H. rewrite H. apply rhe_zero_digits.
Qed.

Lemma rhe_upper (c k n : Z) :
  0 <= k -> 0 <= n -> 0 <= c < 10 ^ (k + n) -> round_half_even c k <= 10 ^ n.
Proof.
  intros Hk Hn [Hc Hlt]. rewrite pow10_add in Hlt by lia.
  pose proof (pow10_pos k Hk).
  assert (c / 10 ^ k < 10 ^ n) by (apply Z.div_lt_upper_bound; lia).
  destruct (rhe_cases c k); lia.
Qed.

Lemma rhe_lower (c k : Z) : c / 10 ^ k <= round_half_even c k.
Proof. destruct (rhe_cases c k); lia. Qed.

Lemma excess_small (c : Z) : ndigits c <= prec -> excess c = 0.
Proof. unfold excess. lia. Qed.

Lemma excess_big (c : Z) : prec < ndigits c -> excess c = ndigits c - prec.
Proof. unfold excess. lia. Qed.

Lemma excess_nonneg (c : Z) : 0 <= excess c.
Proof. unfold excess. lia. Qed.

Lemma excess_mono (a b : Z) : 0 <= a <= b -> excess a <= excess b.
Proof. intros H. pose proof (ndigits_mono a b H). unfold excess. lia. Qed.

(** A coefficient that loses digits has at least 28 of them left. *)
Lemma excess_pos_bounds (c : Z) :
  0 < excess c -> 10 ^ 27 * 10 ^ excess c <= c < 10 ^ 28 * 10 ^ excess c.
Proof.
  intros Hk.
  assert (Hd : prec < ndigits c) by (unfold excess in Hk; lia).
  assert (Hc : 1 <= c).
  { destruct (Z_le_gt_dec c 0) as [H0|]; [|lia].
    rewrite (ndigits_nonpos c H0) in Hd. unfold prec in Hd. lia. }
  destruct (ndigits_spec c Hc) as (_ & Hlo & Hhi).
  rewrite (excess_big c Hd) in *. unfold prec in *.
  rewrite <- !pow10_add by lia.
  replace (27 + (ndigits c - 28)) with (ndigits c - 1) by lia.
  replace (28 + (ndigits c - 28)) with (ndigits c) by lia.
  lia.
Qed.

Lemma excess_zero_bound (c : Z) : 0 <= c -> excess c = 0 -> c < 10 ^ 28.
Proof.
  intros Hc Hk.
  destruct (Z.eq_dec c 0) as [->|]; [reflexivity|].
  destruct (ndigits_spec c ltac:(lia)) as (_ & _ & Hhi).
  assert (ndigits c <= 28) by (unfold excess, prec in Hk; lia).
  pose proof (pow10_le (ndigits c) 28 ltac:(pose proof (ndigits_ge1 c); lia)).
  lia.
Qed.

Lemma rcoef_small (c : Z) : excess c = 0 -> rcoef c = c.
Proof.
  intros Hk. unfold rcoef. rewrite Hk, rhe_zero_digits.
  change (10 ^ 0) with 1. lia.
Qed.

Lemma rcoef_zero : rcoef 0 = 0.
Proof. reflexivity. Qed.

Lemma rcoef_error (c : Z) : 0 <= c -> 2 * 10 ^ 27 * Z.abs (rcoef c - c) <= c.
Proof.
  intros Hc.
  destruct (Z.eq_dec (excess c) 0) as [Hk|Hk].
  - rewrite (rcoef_small c Hk). replace (c - c) with 0 by lia. simpl. lia.
  - pose proof (excess_nonneg c).
    destruct (excess_pos_bounds c ltac:(lia)) as [Hlo _].
    pose proof (rhe_error c (excess c) ltac:(lia)) as He.
    unfold rcoef. set (k := excess c) in *.
    set (d := Z.abs (round_half_even c k * 10 ^ k - c)) in *.
    assert (0 <= d) by (apply Z.abs_nonneg).
    assert (0 < 10 ^ 27) by (apply pow10_pos; lia).
    nia.
Qed.

Lemma rcoef_nonneg (c : Z) : 0 <= c -> 0 <= rcoef c.
Proof.
  intros Hc. pose proof (rcoef_error c Hc).
  assert (0 < 10 ^ 27) by (apply pow10_pos; lia).
  destruct (Z_le_gt_dec 0 (rcoef c)); [assumption|].
  rewrite Z.abs_neq in H by lia. nia.
Qed.

Lemma rcoef_pos (c : Z) : 0 < c -> 0 < rcoef c.
Proof.
  intros Hc. pose proof (rcoef_error c ltac:(lia)).
  assert (1 < 10 ^ 27) by (change 1 with (10 ^ 0); apply pow10_lt; lia).
  destruct (Z_lt_le_dec 0 (rcoef c)); [assumption|].
  rewrite Z.abs_neq in H by lia. nia.
Qed.

Lemma rcoef_mono (a b : Z) : 0 <= a <= b -> rcoef a <= rcoef b.
Proof.
  intros [Ha Hab].
  pose proof (excess_mono a b ltac:(lia)) as Hk.
  pose proof (excess_nonneg a) as Hka.
  destruct (Z.eq_dec (excess a) (excess b)) as [Heq|Hne].
  - unfold rcoef. rewrite <- Heq.
    pose proof (rhe_mono a b (excess a) Hka Hab).
    pose proof (pow10_pos (excess a) Hka). nia.
  - destruct (excess_pos_bounds b ltac:(lia)) as [Hblo _].
    assert (Hbq : 10 ^ 27 <= b / 10 ^ excess b).
    { apply Z.div_le_lower_bound; [apply pow10_pos; lia|lia]. }
    pose proof (rhe_lower b (excess b)).
    assert (Hau : round_half_even a (excess a) <= 10 ^ 28).
    { apply rhe_upper; try lia. split; [lia|].
      rewrite pow10_add by lia.
      destruct (Z.eq_dec (excess a) 0) as [H0|H0].
      - rewrite H0. change (10 ^ 0) with 1.
        pose proof (excess_zero_bound a Ha H0). lia.
      - destruct (excess_pos_bounds a ltac:(lia)). lia. }
    unfold rcoef.
    pose proof (pow10_pos (excess a) Hka).
    pose proof (pow10_pos (excess b) ltac:(lia)).
    assert (10 ^ 28 * 10 ^ excess a <= 10 ^ 27 * 10 ^ excess b).
    { rewrite <- !pow10_add by lia. apply pow10_le. lia. }
    nia.
Qed.

Lemma rcoef_pad (c j : Z) : 0 <= c -> 0 <= j -> rcoef (c * 10 ^ j) = rcoef c * 10 ^ j.
Proof.
  intros Hc Hj.
  destruct (Z.eq_dec c 0) as [->|Hc0]; [reflexivity|].
  pose proof (ndigits_pad c j ltac:(lia) Hj) as Hd.
  pose proof (ndigits_ge1 c) as Hd1.
  destruct (Z_le_gt_dec (ndigits c) prec) as [Hs|Hb].
  - rewrite (rcoef_small c (excess_small c Hs)).
    destruct (Z_le_gt_dec (ndigits c + j) prec) as [Hs'|Hb'].
    + apply rcoef_small, excess_small. lia.
    + unfold rcoef. rewrite excess_big by lia. rewrite Hd.
      set (k := ndigits c + j - prec).
      assert (Hkj : 0 < k <= j) by (unfold k; lia).
      replace (c * 10 ^ j) with ((c * 10 ^ (j - k)) * 10 ^ k).
      2:{ rewrite <- Z.mul_assoc, <- pow10_add by lia. f_equal. f_equal. lia. }
      rewrite rhe_exact by lia. reflexivity.
  - unfold rcoef. rewrite !excess_big by lia. rewrite Hd.
    replace (ndigits c + j - prec) with ((ndigits c - prec) + j) by lia.
    rewrite rhe_pad by lia. rewrite pow10_add by lia. lia.
Qed.

Lemma rz_nonneg_eq (z : Z) : 0 <= z -> rz z = rcoef z.
Proof.
  intros Hz. unfold rz. destruct (Z.eq_dec z 0) as [->|]; [reflexivity|].
  rewrite Z.sgn_pos, Z.abs_eq by lia. lia.
Qed.

Lemma rz_opp (z : Z) : rz (- z) = - rz z.
Proof. unfold rz. rewrite Z.sgn_opp, Z.abs_opp. lia. Qed.

Lemma rz_nonneg (z : Z) : 0 <= z -> 0 <= rz z.
Proof. intros. rewrite rz_nonneg_eq by lia. apply rcoef_nonneg. lia. Qed.

Lemma rz_pos (z : Z) : 0 < z -> 0 < rz z.
Proof. intros. rewrite rz_nonneg_eq by lia. apply rcoef_pos. lia. Qed.

Lemma rz_mono (a b : Z) : a <= b -> rz a <= rz b.
Proof.
  intros Hab.
  destruct (Z_le_gt_dec 0 a) as [Ha|Ha].
  - rewrite !rz_nonneg_eq by lia. apply rcoef_mono. lia.
  - destruct (Z_le_gt_dec 0 b) as [Hb|Hb].
    + pose proof (rz_nonneg b Hb). pose proof (rz_pos (- a) ltac:(lia)) as H1.
      rewrite rz_opp in H1. lia.
    + pose proof (rz_opp a) as Ea. pose proof (rz_opp b) as Eb.
      rewrite rz_nonneg_eq in Ea, Eb by lia.
      pose proof (rcoef_mono (- b) (- a) ltac:(lia)). lia.
Qed.

Lemma rz_pad (z j : Z) : 0 <= j -> rz (z * 10 ^ j) = rz z * 10 ^ j.
Proof.
  intros Hj. pose proof (pow10_pos j Hj).
  destruct (Z_le_gt_dec 0 z) as [Hz|Hz].
  - rewrite !rz_nonneg_eq by nia. apply rcoef_pad; lia.
  - pose proof (rz_opp (z * 10 ^ j)) as E1. pose proof (rz_opp z) as E2.
    replace (- (z * 10 ^ j)) with ((- z) * 10 ^ j) in E1 by lia.
    rewrite rz_nonneg_eq in E1, E2 by nia.
    rewrite rcoef_pad in E1 by lia. lia.
Qed.

Lemma rz_error (z : Z) : 2 * 10 ^ 27 * Z.abs (rz z - z) <= Z.abs z.
Proof.
  destruct (Z_le_gt_dec 0 z) as [Hz|Hz].
  - rewrite rz_nonneg_eq, (Z.abs_eq z) by lia. apply rcoef_error. lia.
  - pose proof (rz_opp z) as E. rewrite rz_nonneg_eq in E by lia.
    pose proof (rcoef_error (- z) ltac:(lia)) as H.
    replace (rz z - z) with (- (rcoef (- z) - - z)) by lia.
    rewrite Z.abs_opp, (Z.abs_neq z) by lia. exact H.
Qed.

Lemma rz_small (z : Z) : excess (Z.abs z) = 0 -> rz z = z.
Proof.
  intros H. unfold rz. rewrite (rcoef_small _ H).
  rewrite Z.mul_comm. apply Z.abs_sgn.
Qed.

(** *** Division: the quotient digits and the sticky digit *)

Lemma ndigits_pow28 : ndigits (10 ^ 28) = 29%Z.
Proof. reflexivity. Qed.

(** [__truediv__] computes 29 or 30 quotient digits and, when the division
    is inexact, bumps a last digit 0 or 5 so that rounding sees the
    remainder.  The rounded quotient is then within half a unit in the last
    place of the true quotient [num / den]. *)
Lemma sticky_round_error (num den : Z) :
  0 < den -> num mod den <> 0 -> 10 ^ 28 <= num / den ->
  2 * 10 ^ 27 *
    Z.abs (rcoef (if (num / den) mod 5 =? 0 then num / den + 1 else num / den) * den - num)
  <= num.
Proof.
  intros Hden Hr Hq.
  pose proof (Z.div_mod num den ltac:(lia)) as Hnum.
  pose proof (Z.mod_pos_bound num den Hden) as Hrb.
  set (q := num / den) in *. set (r := num mod den) in *.
  set (q' := if q mod 5 =? 0 then q + 1 else q).
  assert (Hq' : q <= q' <= q + 1) by (unfold q'; destruct (q mod 5 =? 0); lia).
  assert (Hk : 0 < excess q').
  { pose proof (ndigits_mono (10 ^ 28) q' ltac:(lia)) as Hd.
    rewrite ndigits_pow28 in Hd. unfold excess, prec. lia. }
  destruct (excess_pos_bounds q' Hk) as [Hlo _].
  pose proof (rhe_error q' (excess q') ltac:(lia)) as He.
  unfold rcoef. set (k := excess q') in *. set (m := round_half_even q' k) in *.
  assert (Hp : 10 ^ k = 10 * 10 ^ (k - 1)).
  { rewrite <- pow10_succ by lia. f_equal. lia. }
  pose proof (pow10_pos (k - 1) ltac:(lia)) as Ht.
  rewrite Hp in *. set (t := 10 ^ (k - 1)) in *.
  change (10 ^ 27) with 1000000000000000000000000000 in *.
  pose proof (Z.div_mod q 5 ltac:(lia)) as Hq5.
  pose proof (Z.mod_pos_bound q 5 ltac:(lia)) as Hq5b.
  set (mt := m * t) in *.
  assert (HR : m * (10 * t) = 10 * mt) by (unfold mt; lia).
  rewrite HR in *.
  assert (Hbounds : 10 * mt - 5 * t <= q /\ q + 1 <= 10 * mt + 5 * t /\
                    1000000000000000000000000000 * (10 * t) <= q).
  { unfold q' in *. destruct (Z.eqb_spec (q mod 5) 0) as [H5|H5]; lia. }
  destruct Hbounds as (Hb1 & Hb2 & Hb3).
  assert (H1 : (10 * mt - 5 * t) * den <= q * den)
    by (apply Z.mul_le_mono_nonneg_r; lia).
  assert (H2 : (q + 1) * den <= (10 * mt + 5 * t) * den)
    by (apply Z.mul_le_mono_nonneg_r; lia).
  assert (H3 : 1000000000000000000000000000 * (10 * t) * den <= q * den)
    by (apply Z.mul_le_mono_nonneg_r; lia).
  set (D := t * den) in *.
  assert (0 <= D) by (unfold D; nia).
  replace ((10 * mt - 5 * t) * den) with (10 * (mt * den) - 5 * D) in H1 by (unfold D; ring).
  replace ((10 * mt + 5 * t) * den) with (10 * (mt * den) + 5 * D) in H2 by (unfold D; ring).
  replace (1000000000000000000000000000 * (10 * t) * den)
    with (10000000000000000000000000000 * D) in H3 by (unfold D; ring).
  replace (10 * mt * den) with (10 * (mt * den)) by ring.
  lia.
Qed.

Lemma strip_zeros_value (fuel : nat) :
  forall q e ideal q' e',
    0 <= q -> strip_zeros fuel q e ideal = (q', e') ->
    0 <= q' /\ q' * 10 ^ (e' - e) = q /\ e <= e'.
Proof.
  induction fuel as [|f IH]; intros q e ideal q' e' Hq H; simpl in H.
  - inversion H; subst. rewrite Z.sub_diag. change (10 ^ 0) with 1. lia.
  - destruct ((e <? ideal) && (q mod 10 =? 0)) eqn:C.
    + apply andb_true_iff in C. destruct C as [_ C]. apply Z.eqb_eq in C.
      pose proof (Z.div_mod q 10 ltac:(lia)) as Hd.
      assert (Hq10 : 0 <= q / 10) by (apply Z.div_pos; lia).
      destruct (IH _ _ _ _ _ Hq10 H) as (H1 & H2 & H3).
      split; [assumption|]. split; [|lia].
      replace (e' - e) with ((e' - (e + 1)) + 1) by lia.
      rewrite pow10_succ by lia. lia.
    + inversion H; subst. rewrite Z.sub_diag. change (10 ^ 0) with 1. lia.
Qed.

(** The quotient digits: at least 29 of them. *)
Lemma quotient_digits (x y : Z) :
  1 <= x -> 1 <= y ->
  let shift := ndigits y - ndigits x + prec + 1 in
  let num := if 0 <=? shift then x * 10 ^ shift else x in
  let den := if 0 <=? shift then y else y * 10 ^ (- shift) in
  0 < den /\ 0 < num /\ 10 ^ 28 <= num / den.
Proof.
  intros Hx Hy shift num den.
  destruct (ndigits_spec x Hx) as (Hdx & Hxlo & Hxhi).
  destruct (ndigits_spec y Hy) as (Hdy & Hylo & Hyhi).
  unfold prec in shift.
  assert (Hden : 0 < den).
  { unfold den. destruct (0 <=? shift) eqn:Hs; [lia|].
    apply Z.leb_gt in Hs. pose proof (pow10_pos (- shift) ltac:(lia)). nia. }
  assert (Hnum : 0 < num).
  { unfold num. destruct (0 <=? shift) eqn:Hs; [|lia].
    apply Z.leb_le in Hs. pose proof (pow10_pos shift Hs). nia. }
  split; [assumption|]. split; [assumption|].
  apply Z.div_le_lower_bound; [assumption|].
  unfold num, den. destruct (0 <=? shift) eqn:Hs.
  - apply Z.leb_le in Hs.
    assert (E : 10 ^ (ndigits x - 1) * 10 ^ shift = 10 ^ ndigits y * 10 ^ 28).
    { rewrite <- !pow10_add by lia. f_equal. unfold shift. lia. }
    pose proof (pow10_pos shift Hs). pose proof (pow10_pos 28 ltac:(lia)).
    nia.
  - apply Z.leb_gt in Hs.
    assert (E : 10 ^ ndigits y * 10 ^ (- shift) * 10 ^ 28 = 10 ^ (ndigits x - 1)).
    { rewrite <- !pow10_add by lia. f_equal. unfold shift. lia. }
    pose proof (pow10_pos (- shift) ltac:(lia)). pose proof (pow10_pos 28 ltac:(lia)).
    nia.
Qed.

(** *** The exponent limits of the context *)

Lemma ndigits_upper (c : Z) : 0 <= c -> c < 10 ^ ndigits c.
Proof.
  intros Hc. destruct (Z.eq_dec c 0) as [->|]; [reflexivity|].
  apply ndigits_spec. lia.
Qed.

Lemma ndigits_le (c k : Z) : 1 <= k -> c < 10 ^ k -> ndigits c <= k.
Proof.
  intros Hk Hc. destruct (Z_le_gt_dec c 0) as [H0|H0].
  - rewrite ndigits_nonpos by lia. lia.
  - destruct (ndigits_spec c ltac:(lia)) as (_ & Hlo & _).
    destruct (Z_le_gt_dec (ndigits c) k) as [|Hgt]; [assumption|].
    pose proof (pow10_le k (ndigits c - 1) ltac:(lia)). lia.
Qed.

Lemma ndigits_mul (a b : Z) :
  0 <= a -> 0 <= b -> ndigits (a * b) <= ndigits a + ndigits b.
Proof.
  intros Ha Hb. pose proof (ndigits_ge1 a). pose proof (ndigits_ge1 b).
  apply ndigits_le; [lia|].
  rewrite pow10_add by lia.
  apply Z.mul_lt_mono_nonneg; auto using ndigits_upper.
Qed.

(** A coefficient that loses digits is rounded to 28 digits, or to
    [10^28]. *)
Lemma rhe_excess_bounds (c : Z) :
  0 < excess c -> 10 ^ 27 <= round_half_even c (excess c) <= 10 ^ 28.
Proof.
  intros Hk. destruct (excess_pos_bounds c Hk) as [Hlo Hhi].
  set (k := excess c) in *. split.
  - pose proof (rhe_lower c k).
    assert (10 ^ 27 <= c / 10 ^ k)
      by (apply Z.div_le_lower_bound; [apply pow10_pos; lia|lia]).
    lia.
  - apply rhe_upper; try lia. rewrite pow10_add by lia. lia.
Qed.

(** Where the exponent is not below [Etiny] and the digits end at or below
    [Emax], [_fix] only rounds to the precision. *)
Lemma fix_round_fin (s : bool) (c e : Z) :
  0 <= c -> Etiny <= e -> e + ndigits c <= Emax ->
  fix_ s c e = Ok (round_fin s c e).
Proof.
  intros Hc He Hmax. unfold fix_, round_fin, excess.
  pose proof (ndigits_ge1 c) as Hn.
  unfold Etop, Etiny, Emin, Emax, prec in *.
  destruct (Z.eqb_spec c 0) as [->|Hc0].
  - rewrite ndigits_nonpos in * by lia.
    replace (Z.min (Z.max e (-999999 - 28 + 1)) 999999) with e by lia.
    reflexivity.
  - destruct (Z.gtb_spec (ndigits c + e - 28) (999999 - 28 + 1)) as [Hov|_]; [lia|].
    destruct (Z_le_gt_dec (ndigits c) 28) as [Hs|Hl].
    + rewrite (Z.max_l 0) by lia. rewrite Z.eqb_refl.
      destruct (Z.ltb_spec e (Z.max (ndigits c + e - 28) (-999999 - 28 + 1)));
        [lia|reflexivity].
    + rewrite (Z.max_r 0) by lia.
      rewrite (Z.max_l (ndigits c + e - 28)) by lia.
      destruct (Z.ltb_spec e (ndigits c + e - 28)) as [_|]; [|lia].
      destruct (Z.eqb_spec (ndigits c - 28) 0) as [|_]; [lia|].
      replace (ndigits c + e - 28 - e) with (ndigits c - 28) by lia.
      destruct (ndigits (round_half_even c (ndigits c - 28)) >? 28).
      * destruct (Z.gtb_spec (ndigits c + e - 28 + 1) (999999 - 28 + 1)); [lia|].
        do 2 f_equal. lia.
      * do 2 f_equal. lia.
Qed.

Lemma round_fin_within (s : bool) (c e B : Z) :
  0 <= c -> - B <= e -> e + ndigits c <= B ->
  within (B + 1) (round_fin s c e) = true.
Proof.
  intros Hc He Hd. unfold round_fin.
  destruct (Z.eqb_spec (excess c) 0) as [Hk|Hk].
  - unfold within. rewrite Z2N.id by assumption.
    apply andb_true_intro. split; [apply Z.leb_le|apply Z.leb_le]; lia.
  - pose proof (excess_nonneg c) as Hk0.
    destruct (rhe_excess_bounds c ltac:(lia)) as [Hlo Hhi].
    assert (Hkd : excess c = ndigits c - 28) by (unfold excess, prec in *; lia).
    set (q := round_half_even c (excess c)) in *.
    destruct (Z.gtb_spec (ndigits q) prec) as [Hq|Hq]; unfold within.
    + assert (0 <= q / 10 < 10 ^ 28).
      { split; [apply Z.div_pos; lia|].
        apply Z.div_lt_upper_bound; [lia|].
        change (10 * 10 ^ 28) with (10 ^ 29). 
        assert (10 ^ 28 < 10 ^ 29) by reflexivity. lia. }
      rewrite Z2N.id by lia.
      pose proof (ndigits_le (q / 10) 28 ltac:(lia) ltac:(lia)).
      apply andb_true_intro. split; apply Z.leb_le; lia.
    + rewrite Z2N.id by lia. unfold prec in Hq.
      apply andb_true_intro. split; apply Z.leb_le; lia.
Qed.

(** Rounding a number of exponent at least [-B] whose digits end at or
    below [B] reaches no limit of the context. *)
Lemma fix_within (s : bool) (c e B : Z) :
  0 <= c -> - B <= e -> e + ndigits c <= B -> B <= 999990 ->
  fix_ s c e = Ok (round_fin s c e) /\ within (B + 1) (round_fin s c e) = true.
Proof.
  intros Hc He Hd HB. split.
  - apply fix_round_fin; unfold Etiny, Emin, Emax, prec; lia.
  - apply round_fin_within; assumption.
Qed.

Lemma within_Fin (B : Z) (s : bool) (c : N) (e : Z) :
  within B (Fin s c e) = true <-> - B <= e /\ e + ndigits (Z.of_N c) <= B.
Proof.
  unfold within. rewrite andb_true_iff, !Z.leb_le. reflexivity.
Qed.

Lemma within_finite (B : Z) (d : decimal) : within B d = true -> is_finite d = true.
Proof. destruct d; [reflexivity|discriminate|discriminate]. Qed.

Lemma within_weaken (A B : Z) (d : decimal) :
  within A d = true -> A <= B -> within B d = true.
Proof.
  destruct d as [s c e| |]; try discriminate.
  rewrite !within_Fin. lia.
Qed.

Lemma within_neg (B : Z) (d : decimal) : within B (neg d) = within B d.
Proof. destruct d; reflexivity. Qed.

Lemma of_int_within (n : Z) : Z.abs n < 10 ^ 18 -> within 18 (of_int n) = true.
Proof.
  intros Hn. unfold of_int. apply within_Fin. rewrite N2Z.inj_abs_N.
  pose proof (ndigits_le (Z.abs n) 18 ltac:(lia) Hn). lia.
Qed.

Lemma moderate_finite (d : decimal) : moderate d = true -> is_finite d = true.
Proof. apply within_finite. Qed.

(** The quotient digits: at most 30 of them. *)
Lemma quotient_upper (x y : Z) :
  1 <= x -> 1 <= y ->
  let shift := ndigits y - ndigits x + prec + 1 in
  let num := if 0 <=? shift then x * 10 ^ shift else x in
  let den := if 0 <=? shift then y else y * 10 ^ (- shift) in
  num / den < 10 ^ 30.
Proof.
  intros Hx Hy shift num den.
  destruct (ndigits_spec x Hx) as (Hdx & Hxlo & Hxhi).
  destruct (ndigits_spec y Hy) as (Hdy & Hylo & Hyhi).
  unfold prec in shift.
  unfold num, den. destruct (0 <=? shift) eqn:Hs.
  - apply Z.leb_le in Hs.
    apply Z.div_lt_upper_bound; [lia|].
    assert (E : 10 ^ ndigits x * 10 ^ shift = 10 ^ (ndigits y - 1) * 10 ^ 30).
    { rewrite <- !pow10_add by lia. f_equal. unfold shift. lia. }
    pose proof (pow10_pos shift Hs). pose proof (pow10_pos 30 ltac:(lia)).
    nia.
  - apply Z.leb_gt in Hs.
    pose proof (pow10_pos (- shift) ltac:(lia)).
    apply Z.div_lt_upper_bound; [nia|].
    assert (E : 10 ^ (ndigits y - 1) * 10 ^ (- shift) * 10 ^ 30 = 10 ^ ndigits x).
    { rewrite <- !pow10_add by lia. f_equal. unfold shift. lia. }
    pose proof (pow10_pos 30 ltac:(lia)).
    nia.
Qed.

(** *** Values as rationals *)

Local Open Scope Q_scope.

Lemma Qpow10_pos (e : Z) : 0 < ten ^ e.
Proof. apply Qpower_0_lt. reflexivity. Qed.

Lemma Qpow10_add (a b : Z) : ten ^ (a + b) == ten ^ a * ten ^ b.
Proof. apply Qpower_plus. discriminate. Qed.

Lemma Qpow10_inject (k : Z) : (0 <= k)%Z -> inject_Z (10 ^ k) == ten ^ k.
Proof. intros. apply (Zpower_Qpower 10 k). assumption. Qed.

(** Moving a power of ten between coefficient and exponent. *)
Lemma scale_pad (z e j : Z) :
  (0 <= j)%Z -> inject_Z (z * 10 ^ j) * ten ^ (e - j) == inject_Z z * ten ^ e.
Proof.
  intros Hj. rewrite inject_Z_mult, Qpow10_inject by assumption.
  replace e with ((e - j) + j)%Z at 2 by lia.
  rewrite Qpow10_add. ring.
Qed.

Lemma scale_le (a b e : Z) :
  inject_Z a * ten ^ e <= inject_Z b * ten ^ e <-> (a <= b)%Z.
Proof.
  pose proof (Qpow10_pos e) as Hp. rewrite Zle_Qle. split; intros H.
  - apply Qmult_le_r in H; assumption.
  - apply Qmult_le_r; assumption.
Qed.

Lemma scale_lt (a b e : Z) :
  inject_Z a * ten ^ e < inject_Z b * ten ^ e <-> (a < b)%Z.
Proof.
  pose proof (Qpow10_pos e) as Hp. rewrite Zlt_Qlt. split; intros H.
  - apply Qmult_lt_r in H; assumption.
  - apply Qmult_lt_r; assumption.
Qed.

Lemma signed_rcoef (s : bool) (c : Z) :
  (0 <= c)%Z -> signed s (rcoef c) = rz (signed s c).
Proof.
  intros Hc. destruct s; simpl.
  - rewrite rz_opp, rz_nonneg_eq by lia. reflexivity.
  - rewrite rz_nonneg_eq by lia. reflexivity.
Qed.

Lemma round_fin_finite (s : bool) (c e : Z) : is_finite (round_fin s c e) = true.
Proof.
  unfold round_fin. destruct (excess c =? 0)%Z; [reflexivity|].
  destruct (ndigits _ >? prec)%Z; reflexivity.
Qed.

Lemma value_Fin (s : bool) (c e : Z) :
  (0 <= c)%Z -> value (Fin s (Z.to_N c) e) == inject_Z (signed s c) * ten ^ e.
Proof. intros Hc. simpl. rewrite Z2N.id by assumption. reflexivity. Qed.

Lemma signed_mul (s : bool) (a b : Z) : signed s (a * b) = (signed s a * b)%Z.
Proof. destruct s; simpl; lia. Qed.

(** The value of a rounded number: the coefficient rounded, the scale
    kept. *)
Lemma value_round_fin (s : bool) (c e : Z) :
  (0 <= c)%Z -> value (round_fin s c e) == inject_Z (rz (signed s c)) * ten ^ e.
Proof.
  intros Hc. rewrite <- signed_rcoef by assumption.
  unfold round_fin. destruct (Z.eqb_spec (excess c) 0) as [Hk|Hk].
  - rewrite (rcoef_small c Hk). apply value_Fin. assumption.
  - pose proof (excess_nonneg c) as Hk0.
    destruct (excess_pos_bounds c ltac:(lia)) as [Hlo Hhi].
    set (k := excess c) in *.
    assert (Hq : (10 ^ 27 <= round_half_even c k <= 10 ^ 28)%Z).
    { split.
      - pose proof (rhe_lower c k).
        assert (10 ^ 27 <= c / 10 ^ k)%Z
          by (apply Z.div_le_lower_bound; [apply pow10_pos; lia|lia]).
        lia.
      - apply rhe_upper; try lia. rewrite pow10_add by lia. lia. }
    unfold rcoef. fold k. set (q := round_half_even c k) in *.
    rewrite signed_mul.
    destruct (Z.gtb_spec (ndigits q) prec) as [Hd|Hd].
    + assert (Hq28 : q = (10 ^ 28)%Z).
      { destruct (Z.eq_dec q (10 ^ 28)) as [|Hne]; [assumption|].
        assert (ndigits q = 28%Z)
          by (apply ndigits_unique; [lia|change (28 - 1)%Z with 27%Z; lia]).
        unfold prec in Hd. lia. }
      rewrite value_Fin by (apply Z.div_pos; lia).
      rewrite <- (scale_pad (signed s (q / 10)) (e + k + 1) (k + 1)) by lia.
      replace (e + k + 1 - (k + 1))%Z with e by lia.
      replace (signed s (q / 10) * 10 ^ (k + 1))%Z with (signed s q * 10 ^ k)%Z.
      * reflexivity.
      * rewrite pow10_succ by lia. rewrite Hq28.
        change (10 ^ 28 / 10)%Z with (10 ^ 27)%Z.
        destruct s; unfold signed; lia.
    + rewrite value_Fin by lia.
      rewrite <- (scale_pad (signed s q) (e + k) k) by lia.
      replace (e + k - k)%Z with e by lia. reflexivity.
Qed.

Lemma Qabs_inject_Z (z : Z) : Qabs (inject_Z z) == inject_Z (Z.abs z).
Proof. symmetry. apply Zabs_Qabs. Qed.

Lemma rounds_to_intro (z e : Z) :
  rounds_to (inject_Z z * ten ^ e) (inject_Z (rz z) * ten ^ e).
Proof. exists z, e. split; reflexivity. Qed.

Lemma rounds_to_mono (x r x' r' : Q) :
  rounds_to x r -> rounds_to x' r' -> x <= x' -> r <= r'.
Proof.
  intros (z & e & Hx & Hr) (z' & e' & Hx' & Hr') Hle.
  set (m := Z.min e e').
  rewrite Hr, Hr'.
  rewrite <- (scale_pad (rz z) e (e - m)), <- (scale_pad (rz z') e' (e' - m)) by lia.
  rewrite <- !rz_pad by lia.
  replace (e - (e - m))%Z with m by lia.
  replace (e' - (e' - m))%Z with m by lia.
  apply scale_le. apply rz_mono. apply (scale_le _ _ m).
  rewrite Hx, Hx' in Hle.
  rewrite <- (scale_pad z e (e - m)), <- (scale_pad z' e' (e' - m)) in Hle by lia.
  replace (e - (e - m))%Z with m in Hle by lia.
  replace (e' - (e' - m))%Z with m in Hle by lia.
  exact Hle.
Qed.

Lemma rounds_to_fun (x r x' r' : Q) :
  rounds_to x r -> rounds_to x' r' -> x == x' -> r == r'.
Proof.
  intros H H' E. apply Qle_antisym.
  - apply (rounds_to_mono x r x' r'); auto. rewrite E. apply Qle_refl.
  - apply (rounds_to_mono x' r' x r); auto. rewrite E. apply Qle_refl.
Qed.

Lemma rounds_to_exact (z e : Z) :
  excess (Z.abs z) = 0%Z ->
  rounds_to (inject_Z z * ten ^ e) (inject_Z z * ten ^ e).
Proof.
  intros H. exists z, e. rewrite (rz_small z H). split; reflexivity.
Qed.

Lemma rounds_to_error (x r : Q) :
  rounds_to x r -> Qabs (r - x) <= half_ulp * Qabs x.
Proof.
  intros (z & e & Hx & Hr). rewrite Hx, Hr.
  pose proof (Qpow10_pos e) as Hp.
  setoid_replace (inject_Z (rz z) * ten ^ e - inject_Z z * ten ^ e)
    with (inject_Z (rz z - z) * ten ^ e)
    by (unfold Z.sub; rewrite inject_Z_plus, inject_Z_opp; ring).
  rewrite !Qabs_Qmult, (Qabs_pos (ten ^ e)) by (apply Qlt_le_weak; exact Hp).
  rewrite Qmult_assoc. apply Qmult_le_r; [exact Hp|].
  rewrite !Qabs_inject_Z.
  pose proof (rz_error z) as He.
  rewrite Zle_Qle in He. rewrite !inject_Z_mult in He.
  change (inject_Z (10 ^ 27)) with (1000000000000000000000000000 # 1) in He.
  change (inject_Z 2) with 2 in He.
  unfold half_ulp. change (10 ^ 28)%positive with 10000000000000000000000000000%positive.
  set (A := inject_Z (Z.abs (rz z - z))) in *.
  set (B := inject_Z (Z.abs z)) in *.
  lra.
Qed.

#[export] Instance rounds_to_proper : Proper (Qeq ==> Qeq ==> iff) rounds_to.
Proof.
  intros x x' Ex r r' Er. unfold rounds_to.
  split; intros (z & e & Hx & Hr); exists z, e.
  - rewrite <- Ex, <- Er. auto.
  - rewrite Ex, Er. auto.
Qed.

Lemma rounds_to_zero : rounds_to 0 0.
Proof. exists 0%Z, 0%Z. split; reflexivity. Qed.

Lemma rounds_to_nonneg (x r : Q) : rounds_to x r -> 0 <= x -> 0 <= r.
Proof. intros H Hx. exact (rounds_to_mono 0 0 x r rounds_to_zero H Hx). Qed.

Lemma rounds_to_nonpos (x r : Q) : rounds_to x r -> x <= 0 -> r <= 0.
Proof. intros H Hx. exact (rounds_to_mono x r 0 0 H rounds_to_zero Hx). Qed.

Lemma half_ulp_small : 0 < half_ulp /\ half_ulp < 1.
Proof. split; reflexivity. Qed.

Lemma rounds_to_pos (x r : Q) : rounds_to x r -> 0 < x -> 0 < r.
Proof.
  intros H Hx. pose proof (rounds_to_error x r H) as He.
  rewrite (Qabs_pos x) in He by lra.
  apply Qabs_Qle_condition in He. destruct half_ulp_small as [_ Hu].
  assert (half_ulp * x < x) by nra. lra.
Qed.

Lemma rounds_to_neg (x r : Q) : rounds_to x r -> x < 0 -> r < 0.
Proof.
  intros H Hx. pose proof (rounds_to_error x r H) as He.
  rewrite (Qabs_neg x) in He by lra.
  apply Qabs_Qle_condition in He. destruct half_ulp_small as [_ Hu].
  assert (half_ulp * - x < - x) by nra. lra.
Qed.

(** *** The operations away from the exponent limits *)

Lemma signed_xorb (sa sb : bool) (x y : Z) :
  signed (xorb sa sb) (x * y) = (signed sa x * signed sb y)%Z.
Proof. destruct sa, sb; simpl; lia. Qed.

(** A product away from the exponent limits is computed without an
    exception and is the exact product rounded. *)
Lemma mul_within (A B : Z) (a b : decimal) :
  within A a = true -> within B b = true -> (A + B <= 999990)%Z ->
  exists r, mul a b = Ok r /\ within (A + B + 1) r = true /\
            rounds_to (value a * value b) (value r).
Proof.
  intros Ha Hb HAB.
  destruct a as [sa ca ea| |]; try discriminate.
  destruct b as [sb cb eb| |]; try discriminate.
  apply within_Fin in Ha, Hb. destruct Ha as [Ha1 Ha2], Hb as [Hb1 Hb2].
  pose proof (ndigits_mul (Z.of_N ca) (Z.of_N cb) ltac:(lia) ltac:(lia)) as Hd.
  destruct (fix_within (xorb sa sb) (Z.of_N ca * Z.of_N cb) (ea + eb) (A + B))
    as [Hfix HW]; try lia.
  eexists. split; [exact Hfix|]. split; [exact HW|].
  rewrite value_round_fin by lia. rewrite signed_xorb.
  exists (signed sa (Z.of_N ca) * signed sb (Z.of_N cb))%Z, (ea + eb)%Z.
  split; [|reflexivity].
  simpl value. rewrite inject_Z_mult, Qpow10_add. ring.
Qed.

Lemma abs_signed (s : bool) (c : Z) : (0 <= c)%Z -> Z.abs (signed s c) = c.
Proof. destruct s; unfold signed; lia. Qed.

(** A coefficient moved to a smaller exponent [e] stays below [10^(M-e)]
    when its digits end at or below [M]. *)
Lemma aligned_bound (s : bool) (c : N) (ec e M : Z) :
  (e <= ec)%Z -> (ec + ndigits (Z.of_N c) <= M)%Z ->
  (Z.abs (signed s (Z.of_N c) * 10 ^ (ec - e)) < 10 ^ (M - e))%Z.
Proof.
  intros He HM.
  pose proof (ndigits_ge1 (Z.of_N c)) as Hn.
  pose proof (ndigits_upper (Z.of_N c) ltac:(lia)) as Hu.
  pose proof (pow10_pos (ec - e) ltac:(lia)) as Hp.
  rewrite Z.abs_mul, abs_signed, (Z.abs_eq (10 ^ (ec - e))) by lia.
  apply Z.lt_le_trans with (10 ^ ndigits (Z.of_N c) * 10 ^ (ec - e))%Z.
  - apply Z.mul_lt_mono_pos_r; assumption.
  - rewrite <- pow10_add by lia. apply pow10_le. lia.
Qed.

Lemma add_within (A B : Z) (a b : decimal) :
  within A a = true -> within B b = true -> (Z.max A B + 1 <= 999990)%Z ->
  exists r, add a b = Ok r /\ within (Z.max A B + 2) r = true /\
            rounds_to (value a + value b) (value r).
Proof.
  intros Ha Hb HAB.
  destruct a as [sa ca ea| |]; try discriminate.
  destruct b as [sb cb eb| |]; try discriminate.
  apply within_Fin in Ha, Hb. destruct Ha as [Ha1 Ha2], Hb as [Hb1 Hb2].
  unfold add. cbv zeta.
  set (e := Z.min ea eb).
  set (x := (signed sa (Z.of_N ca) * 10 ^ (ea - e))%Z).
  set (y := (signed sb (Z.of_N cb) * 10 ^ (eb - e))%Z).
  set (M := Z.max A B) in *.
  pose proof (ndigits_ge1 (Z.of_N ca)) as Hna.
  assert (Hx : (Z.abs x < 10 ^ (M - e))%Z)
    by (apply aligned_bound; unfold e, M; lia).
  assert (Hy : (Z.abs y < 10 ^ (M - e))%Z)
    by (apply aligned_bound; unfold e, M; lia).
  assert (HMe : (1 <= M - e)%Z) by (unfold e, M; lia).
  assert (Hz : (Z.abs (x + y) < 10 ^ (M - e + 1))%Z).
  { rewrite pow10_succ by lia. lia. }
  pose proof (ndigits_le (Z.abs (x + y)) (M - e + 1) ltac:(lia) Hz) as Hd.
  match goal with
  | |- exists r, fix_ ?s _ _ = _ /\ _ =>
      destruct (fix_within s (Z.abs (x + y)) e (M + 1)) as [Hfix HW];
      [apply Z.abs_nonneg|unfold e, M; lia|lia|lia|]
  end.
  eexists. split; [exact Hfix|].
  split; [replace (M + 2)%Z with (M + 1 + 1)%Z by lia; exact HW|].
  rewrite value_round_fin by apply Z.abs_nonneg.
  exists (x + y)%Z, e. split.
  - simpl value. rewrite inject_Z_plus. unfold x, y.
    rewrite <- (scale_pad (signed sa (Z.of_N ca)) ea (ea - e)) by lia.
    rewrite <- (scale_pad (signed sb (Z.of_N cb)) eb (eb - e)) by lia.
    replace (ea - (ea - e))%Z with e by lia.
    replace (eb - (eb - e))%Z with e by lia. ring.
  - destruct (Z.eqb_spec (x + y) 0) as [H0|H0].
    + rewrite H0. simpl Z.abs.
      replace (signed _ 0) with 0%Z by (destruct (if _ : bool then _ else _); reflexivity).
      reflexivity.
    + destruct (Z.ltb_spec (x + y) 0) as [Hn|Hn]; simpl signed.
      * rewrite Z.abs_neq by lia. rewrite Z.opp_involutive. reflexivity.
      * rewrite Z.abs_eq by lia. reflexivity.
Qed.

Lemma value_neg (a : decimal) : value (neg a) == - value a.
Proof.
  destruct a as [s c e| |]; simpl; try reflexivity.
  destruct s; simpl; rewrite ?inject_Z_opp; ring.
Qed.

Lemma sub_within (A B : Z) (a b : decimal) :
  within A a = true -> within B b = true -> (Z.max A B + 1 <= 999990)%Z ->
  exists r, sub a b = Ok r /\ within (Z.max A B + 2) r = true /\
            rounds_to (value a - value b) (value r).
Proof.
  intros Ha Hb HAB. unfold sub.
  destruct (add_within A B a (neg b) Ha) as (r & Hr & Hf & Hv).
  - rewrite within_neg. assumption.
  - assumption.
  - exists r. repeat split; try assumption.
    rewrite value_neg in Hv. exact Hv.
Qed.

Lemma compare_finite (a b : decimal) :
  is_finite a = true -> is_finite b = true ->
  compare a b = Some (value a ?= value b).
Proof.
  intros Ha Hb.
  destruct a as [sa ca ea| |]; try discriminate.
  destruct b as [sb cb eb| |]; try discriminate.
  simpl compare. f_equal. unfold cmp_fin.
  set (e := Z.min ea eb).
  set (x := (signed sa (Z.of_N ca) * 10 ^ (ea - e))%Z).
  set (y := (signed sb (Z.of_N cb) * 10 ^ (eb - e))%Z).
  assert (Ea : value (Fin sa ca ea) == inject_Z x * ten ^ e).
  { unfold x. rewrite <- (scale_pad (signed sa (Z.of_N ca)) ea (ea - e)) by lia.
    replace (ea - (ea - e))%Z with e by lia. reflexivity. }
  assert (Eb : value (Fin sb cb eb) == inject_Z y * ten ^ e).
  { unfold y. rewrite <- (scale_pad (signed sb (Z.of_N cb)) eb (eb - e)) by lia.
    replace (eb - (eb - e))%Z with e by lia. reflexivity. }
  rewrite Ea, Eb. symmetry.
  destruct (Z.compare_spec x y) as [H|H|H].
  - apply Qeq_alt. rewrite H. reflexivity.
  - apply Qlt_alt. apply scale_lt. assumption.
  - apply Qgt_alt. apply scale_lt. assumption.
Qed.

Lemma leb_finite (a b : decimal) :
  is_finite a = true -> is_finite b = true ->
  (leb a b = true <-> value a <= value b).
Proof.
  intros Ha Hb. unfold leb. rewrite (compare_finite a b Ha Hb).
  rewrite Qle_alt. destruct (value a ?= value b); split; congruence.
Qed.

Lemma ltb_finite (a b : decimal) :
  is_finite a = true -> is_finite b = true ->
  (ltb a b = true <-> value a < value b).
Proof.
  intros Ha Hb. unfold ltb. rewrite (compare_finite a b Ha Hb).
  rewrite Qlt_alt. destruct (value a ?= value b); split; congruence.
Qed.

Lemma eqb_finite (a b : decimal) :
  is_finite a = true -> is_finite b = true ->
  (eqb a b = true <-> value a == value b).
Proof.
  intros Ha Hb. unfold eqb. rewrite (compare_finite a b Ha Hb).
  rewrite Qeq_alt. destruct (value a ?= value b); split; congruence.
Qed.

Lemma sign_unit (s : bool) :
  inject_Z (signed s 1) == 1 \/ inject_Z (signed s 1) == - (1).
Proof. destruct s; [right|left]; reflexivity. Qed.

Lemma signed_unit (s : bool) (c : Z) : signed s c = (signed s 1 * c)%Z.
Proof. destruct s; unfold signed; lia. Qed.

Lemma relative_error_scaled (R num den : Z) (sg P : Q) :
  (0 < den)%Z -> (0 < num)%Z -> 0 < P -> (sg == 1 \/ sg == - (1)) ->
  (2 * 10 ^ 27 * Z.abs (R * den - num) <= num)%Z ->
  Qabs (sg * inject_Z R * P - sg * (inject_Z num / inject_Z den) * P)
  <= half_ulp * Qabs (sg * (inject_Z num / inject_Z den) * P).
Proof.
  intros Hden Hnum HP Hsg Herr.
  assert (Hz : (2 * 10 ^ 27 * (R * den - num) <= num /\
                - num <= 2 * 10 ^ 27 * (R * den - num))%Z) by lia.
  destruct Hz as [Hz1 Hz2].
  rewrite Zle_Qle in Hz1, Hz2.
  rewrite ?inject_Z_opp, ?inject_Z_mult in Hz1, Hz2.
  unfold Z.sub in Hz1, Hz2.
  rewrite ?inject_Z_plus, ?inject_Z_opp, ?inject_Z_mult in Hz1, Hz2.
  change (inject_Z 2) with 2 in *.
  change (inject_Z (10 ^ 27)) with (1000000000000000000000000000 # 1) in *.
  rewrite Zlt_Qlt in Hden, Hnum. change (inject_Z 0) with 0 in *.
  set (N := inject_Z num) in *. set (D := inject_Z den) in *.
  set (Rq := inject_Z R) in *.
  set (W := N / D).
  assert (HW : N == W * D) by (unfold W; field; lra).
  assert (HWpos : 0 < W).
  { unfold W. apply Qlt_shift_div_l; lra. }
  rewrite HW in Hz1, Hz2. clearbody W.
  assert (H1 : 2 * (1000000000000000000000000000 # 1) * (Rq - W) <= W).
  { apply (Qmult_le_r _ _ D Hden). lra. }
  assert (H2 : - W <= 2 * (1000000000000000000000000000 # 1) * (Rq - W)).
  { apply (Qmult_le_r _ _ D Hden). lra. }
  assert (HWP : 0 < W * P) by (apply Qmult_lt_0_compat; assumption).
  assert (H3 : 0 <= (W - 2 * (1000000000000000000000000000 # 1) * (Rq - W)) * P)
    by (apply Qmult_le_0_compat; lra).
  assert (H4 : 0 <= (W + 2 * (1000000000000000000000000000 # 1) * (Rq - W)) * P)
    by (apply Qmult_le_0_compat; lra).
  unfold half_ulp. change (10 ^ 28)%positive with 10000000000000000000000000000%positive.
  destruct Hsg as [Hsg|Hsg]; rewrite Hsg.
  - rewrite (Qabs_pos (1 * W * P)) by lra.
    apply Qabs_Qle_condition. lra.
  - rewrite (Qabs_neg (- (1) * W * P)) by lra.
    apply Qabs_Qle_condition. lra.
Qed.

Lemma inject_Z_pos (z : Z) : (0 < z)%Z -> 0 < inject_Z z.
Proof. intros H. rewrite Zlt_Qlt in H. exact H. Qed.

Lemma Qpow10_nonzero (e : Z) : ~ ten ^ e == 0.
Proof. pose proof (Qpow10_pos e). lra. Qed.

Lemma Qpow10_opp (e : Z) : ten ^ (- e) == / ten ^ e.
Proof. apply Qpower_opp. Qed.

Lemma value_quotient (sa sb : bool) (x y ea eb : Z) :
  (0 < y)%Z ->
  (inject_Z (signed sa x) * ten ^ ea) / (inject_Z (signed sb y) * ten ^ eb)
  == inject_Z (signed (xorb sa sb) 1) * (inject_Z x / inject_Z y) * ten ^ (ea - eb).
Proof.
  intros Hy. rewrite Zlt_Qlt in Hy. change (inject_Z 0) with 0 in Hy.
  unfold Z.sub. rewrite Qpow10_add, Qpow10_opp.
  pose proof (Qpow10_nonzero eb).
  set (A := ten ^ ea) in *. set (B := ten ^ eb) in *.
  destruct sa, sb; cbn [xorb signed]; rewrite ?inject_Z_opp;
    change (inject_Z 1) with 1; field; repeat split; lra.
Qed.

(** Division by a non-zero decimal, away from the exponent limits: no
    exception, and the result is within half a unit in the last place of
    the quotient. *)
Lemma div_within (A B : Z) (a b : decimal) :
  within A a = true -> within B b = true -> is_zero b = false ->
  (A + B + 28 <= 999990)%Z ->
  exists r, div a b = Ok r /\ within (A + B + 29) r = true /\
            Qabs (value r - value a / value b)
            <= half_ulp * Qabs (value a / value b).
Proof.
  intros Ha Hb Hnz HAB.
  destruct a as [sa ca ea| |]; try discriminate.
  destruct b as [sb cb eb| |]; try discriminate.
  apply within_Fin in Ha, Hb. destruct Ha as [Ha1 Ha2], Hb as [Hb1 Hb2].
  pose proof (ndigits_ge1 (Z.of_N ca)) as Hna.
  pose proof (ndigits_ge1 (Z.of_N cb)) as Hnb.
  simpl in Hnz. unfold div. rewrite Hnz.
  apply N.eqb_neq in Hnz.
  destruct (N.eqb_spec ca 0) as [Hca|Hca].
  - destruct (fix_within (xorb sa sb) 0 (ea - eb) (A + B + 28)) as [Hfix HW];
      try lia.
    { rewrite ndigits_nonpos by lia. lia. }
    eexists. split; [exact Hfix|].
    split; [replace (A + B + 29)%Z with (A + B + 28 + 1)%Z by lia; exact HW|].
    rewrite value_round_fin by lia. subst ca. simpl value.
    replace (signed (xorb sa sb) 0) with 0%Z by (destruct (xorb sa sb); reflexivity).
    replace (signed sa 0) with 0%Z by (destruct sa; reflexivity).
    change (rz 0) with 0%Z. change (inject_Z 0) with 0.
    set (P := ten ^ (ea - eb)). set (Q := ten ^ ea).
    set (C := inject_Z (signed sb (Z.of_N cb)) * ten ^ eb).
    setoid_replace (0 * P - 0 * Q / C) with 0 by (unfold Qdiv; ring).
    setoid_replace (0 * Q / C) with 0 by (unfold Qdiv; ring).
    simpl. unfold half_ulp. lra.
  - cbv zeta.
    set (x := Z.of_N ca) in *. set (y := Z.of_N cb) in *.
    assert (Hx : (1 <= x)%Z) by (unfold x; lia).
    assert (Hy : (1 <= y)%Z) by (unfold y; lia).
    destruct (quotient_digits x y Hx Hy) as (Hden & Hnum & Hq).
    pose proof (quotient_upper x y Hx Hy) as Hqu.
    cbv zeta in Hden, Hnum, Hq, Hqu.
    set (shift := (ndigits y - ndigits x + prec + 1)%Z) in *.
    set (num := if (0 <=? shift)%Z then (x * 10 ^ shift)%Z else x) in *.
    set (den := if (0 <=? shift)%Z then y else (y * 10 ^ (- shift))%Z) in *.
    set (e := (ea - eb - shift)%Z).
    set (s := xorb sa sb).
    assert (He : (- (A + B + 28) <= e /\ e + 30 <= A + B)%Z)
      by (unfold e, shift, prec; lia).
    assert (H30 : (10 ^ 30 < 10 ^ 31)%Z) by reflexivity.
    assert (H28 : (0 < 10 ^ 28)%Z) by reflexivity.
    (* the true quotient, at the scale of the computed digits *)
    assert (HX : value (Fin sa ca ea) / value (Fin sb cb eb)
                 == inject_Z (signed s 1) * (inject_Z num / inject_Z den) * ten ^ e).
    { simpl value. fold x y. rewrite value_quotient by lia. fold s.
      assert (Hyq : 0 < inject_Z y) by (apply inject_Z_pos; lia).
      replace (ea - eb)%Z with (e + shift)%Z by (unfold e; lia).
      rewrite Qpow10_add.
      unfold num, den. destruct (Z.leb_spec 0 shift) as [Hs|Hs].
      - rewrite inject_Z_mult, Qpow10_inject by lia.
        pose proof (Qpow10_nonzero shift).
        set (P := ten ^ shift) in *. set (Q := ten ^ e) in *.
        field; repeat split; lra.
      - replace shift with (- (- shift))%Z at 1 by lia.
        rewrite Qpow10_opp.
        rewrite inject_Z_mult, Qpow10_inject by lia.
        pose proof (Qpow10_nonzero (- shift)).
        set (P := ten ^ (- shift)) in *. set (Q := ten ^ e) in *.
        field; repeat split; lra. }
    destruct (Z.eqb_spec (num mod den) 0) as [Hr|Hr].
    + destruct (strip_zeros _ _ _ _) as [q' e'] eqn:Hsz.
      apply strip_zeros_value in Hsz; [|apply Z.div_pos; lia].
      destruct Hsz as (Hq' & Hval & He').
      assert (Hq1 : (1 <= q')%Z).
      { destruct (Z.eq_dec q' 0) as [H0|]; [|lia].
        rewrite H0 in Hval. simpl in Hval. lia. }
      assert (Hd : (e' + ndigits q' <= e + 30)%Z).
      { pose proof (ndigits_pad q' (e' - e) Hq1 ltac:(lia)) as Hpad.
        rewrite Hval in Hpad.
        pose proof (ndigits_le (num / den) 30 ltac:(lia) Hqu). lia. }
      destruct (fix_within s q' e' (A + B + 28)) as [Hfix HW]; try lia.
      eexists. split; [exact Hfix|].
      split; [replace (A + B + 29)%Z with (A + B + 28 + 1)%Z by lia; exact HW|].
      rewrite HX, value_round_fin by assumption.
      apply rounds_to_error.
      exists (signed s q'), e'. split; [|reflexivity].
      pose proof (Z.div_mod num den ltac:(lia)) as Hdm. rewrite Hr in Hdm.
      rewrite <- (scale_pad (signed s q') e' (e' - e)) by lia.
      replace (e' - (e' - e))%Z with e by lia.
      rewrite <- signed_mul, Hval.
      rewrite (signed_unit s (num / den)), inject_Z_mult.
      assert (Hdq : 0 < inject_Z den) by (apply inject_Z_pos; lia).
      assert (Hexact : inject_Z num == inject_Z den * inject_Z (num / den)).
      { rewrite <- inject_Z_mult. rewrite Hdm at 1. rewrite Z.add_0_r. reflexivity. }
      rewrite Hexact. set (Q := ten ^ e). field; repeat split; lra.
    + set (q' := if ((num / den) mod 5 =? 0)%Z then (num / den + 1)%Z else (num / den)%Z).
      assert (Hq'0 : (0 <= q' <= 10 ^ 30)%Z).
      { unfold q'. destruct (_ =? 0)%Z; lia. }
      pose proof (ndigits_le q' 31 ltac:(lia) ltac:(lia)) as Hd.
      destruct (fix_within s q' e (A + B + 28)) as [Hfix HW]; try lia.
      eexists. split; [exact Hfix|].
      split; [replace (A + B + 29)%Z with (A + B + 28 + 1)%Z by lia; exact HW|].
      rewrite HX, value_round_fin by lia.
      rewrite <- signed_rcoef by lia.
      rewrite (signed_unit s (rcoef q')), inject_Z_mult.
      apply relative_error_scaled; try assumption.
      * apply Qpow10_pos.
      * apply sign_unit.
      * apply sticky_round_error; assumption.
Qed.

End DecFacts.

(** ** Comprehensions and ranges *)

Lemma Ok_inj {A : Type} (a b : A) : Ok a = Ok b -> a = b.
Proof. intros H. inversion H. reflexivity. Qed.

Lemma mapM_Forall2 {A B : Type} (f : A -> result B) (l : list A) (ys : list B) :
  mapM f l = Ok ys <-> Forall2 (fun x y => f x = Ok y) l ys.
Proof.
  revert ys. induction l as [|x t IH]; intros ys; simpl.
  - split; intros H.
    + inversion H. constructor.
    + inversion H. reflexivity.
  - split; intros H.
    + destruct (f x) as [y|e] eqn:Hx; simpl in H; [|discriminate].
      destruct (mapM f t) as [ys'|e] eqn:Ht; simpl in H; [|discriminate].
      inversion H; subst. constructor; [assumption|]. apply IH. reflexivity.
    + inversion H as [|x' y t' ys' Hxy Hrest]; subst.
      rewrite Hxy. simpl. apply IH in Hrest. rewrite Hrest. reflexivity.
Qed.

Lemma mapM_total {A B : Type} (P : B -> Prop) (f : A -> result B) (l : list A) :
  (forall x, In x l -> exists y, f x = Ok y /\ P y) ->
  exists ys, mapM f l = Ok ys /\ Forall P ys.
Proof.
  induction l as [|x t IH]; intros H; simpl.
  - exists []. split; [reflexivity|constructor].
  - destruct (H x (or_introl eq_refl)) as (y & Hy & Py).
    destruct IH as (ys & Hys & Pys); [intros z Hz; apply H; right; exact Hz|].
    exists (y :: ys). rewrite Hy, Hys. split; [reflexivity|constructor; assumption].
Qed.

Lemma mapM_raises {A B : Type} (P : exn -> Prop) (f : A -> result B) (l : list A) (e : exn) :
  (forall x e', f x = Raise e' -> P e') -> mapM f l = Raise e -> P e.
Proof.
  intros Hf. induction l as [|x t IH]; simpl; [discriminate|].
  destruct (f x) as [y|e'] eqn:Hx; simpl.
  - destruct (mapM f t) as [ys|e'']; simpl; [discriminate|].
    intros H; inversion H; subst. apply IH. reflexivity.
  - intros H; inversion H; subst. apply (Hf x). exact Hx.
Qed.

Lemma Forall2_nth_l {A B : Type} (R : A -> B -> Prop) (l : list A) (l' : list B) :
  Forall2 R l l' ->
  forall n x, nth_error l n = Some x -> exists y, nth_error l' n = Some y /\ R x y.
Proof.
  induction 1 as [|a b t t' Hab Ht IH]; intros n x Hn.
  - destruct n; discriminate.
  - destruct n as [|n]; simpl in *.
    + inversion Hn; subst. exists b. split; [reflexivity|assumption].
    + apply IH. exact Hn.
Qed.

Lemma Forall2_nth_r {A B : Type} (R : A -> B -> Prop) (l : list A) (l' : list B) :
  Forall2 R l l' ->
  forall n y, nth_error l' n = Some y -> exists x, nth_error l n = Some x /\ R x y.
Proof.
  induction 1 as [|a b t t' Hab Ht IH]; intros n y Hn.
  - destruct n; discriminate.
  - destruct n as [|n]; simpl in *.
    + inversion Hn; subst. exists a. split; [reflexivity|assumption].
    + apply IH. exact Hn.
Qed.

Lemma nth_error_combine {A B : Type} (l : list A) (l' : list B) (n : nat) (a : A) (b : B) :
  nth_error l n = Some a -> nth_error l' n = Some b ->
  nth_error (combine l l') n = Some (a, b).
Proof.
  revert l' n. induction l as [|x t IH]; intros l' n Ha Hb.
  - destruct n; discriminate.
  - destruct l' as [|y t']; [destruct n; discriminate|].
    destruct n as [|n]; simpl in *.
    + inversion Ha; inversion Hb; subst. reflexivity.
    + apply IH; assumption.
Qed.

Lemma range_length (n : Z) : List.length (range n) = Z.to_nat n.
Proof. unfold range. rewrite length_map, length_seq. reflexivity. Qed.

Lemma range_nth (n : Z) (i : nat) :
  (i < Z.to_nat n)%nat -> nth_error (range n) i = Some (Z.of_nat i).
Proof.
  intros Hi. unfold range. rewrite nth_error_map.
  rewrite nth_error_seq.
  destruct (Nat.ltb_spec i (Z.to_nat n)); [reflexivity|lia].
Qed.

Lemma range_nth_inv (n : Z) (i : nat) (x : Z) :
  nth_error (range n) i = Some x -> x = Z.of_nat i /\ 0 <= x < n.
Proof.
  intros H.
  assert (Hi : (i < List.length (range n))%nat)
    by (apply nth_error_Some; rewrite H; discriminate).
  rewrite range_length in Hi. rewrite range_nth in H by assumption.
  inversion H; subst. lia.
Qed.

Lemma In_range (n x : Z) : In x (range n) -> 0 <= x < n.
Proof.
  intros H. apply In_nth_error in H. destruct H as [i Hi].
  apply range_nth_inv in Hi. lia.
Qed.

(** ** The ladder away from the exponent limits *)

Import DecFacts.

Lemma of_int_finite (n : Z) : is_finite (of_int n) = true.
Proof. reflexivity. Qed.

Lemma value_of_int (n : Z) : (value (of_int n) == inject_Z n)%Q.
Proof.
  unfold of_int, value. rewrite N2Z.inj_abs_N.
  change ((10 # 1) ^ 0)%Q with 1%Q.
  destruct (Z.ltb_spec n 0); unfold signed.
  - rewrite Z.abs_neq by lia. rewrite Z.opp_involutive. ring.
  - rewrite Z.abs_eq by lia. ring.
Qed.

Lemma one_within : within 18 (of_int 1) = true.
Proof. reflexivity. Qed.

(** Every level price of a ladder away from the exponent limits is computed
    without an exception, each operation rounding the exact result. *)
Lemma level_price_moderate (side : TradeType) (price scalar sm : decimal) (n : Z) :
  moderate price = true -> moderate scalar = true -> moderate sm = true ->
  0 <= n < 10 ^ 18 ->
  exists ns offset factor p,
    mul (of_int n) scalar = Ok ns /\ mul ns sm = Ok offset /\
    match side with
    | BUY => sub (of_int 1) offset
    | SELL => add (of_int 1) offset
    end = Ok factor /\
    mul price factor = Ok p /\
    level_price side price scalar sm n = Ok p /\
    is_finite ns = true /\ is_finite offset = true /\
    is_finite factor = true /\ is_finite p = true /\
    rounds_to (inject_Z n * value scalar) (value ns) /\
    rounds_to (value ns * value sm) (value offset) /\
    rounds_to (match side with
               | BUY => 1 - value offset
               | SELL => 1 + value offset
               end)%Q (value factor) /\
    rounds_to (value price * value factor) (value p) /\
    within 300023 p = true.
Proof.
  intros Hp Hs Hm Hn. unfold moderate in *.
  destruct (mul_within 18 100000 (of_int n) scalar (of_int_within n ltac:(lia)) Hs
              ltac:(lia)) as (ns & Hns & Wns & Vns).
  destruct (mul_within _ _ ns sm Wns Hm ltac:(lia)) as (offset & Hoff & Woff & Voff).
  assert (Hfac : exists factor,
             match side with
             | BUY => sub (of_int 1) offset
             | SELL => add (of_int 1) offset
             end = Ok factor /\ within 200022 factor = true /\
             rounds_to (match side with
                        | BUY => 1 - value offset
                        | SELL => 1 + value offset
                        end)%Q (value factor)).
  { destruct side.
    - destruct (sub_within _ _ (of_int 1) offset one_within Woff ltac:(lia))
        as (f & Hf & Wf & Vf).
      exists f. repeat split; assumption.
    - destruct (add_within _ _ (of_int 1) offset one_within Woff ltac:(lia))
        as (f & Hf & Wf & Vf).
      exists f. repeat split; assumption. }
  destruct Hfac as (factor & Hfac & Wfac & Vfac).
  destruct (mul_within _ _ price factor Hp Wfac ltac:(lia)) as (p & Hpr & Wp & Vp).
  exists ns, offset, factor, p.
  rewrite value_of_int in Vns.
  repeat split; try assumption; try (eapply within_finite; eassumption).
  unfold level_price. rewrite Hns. cbn [bind]. rewrite Hoff. cbn [bind].
  rewrite Hfac. cbn [bind]. exact Hpr.
Qed.

Lemma level_amount_moderate (amount pct price : decimal) :
  moderate amount = true -> moderate pct = true -> within 300023 price = true ->
  exists ap a,
    mul amount pct = Ok ap /\ mul ap price = Ok a /\
    level_amount amount pct price = Ok a /\
    is_finite ap = true /\ is_finite a = true /\
    rounds_to (value amount * value pct) (value ap) /\
    rounds_to (value ap * value price) (value a).
Proof.
  intros Ha Hw Hp. unfold moderate in *.
  destruct (mul_within _ _ amount pct Ha Hw ltac:(lia)) as (ap & Hap & Wap & Vap).
  destruct (mul_within _ _ ap price Wap Hp ltac:(lia)) as (a & Haa & Wa & Va).
  exists ap, a. repeat split; try assumption; try (eapply within_finite; eassumption).
  unfold level_amount. rewrite Hap. cbn [bind]. exact Haa.
Qed.

(** What a call that returns has computed: the side of the level id, a
    price for each level 0 .. dca_levels-1 and an amount for each pair of a
    weight and a price, in order. *)
Lemma get_executor_config_Ok (E : Externals) (now : float) (level_id : string)
    (price amount : decimal) (self : Controller) (pd : ProcessedData)
    (x : DCAExecutorConfig) :
  processed_data self = Some pd ->
  fst (get_executor_config E now level_id price amount self) = Ok x ->
  x_side x = get_trade_type_from_level_id E level_id /\
  Forall2 (fun n p => level_price (x_side x) price (dca_spread_scalar (config self))
                        (spread_multiplier pd) n = Ok p)
          (range (dca_levels (config self))) (x_prices x) /\
  Forall2 (fun wp a => level_amount amount (fst wp) (snd wp) = Ok a)
          (combine (dca_amounts_pct self) (x_prices x)) (x_amounts_quote x).
Proof.
  intros Hpd. unfold get_executor_config. rewrite Hpd. cbn [fst].
  destruct (mapM _ (range _)) as [prices|] eqn:Hprices; cbn [bind]; [|discriminate].
  destruct (mapM _ (combine _ _)) as [amounts|] eqn:Hamounts; cbn [bind];
    [|discriminate].
  intros H. apply Ok_inj in H. subst x. cbn.
  split; [reflexivity|]. split; [apply mapM_Forall2; exact Hprices|].
  apply mapM_Forall2 in Hamounts.
  eapply Forall2_impl; [|exact Hamounts].
  intros [w p] a H. exact H.
Qed.

(** What a call on a ladder away from the exponent limits returns: the
    prices of the levels 0 .. dca_levels-1 in order, and one amount per
    weight and price. *)
Lemma get_executor_config_moderate (E : Externals) (now : float) (level_id : string)
    (price amount : decimal) (self : Controller) (pd : ProcessedData) :
  processed_data self = Some pd ->
  moderate price = true -> moderate amount = true ->
  moderate (dca_spread_scalar (config self)) = true ->
  moderate (spread_multiplier pd) = true ->
  Forall (fun w => moderate w = true) (dca_amounts_pct self) ->
  dca_levels (config self) <= 10 ^ 18 ->
  exists x,
    fst (get_executor_config E now level_id price amount self) = Ok x /\
    x_side x = get_trade_type_from_level_id E level_id /\
    Forall2 (fun n p => level_price (x_side x) price (dca_spread_scalar (config self))
                          (spread_multiplier pd) n = Ok p)
            (range (dca_levels (config self))) (x_prices x) /\
    Forall2 (fun wp a => level_amount amount (fst wp) (snd wp) = Ok a)
            (combine (dca_amounts_pct self) (x_prices x)) (x_amounts_quote x) /\
    Forall (fun p => is_finite p = true) (x_prices x) /\
    Forall (fun a => is_finite a = true) (x_amounts_quote x).
Proof.
  intros Hpd Hp Ha Hs Hm Hw Hlev.
  unfold get_executor_config. rewrite Hpd. cbn [fst].
  set (side := get_trade_type_from_level_id E level_id).
  destruct (mapM_total (fun p => within 300023 p = true)
              (level_price side price (dca_spread_scalar (config self)) (spread_multiplier pd))
              (range (dca_levels (config self)))) as (prices & Hprices & Wprices).
  { intros n Hin. apply In_range in Hin.
    destruct (level_price_moderate side price _ _ n Hp Hs Hm ltac:(lia))
      as (ns & off & fac & p & _ & _ & _ & _ & Hlp & _ & _ & _ & _ & _ & _ & _ & _ & Wp).
    exists p. split; assumption. }
  rewrite Hprices. cbn [bind].
  destruct (mapM_total (fun a => is_finite a = true)
              (fun '(pct, p) => level_amount amount pct p)
              (combine (dca_amounts_pct self) prices)) as (amounts & Hamounts & Famounts).
  { intros [w p] Hin.
    pose proof (in_combine_l _ _ _ _ Hin) as Hwin.
    pose proof (in_combine_r _ _ _ _ Hin) as Hpin.
    rewrite Forall_forall in Hw, Wprices.
    destruct (level_amount_moderate amount w p Ha (Hw _ Hwin) (Wprices _ Hpin))
      as (ap & a & _ & _ & Hla & _ & Fa & _).
    exists a. split; assumption. }
  rewrite Hamounts. cbn [bind].
  eexists. split; [reflexivity|]. cbn.
  split; [reflexivity|].
  split; [apply mapM_Forall2; exact Hprices|].
  split; [|split; [|assumption]].
  - apply mapM_Forall2 in Hamounts.
    eapply Forall2_impl; [|exact Hamounts].
    intros [w p] a H. exact H.
  - eapply Forall_impl; [|exact Wprices]. intros p. apply within_finite.
Qed.

(** The limits are reached by finite inputs: the SELL level 1 of a ladder
    at the price 1E+999999 overflows. *)
Lemma get_executor_config_overflow :
  fst (get_executor_config Example.quiet Example.now "sell_0" (Fin false 1 999999)
         (of_int 10) (Example.ladder3 (of_int 5))) = Raise Overflow.
Proof. vm_compute. reflexivity. Qed.

(** ** Order and sign of the level prices *)

Lemma value_pos_of_ltb (d : decimal) :
  is_finite d = true -> (ltb (of_int 0) d = true <-> (0 < value d)%Q).
Proof.
  intros Hd. rewrite (ltb_finite _ _ (of_int_finite 0) Hd), value_of_int.
  reflexivity.
Qed.

Lemma value_nonneg_of_leb (d : decimal) :
  is_finite d = true -> (leb (of_int 0) d = true <-> (0 <= value d)%Q).
Proof.
  intros Hd. rewrite (leb_finite _ _ (of_int_finite 0) Hd), value_of_int.
  reflexivity.
Qed.

(** The offset [n * scalar * sm] of a level grows with the level when
    [scalar * sm > 0]. *)
Lemma level_offset_mono (scalar sm : decimal) (i j : Z)
    (nsi offi nsj offj : decimal) :
  (0 < value scalar * value sm)%Q -> i <= j ->
  rounds_to (inject_Z i * value scalar) (value nsi) ->
  rounds_to (value nsi * value sm) (value offi) ->
  rounds_to (inject_Z j * value scalar) (value nsj) ->
  rounds_to (value nsj * value sm) (value offj) ->
  (value offi <= value offj)%Q.
Proof.
  intros Hpos Hij Rni Roi Rnj Roj.
  rewrite Zle_Qle in Hij.
  destruct (Qlt_le_dec 0 (value scalar)) as [Hs|Hs].
  - assert (Hm : (0 < value sm)%Q) by nra.
    assert (Hn : (value nsi <= value nsj)%Q).
    { apply (rounds_to_mono _ _ _ _ Rni Rnj). nra. }
    apply (rounds_to_mono _ _ _ _ Roi Roj). nra.
  - assert (Hm : (value sm < 0)%Q) by nra.
    assert (Hn : (value nsj <= value nsi)%Q).
    { apply (rounds_to_mono _ _ _ _ Rnj Rni). nra. }
    apply (rounds_to_mono _ _ _ _ Roi Roj). nra.
Qed.

Lemma level_price_mono (side : TradeType) (price scalar sm : decimal) (i j : Z)
    (pi pj : decimal) :
  moderate price = true -> moderate scalar = true -> moderate sm = true ->
  (0 <= value price)%Q -> (0 < value scalar * value sm)%Q ->
  0 <= i -> i <= j -> j < 10 ^ 18 ->
  level_price side price scalar sm i = Ok pi ->
  level_price side price scalar sm j = Ok pj ->
  is_finite pi = true /\ is_finite pj = true /\
  match side with
  | BUY => (value pj <= value pi)%Q
  | SELL => (value pi <= value pj)%Q
  end.
Proof.
  intros Hp Hs Hm Hprice Hpos Hi0 Hij Hj18 Hi Hj.
  destruct (level_price_moderate side price scalar sm i Hp Hs Hm ltac:(lia))
    as (nsi & offi & fi & pi' & _ & _ & _ & _ & Hi' & _ & _ & _ & Fpi
        & Rni & Roi & Rfi & Rpi & _).
  destruct (level_price_moderate side price scalar sm j Hp Hs Hm ltac:(lia))
    as (nsj & offj & fj & pj' & _ & _ & _ & _ & Hj' & _ & _ & _ & Fpj
        & Rnj & Roj & Rfj & Rpj & _).
  rewrite Hi in Hi'. rewrite Hj in Hj'.
  apply Ok_inj in Hi', Hj'. subst pi' pj'.
  pose proof (level_offset_mono scalar sm i j nsi offi nsj offj Hpos Hij Rni Roi Rnj Roj)
    as Hoff.
  split; [assumption|]. split; [assumption|].
  destruct side.
  - assert (Hf : (value fj <= value fi)%Q)
      by (apply (rounds_to_mono _ _ _ _ Rfj Rfi); lra).
    apply (rounds_to_mono _ _ _ _ Rpj Rpi). nra.
  - assert (Hf : (value fi <= value fj)%Q)
      by (apply (rounds_to_mono _ _ _ _ Rfi Rfj); lra).
    apply (rounds_to_mono _ _ _ _ Rpi Rpj). nra.
Qed.

Lemma mul_positive_product (a b prod : decimal) :
  moderate a = true -> moderate b = true ->
  mul a b = Ok prod -> ltb (of_int 0) prod = true ->
  (0 < value a * value b)%Q.
Proof.
  intros Ha Hb Hmul Hlt.
  destruct (mul_within _ _ a b Ha Hb ltac:(lia)) as (r & Hr & Wr & Vr).
  rewrite Hmul in Hr. apply Ok_inj in Hr. subst r.
  apply value_pos_of_ltb in Hlt; [|exact (within_finite _ _ Wr)].
  destruct (Qlt_le_dec 0 (value a * value b)) as [H|H]; [assumption|].
  pose proof (rounds_to_nonpos _ _ Vr H). lra.
Qed.

(** A level's price is positive on the SELL side, and on the BUY side while
    the offset is below 1; its amount is then non-negative. *)
Lemma level_price_positive (side : TradeType) (price scalar sm : decimal) (n : Z)
    (ns offset p : decimal) :
  moderate price = true -> moderate scalar = true -> moderate sm = true ->
  (0 < value price)%Q -> (0 <= value scalar)%Q -> (0 <= value sm)%Q ->
  0 <= n < 10 ^ 18 ->
  mul (of_int n) scalar = Ok ns -> mul ns sm = Ok offset ->
  (side = SELL \/ (value offset < 1)%Q) ->
  level_price side price scalar sm n = Ok p ->
  within 300023 p = true /\ (0 < value p)%Q.
Proof.
  intros Hp Hs Hm Hprice Hsc Hsm Hn Hns Hoff Hcond Hlp.
  destruct (level_price_moderate side price scalar sm n Hp Hs Hm Hn)
    as (ns' & off' & f & p' & Hns' & Hoff' & _ & _ & Hlp' & _ & _ & _ & Fp
        & Rn & Ro & Rf & Rp & Wp).
  rewrite Hns in Hns'. apply Ok_inj in Hns'. subst ns'.
  rewrite Hoff in Hoff'. apply Ok_inj in Hoff'. subst off'.
  rewrite Hlp in Hlp'. apply Ok_inj in Hlp'. subst p'.
  split; [assumption|].
  destruct Hn as [Hn _].
  rewrite Zle_Qle in Hn. change (inject_Z 0) with 0%Q in Hn.
  assert (H1 : (0 <= value ns)%Q) by (apply (rounds_to_nonneg _ _ Rn); nra).
  assert (H2 : (0 <= value offset)%Q) by (apply (rounds_to_nonneg _ _ Ro); nra).
  assert (H3 : (0 < value f)%Q).
  { apply (rounds_to_pos _ _ Rf). destruct side.
    - destruct Hcond as [Hc|Hc]; [discriminate|lra].
    - lra. }
  apply (rounds_to_pos _ _ Rp). nra.
Qed.

Lemma level_amount_nonneg (amount pct price a : decimal) :
  moderate amount = true -> moderate pct = true -> within 300023 price = true ->
  (0 <= value amount)%Q -> (0 <= value pct)%Q -> (0 <= value price)%Q ->
  level_amount amount pct price = Ok a ->
  is_finite a = true /\ (0 <= value a)%Q.
Proof.
  intros Ha Hw Hp Va Vw Vp Hla.
  destruct (level_amount_moderate amount pct price Ha Hw Hp)
    as (ap & a' & _ & _ & Hla' & _ & Fa & Rap & Ra).
  rewrite Hla in Hla'. apply Ok_inj in Hla'. subst a'.
  split; [assumption|].
  assert (0 <= value ap)%Q by (apply (rounds_to_nonneg _ _ Rap); nra).
  apply (rounds_to_nonneg _ _ Ra). nra.
Qed.

(** ** The last row of the indicator columns *)

Lemma series_binop_length (f : float -> float -> float) (a b : Series) :
  List.length a = List.length b ->
  List.length (series_binop f a b) = List.length a.
Proof.
  revert b. induction a as [|x a' IH]; intros [|y b'] H; try discriminate.
  - reflexivity.
  - simpl in *. f_equal. apply IH. lia.
Qed.

Lemma iloc_last_map {A B : Type} (f : A -> B) (l : list A) :
  iloc_last (map f l) = (x <- iloc_last l ;; Ok (f x)).
Proof.
  induction l as [|a [|b t] IH]; try reflexivity.
  change (iloc_last (map f (a :: b :: t))) with (iloc_last (map f (b :: t))).
  exact IH.
Qed.

Lemma iloc_last_binop (f : float -> float -> float) (a b : Series) :
  List.length a = List.length b ->
  iloc_last (series_binop f a b)
  = (x <- iloc_last a ;; y <- iloc_last b ;; Ok (f x y)).
Proof.
  revert b. induction a as [|x a' IH]; intros [|y b'] Hlen; try discriminate.
  - reflexivity.
  - simpl in Hlen. injection Hlen as Hlen.
    destruct a' as [|x' a'']; destruct b' as [|y' b'']; try discriminate.
    + reflexivity.
    + specialize (IH (y' :: b'') Hlen). exact IH.
Qed.

Lemma iloc_last_nonempty {A : Type} (l : list A) :
  l <> [] -> exists x, iloc_last l = Ok x.
Proof.
  induction l as [|a [|b t] IH]; intros H.
  - contradiction.
  - exists a. reflexivity.
  - destruct IH as [x Hx]; [discriminate|]. exists x. exact Hx.
Qed.

Lemma iloc_last_raises {A : Type} (l : list A) (e : exn) :
  iloc_last l = Raise e -> e = IndexError.
Proof.
  induction l as [|a [|b t] IH]; simpl; intros H.
  - inversion H. reflexivity.
  - discriminate.
  - apply IH. exact H.
Qed.

Lemma iloc_last_In {A : Type} (l : list A) (x : A) : iloc_last l = Ok x -> In x l.
Proof.
  induction l as [|a [|b t] IH]; simpl; intros H.
  - discriminate.
  - inversion H. left. reflexivity.
  - right. apply IH. exact H.
Qed.

(** The price multiplier and the spread multiplier of a cycle are functions
    of the last row alone. *)
Lemma compute_processed_data_last (E : Externals) (self : Controller)
    (natr_pct : Series) (m : MacdOutput) (v x h : float) :
  cycle_natr E self = Some natr_pct ->
  cycle_macd E self = Some m ->
  List.length natr_pct = List.length (MACD m) ->
  List.length (MACDh m) = List.length (MACD m) ->
  iloc_last natr_pct = Ok v -> iloc_last (MACD m) = Ok x ->
  iloc_last (MACDh m) = Ok h ->
  compute_processed_data E self
  = (let natr := fdiv v (of_Z 100) in
     let momentum_z :=
       fdiv (fneg (fsub x (series_mean E (MACD m)))) (series_std E (MACD m)) in
     let blended :=
       fadd (fmul fhalf momentum_z) (fmul fhalf (of_Z (trend_direction h))) in
     let price_multiplier := to_decimal (fmul blended (fdiv natr (of_Z 2))) in
     shifted <- add (of_int 1) price_multiplier ;;
     rp <- mul (cycle_mid_price E self) shifted ;;
     Ok {| reference_price := rp; spread_multiplier := to_decimal natr |}).
Proof.
  intros Hn Hm L1 L2 Hv Hx Hh.
  unfold compute_processed_data. rewrite Hn, Hm.
  rewrite iloc_last_binop.
  2:{ rewrite series_binop_length, !length_map; [lia|]. rewrite !length_map. lia. }
  rewrite iloc_last_binop by (rewrite !length_map; lia).
  rewrite !iloc_last_map. rewrite Hx, Hh, Hv. reflexivity.
Qed.

(** ** Signs and special values of floats *)

Lemma shr_1_nonneg (mrs : shr_record) : 0 <= shr_m mrs -> 0 <= shr_m (shr_1 mrs).
Proof.
  destruct mrs as [m r s]. simpl. destruct m as [|p|p]; intros H.
  - simpl. lia.
  - destruct p; simpl; lia.
  - lia.
Qed.

Lemma iter_pos_shr_1_nonneg (p : positive) :
  forall mrs, 0 <= shr_m mrs -> 0 <= shr_m (iter_pos shr_1 p mrs).
Proof.
  induction p as [p IH|p IH|]; intros mrs H; simpl.
  - apply IH, IH, shr_1_nonneg, H.
  - apply IH, IH, H.
  - apply shr_1_nonneg, H.
Qed.

Lemma shr_fexp_nonneg (m e : Z) (l : location) :
  0 <= m -> 0 <= shr_m (fst (shr_fexp 53 1024 m e l)).
Proof.
  intros H. unfold shr_fexp, shr.
  assert (H0 : 0 <= shr_m (shr_record_of_loc m l))
    by (destruct l as [|[| |]]; exact H).
  destruct (fexp 53 1024 (Zdigits2 m + e) - e) as [|p|p]; simpl; try exact H0.
  apply iter_pos_shr_1_nonneg, H0.
Qed.

Lemma round_nearest_even_nonneg (m : Z) (l : location) :
  0 <= m -> 0 <= round_nearest_even m l.
Proof.
  intros H. destruct l as [|[| |]]; simpl; try lia.
  destruct (Z.even m); lia.
Qed.

(** Rounding a non-negative mantissa yields a zero, a finite number or an
    infinity, with the sign it was given. *)
Lemma binary_round_aux_sign (s : bool) (m e : Z) (l : location) :
  0 <= m -> has_sign s (binary_round_aux 53 1024 s m e l) = true.
Proof.
  intros H. unfold binary_round_aux.
  pose proof (shr_fexp_nonneg m e l H) as H1.
  destruct (shr_fexp 53 1024 m e l) as [mrs' e'].
  cbn [fst] in H1.
  pose proof (shr_fexp_nonneg _ e' loc_Exact
                (round_nearest_even_nonneg _ (loc_of_shr_record mrs') H1)) as H2.
  destruct (shr_fexp 53 1024 _ e' loc_Exact) as [mrs'' e''].
  cbn [fst] in H2.
  destruct (shr_m mrs'') as [|p|p].
  - simpl. apply eqb_reflx.
  - destruct (e'' <=? 1024 - 53); simpl; apply eqb_reflx.
  - lia.
Qed.

Lemma fdiv_finite_sign (sx : bool) (mx : positive) (ex : Z)
    (sy : bool) (my : positive) (ey : Z) :
  has_sign (xorb sx sy) (fdiv (S754_finite sx mx ex) (S754_finite sy my ey)) = true.
Proof.
  unfold fdiv, SFdiv, SFdiv_core_binary.
  set (m' := match _ - _ - _ with Z0 => Zpos mx | Zpos _ => Z.shiftl (Zpos mx) _ | Zneg _ => 0 end).
  assert (Hm' : 0 <= m').
  { unfold m'. destruct (_ - _ - _); try lia. apply Z.shiftl_nonneg. lia. }
  pose proof (Z_div_mod m' (Zpos my) ltac:(lia)) as Hdm.
  destruct (Z.div_eucl m' (Zpos my)) as [q r].
  apply binary_round_aux_sign. nia.
Qed.

(** Dividing by a positive finite float keeps the sign. *)
Lemma fdiv_positive_sign (s : bool) (x : float) (my : positive) (ey : Z) :
  has_sign s x = true -> has_sign s (fdiv x (S754_finite false my ey)) = true.
Proof.
  destruct x as [sx|sx| |sx mx ex]; intros H; try discriminate.
  - simpl in *. rewrite xorb_false_r. exact H.
  - simpl in *. rewrite xorb_false_r. exact H.
  - simpl in H. apply eqb_prop in H. subst s.
    pose proof (fdiv_finite_sign sx mx ex false my ey) as Hs.
    rewrite xorb_false_r in Hs. exact Hs.
Qed.

Lemma of_Z_100 : of_Z 100 = S754_finite false 7036874417766400 (-46).
Proof. reflexivity. Qed.


Lemma fleb_zero_sign (x : float) :
  fleb fzero x = true -> has_sign false x = true \/ x = S754_zero true.
Proof.
  destruct x as [[|]|[|]| |[|] m e]; simpl; intros H; try discriminate; auto.
Qed.

Lemma fltb_zero_sign (x : float) : fltb x fzero = true -> has_sign true x = true.
Proof.
  destruct x as [[|]|[|]| |[|] m e]; simpl; intros H; try discriminate; auto.
Qed.

(** The decimal of a signed float has the float's sign, or is a zero. *)
Lemma to_decimal_nonneg (x : float) :
  has_sign false x = true \/ x = S754_zero true ->
  leb (of_int 0) (to_decimal x) = true.
Proof.
  intros [H| ->]; [|reflexivity].
  destruct x as [sx|sx| |sx m e]; try discriminate;
    simpl in H; apply eqb_prop in H; subst sx; try reflexivity.
  unfold to_decimal.
  assert (Hc : forall c e', leb (of_int 0) (Fin false c e') = true).
  { intros c e'. unfold leb, compare, cmp_fin, of_int. simpl signed.
    rewrite Z.mul_0_l.
    pose proof (DecFacts.pow10_pos (e' - Z.min 0 e') ltac:(lia)).
    destruct (Z.compare_spec 0 (Z.of_N c * 10 ^ (e' - Z.min 0 e'))); try reflexivity.
    nia. }
  destruct (0 <=? e); apply Hc.
Qed.

Lemma to_decimal_nonpos (x : float) :
  has_sign true x = true -> leb (to_decimal x) (of_int 0) = true.
Proof.
  intros H.
  destruct x as [sx|sx| |sx m e]; try discriminate;
    simpl in H; apply eqb_prop in H; subst sx; try reflexivity.
  unfold to_decimal.
  assert (Hc : forall c e', leb (Fin true c e') (of_int 0) = true).
  { intros c e'. unfold leb, compare, cmp_fin, of_int. simpl signed.
    rewrite Z.mul_0_l.
    pose proof (DecFacts.pow10_pos (e' - Z.min e' 0) ltac:(lia)).
    destruct (Z.compare_spec (- Z.of_N c * 10 ^ (e' - Z.min e' 0)) 0); try reflexivity.
    nia. }
  destruct (0 <=? e); apply Hc.
Qed.

Lemma to_decimal_special (x : float) :
  is_special x = true -> is_finite (to_decimal x) = false.
Proof. destruct x; simpl; intros H; try discriminate; reflexivity. Qed.

(** Division by a zero gives a NaN or an infinity. *)
Lemma fdiv_by_zero (x : float) (s : bool) : is_special (fdiv x (S754_zero s)) = true.
Proof. destruct x; reflexivity. Qed.

Lemma fmul_half_special (x : float) :
  is_special x = true -> is_special (fmul fhalf x) = true.
Proof. destruct x; simpl; intros H; try discriminate; reflexivity. Qed.

Lemma fadd_special_half (x : float) (d : Z) :
  is_special x = true -> d = 1 \/ d = -1 ->
  is_special (fadd x (fmul fhalf (of_Z d))) = true.
Proof.
  intros H [-> | ->]; destruct x as [| s | |]; try discriminate;
    vm_compute; reflexivity.
Qed.

Lemma fmul_special_l (x y : float) :
  is_special x = true -> is_special (fmul x y) = true.
Proof.
  destruct x as [| sx | |]; intros H; try discriminate;
    destruct y; reflexivity.
Qed.

Lemma trend_direction_unit (h : float) : trend_direction h = 1 \/ trend_direction h = -1.
Proof. unfold trend_direction. destruct (fltb fzero h); auto. Qed.

(** ** The exceptions a call can end in *)

Lemma fix_raises (s : bool) (c e : Z) (x : exn) : fix_ s c e = Raise x -> x = Overflow.
Proof.
  unfold fix_. destruct (c =? 0); [discriminate|]. cbv zeta.
  destruct (_ >? Etop); [intros H; inversion H; reflexivity|].
  destruct (e <? _); [|discriminate].
  destruct (_ >? prec); [|discriminate].
  destruct (_ >? Etop); [intros H; inversion H; reflexivity|discriminate].
Qed.

Lemma mul_raises (a b : decimal) (e : exn) :
  mul a b = Raise e -> e = InvalidOperation \/ e = Overflow.
Proof.
  destruct a as [sa ca ea|sa|], b as [sb cb eb|sb|]; simpl; try discriminate.
  - intros H. right. exact (fix_raises _ _ _ _ H).
  - destruct (N.eqb ca 0); [|discriminate]. intros H; inversion H; auto.
  - destruct (N.eqb cb 0); [|discriminate]. intros H; inversion H; auto.
Qed.

Lemma add_raises (a b : decimal) (e : exn) :
  add a b = Raise e -> e = InvalidOperation \/ e = Overflow.
Proof.
  destruct a as [sa ca ea|sa|], b as [sb cb eb|sb|]; simpl; try discriminate.
  - intros H. right. exact (fix_raises _ _ _ _ H).
  - destruct (Bool.eqb sa sb); [discriminate|]. intros H; inversion H; auto.
Qed.

Lemma sub_raises (a b : decimal) (e : exn) :
  sub a b = Raise e -> e = InvalidOperation \/ e = Overflow.
Proof. unfold sub. apply add_raises. Qed.

Lemma div_raises (a b : decimal) (e : exn) :
  div a b = Raise e -> e = InvalidOperation \/ e = DivisionByZero \/ e = Overflow.
Proof.
  destruct a as [sa ca ea|sa|], b as [sb cb eb|sb|]; simpl; try discriminate.
  - destruct (N.eqb cb 0).
    + destruct (N.eqb ca 0); intros H; inversion H; auto.
    + destruct (N.eqb ca 0).
      * intros H. right. right. exact (fix_raises _ _ _ _ H).
      * match goal with |- context [if ?c then _ else _] => destruct c end.
        -- destruct (strip_zeros _ _ _ _).
           intros H. right. right. exact (fix_raises _ _ _ _ H).
        -- intros H. right. right. exact (fix_raises _ _ _ _ H).
  - intros H; inversion H; auto.
Qed.

Lemma bind_raises {A B : Type} (P : exn -> Prop) (r : result A) (f : A -> result B)
    (e : exn) :
  (forall e', r = Raise e' -> P e') ->
  (forall a e', r = Ok a -> f a = Raise e' -> P e') ->
  bind r f = Raise e -> P e.
Proof.
  intros Hr Hf. destruct r as [a|e']; simpl; intros H.
  - apply (Hf a e eq_refl H).
  - inversion H; subst. apply Hr. reflexivity.
Qed.

Lemma level_price_raises (side : TradeType) (price scalar sm : decimal) (n : Z) (e : exn) :
  level_price side price scalar sm n = Raise e -> e = InvalidOperation \/ e = Overflow.
Proof.
  unfold level_price. intros H.
  apply (bind_raises (fun e => e = InvalidOperation \/ e = Overflow)) in H; [exact H| |].
  - intros e'. apply mul_raises.
  - intros ns e' _ H1.
    apply (bind_raises (fun e => e = InvalidOperation \/ e = Overflow)) in H1;
      [exact H1| |].
    + intros e''. apply mul_raises.
    + intros off e'' _ H2.
      apply (bind_raises (fun e => e = InvalidOperation \/ e = Overflow)) in H2;
        [exact H2| |].
      * intros e3. destruct side; [apply sub_raises|apply add_raises].
      * intros f e3 _. apply mul_raises.
Qed.

Lemma level_amount_raises (amount pct price : decimal) (e : exn) :
  level_amount amount pct price = Raise e -> e = InvalidOperation \/ e = Overflow.
Proof.
  unfold level_amount. intros H.
  apply (bind_raises (fun e => e = InvalidOperation \/ e = Overflow)) in H; [exact H| |].
  - intros e'. apply mul_raises.
  - intros ap e' _. apply mul_raises.
Qed.

Lemma get_executor_config_raises (E : Externals) (now : float) (level_id : string)
    (price amount : decimal) (self : Controller) (e : exn) :
  fst (get_executor_config E now level_id price amount self) = Raise e ->
  e = KeyError \/ e = InvalidOperation \/ e = Overflow.
Proof.
  unfold get_executor_config. cbn [fst].
  destruct (processed_data self) as [pd|]; [|intros H; inversion H; auto].
  intros H. right.
  apply (bind_raises (fun e => e = InvalidOperation \/ e = Overflow)) in H; [exact H| |].
  - intros e'. apply (mapM_raises (fun e => e = InvalidOperation \/ e = Overflow)).
    intros n e''. apply level_price_raises.
  - intros prices e' _ H1.
    apply (bind_raises (fun e => e = InvalidOperation \/ e = Overflow)) in H1;
      [exact H1| |].
    + intros e''. apply (mapM_raises (fun e => e = InvalidOperation \/ e = Overflow)).
      intros [w p] e3. apply level_amount_raises.
    + intros amounts e'' _ H2. discriminate.
Qed.

Lemma geometric_from_raises (n : nat) :
  forall (term ratio : decimal) (e : exn),
    geometric_from n term ratio = Raise e -> e = InvalidOperation \/ e = Overflow.
Proof.
  induction n as [|n IH]; intros term ratio e; [discriminate|].
  cbn [geometric_from]. destruct n as [|n']; [discriminate|].
  intros H.
  apply (bind_raises (fun e => e = InvalidOperation \/ e = Overflow)) in H; [exact H| |].
  - intros e'. apply mul_raises.
  - intros next e' _ H1.
    apply (bind_raises (fun e => e = InvalidOperation \/ e = Overflow)) in H1;
      [exact H1| |].
    + intros e''. apply IH.
    + intros rest e'' _ H2. discriminate.
Qed.

Lemma sum_from_raises (l : list decimal) :
  forall (acc : decimal) (e : exn),
    sum_from acc l = Raise e -> e = InvalidOperation \/ e = Overflow.
Proof.
  induction l as [|x t IH]; intros acc e; simpl; [discriminate|].
  intros H.
  apply (bind_raises (fun e => e = InvalidOperation \/ e = Overflow)) in H; [exact H| |].
  - intros e'. apply add_raises.
  - intros acc' e' _. apply IH.
Qed.

Lemma normalize_raises (l : list decimal) (e : exn) :
  normalize l = Raise e -> e = InvalidOperation \/ e = DivisionByZero \/ e = Overflow.
Proof.
  unfold normalize.
  apply (mapM_raises
           (fun e => e = InvalidOperation \/ e = DivisionByZero \/ e = Overflow)).
  intros amount e' H.
  apply (bind_raises
           (fun e => e = InvalidOperation \/ e = DivisionByZero \/ e = Overflow)) in H;
    [exact H| |].
  - intros e'' H1. destruct (sum_from_raises _ _ _ H1); auto.
  - intros total e'' _. apply div_raises.
Qed.

Lemma init_raises (c : Config) (e : exn) :
  init c = Raise e -> e = InvalidOperation \/ e = DivisionByZero \/ e = Overflow.
Proof.
  unfold init. intros H.
  apply (bind_raises
           (fun e => e = InvalidOperation \/ e = DivisionByZero \/ e = Overflow)) in H;
    [exact H| |].
  - intros e' H1. destruct (geometric_from_raises _ _ _ _ H1); auto.
  - intros amounts e' _ H1.
    apply (bind_raises
             (fun e => e = InvalidOperation \/ e = DivisionByZero \/ e = Overflow)) in H1;
      [exact H1| |].
    + intros e''. apply normalize_raises.
    + intros pct e'' _ H2. discriminate.
Qed.

Lemma compute_processed_data_raises (E : Externals) (self : Controller) (e : exn) :
  compute_processed_data E self = Raise e ->
  e = TypeError \/ e = IndexError \/ e = InvalidOperation \/ e = Overflow.
Proof.
  unfold compute_processed_data.
  destruct (cycle_natr E self) as [natr_pct|]; [|intros H; inversion H; auto].
  destruct (cycle_macd E self) as [m|]; [|intros H; inversion H; auto].
  intros H. right.
  apply (bind_raises (fun e => e = IndexError \/ e = InvalidOperation \/ e = Overflow))
    in H; [exact H| |].
  - intros e' H1. left. apply (iloc_last_raises _ _ H1).
  - intros pm e' _ H1.
    apply (bind_raises (fun e => e = IndexError \/ e = InvalidOperation \/ e = Overflow))
      in H1; [exact H1| |].
    + intros e'' H2. left. apply (iloc_last_raises _ _ H2).
    + intros sm e'' _ H2. right.
      apply (bind_raises (fun e => e = InvalidOperation \/ e = Overflow)) in H2;
        [exact H2| |].
      * intros e3. apply add_raises.
      * intros shifted e3 _ H3.
        apply (bind_raises (fun e => e = InvalidOperation \/ e = Overflow)) in H3;
          [exact H3| |].
        -- intros e4. apply mul_raises.
        -- intros rp e4 _ H4. discriminate.
Qed.

Lemma update_processed_data_raises (E : Externals) (self : Controller) (e : exn) :
  fst (update_processed_data E self) = Raise e ->
  e = TypeError \/ e = IndexError \/ e = InvalidOperation \/ e = Overflow.
Proof.
  unfold update_processed_data.
  destruct (compute_processed_data E self) as [pd|e'] eqn:Hc; simpl; [discriminate|].
  intros H. inversion H; subst. apply (compute_processed_data_raises _ _ _ Hc).
Qed.

(** ** The weights: a normalised geometric progression *)

Lemma ctz_pow2_le (m : positive) : 2 ^ ctz m <= Zpos m.
Proof.
  induction m as [m IH|m IH|]; cbn [ctz]; try (change (2 ^ 0) with 1; lia).
  assert (0 <= ctz m) by (clear; induction m; cbn [ctz]; lia).
  replace (1 + ctz m) with (ctz m + 1) by lia.
  rewrite Z.pow_add_r by lia. change (2 ^ 1) with 2. lia.
Qed.

Lemma ctz_nonneg (m : positive) : 0 <= ctz m.
Proof. induction m; cbn [ctz]; lia. Qed.

Lemma Fin_positive (c : N) (e : Z) : (0 < c)%N -> positive_finite (Fin false c e).
Proof.
  intros Hc. split; [reflexivity|]. simpl.
  apply Qmult_lt_0_compat; [|apply Qpow10_pos].
  apply inject_Z_pos. lia.
Qed.

(** [Decimal(f)] of a positive finite float is positive and finite. *)
Lemma to_decimal_positive (m : positive) (e : Z) :
  positive_finite (to_decimal (S754_finite false m e)).
Proof.
  unfold to_decimal. destruct (Z.leb_spec 0 e) as [He|He].
  - apply Fin_positive.
    assert (0 < 2 ^ e) by (apply Z.pow_pos_nonneg; lia). nia.
  - apply Fin_positive.
    pose proof (ctz_pow2_le m) as Hm. pose proof (ctz_nonneg m) as Hc.
    set (t := Z.min (- e) (ctz m)).
    assert (Ht : 2 ^ t <= 2 ^ ctz m) by (apply Z.pow_le_mono_r; unfold t; lia).
    assert (0 < 2 ^ t) by (apply Z.pow_pos_nonneg; unfold t; lia).
    assert (1 <= Zpos m / 2 ^ t) by (apply Z.div_le_lower_bound; lia).
    assert (0 < 5 ^ (- e - t)) by (apply Z.pow_pos_nonneg; unfold t; lia).
    nia.
Qed.

Lemma digits2_pos_bound (m : positive) : Zpos m < 2 ^ Zpos (digits2_pos m).
Proof.
  induction m as [m IH|m IH|]; cbn [digits2_pos]; [| |reflexivity];
    rewrite Pos2Z.inj_succ, Z.pow_succ_r by lia; lia.
Qed.

(** A finite binary64 number has at most 53 mantissa bits and an exponent
    between -1074 and 971. *)
Lemma valid_binary64 (s : bool) (m : positive) (e : Z) :
  valid_binary 53 1024 (S754_finite s m e) = true ->
  -1074 <= e <= 971 /\ Zpos m < 2 ^ 53.
Proof.
  unfold valid_binary, bounded, canonical_mantissa, fexp, SpecFloat.emin.
  intros H. apply andb_true_iff in H. destruct H as [Hc He].
  apply Z.eqb_eq in Hc. apply Z.leb_le in He.
  pose proof (digits2_pos_bound m) as Hd.
  assert (Zpos (digits2_pos m) <= 53) by lia.
  assert (2 ^ Zpos (digits2_pos m) <= 2 ^ 53) by (apply Z.pow_le_mono_r; lia).
  lia.
Qed.

(** [Decimal(f)] of a finite float is far from the exponent limits of the
    context. *)
Lemma to_decimal_within (s : bool) (m : positive) (e : Z) :
  valid_binary 53 1024 (S754_finite s m e) = true ->
  within 1074 (to_decimal (S754_finite s m e)) = true.
Proof.
  intros Hv. destruct (valid_binary64 s m e Hv) as [He Hm].
  assert (H53 : 2 ^ 53 < 10 ^ 16) by reflexivity.
  unfold to_decimal. destruct (Z.leb_spec 0 e) as [H0|H0]; apply within_Fin.
  - assert (0 < 2 ^ e) by (apply Z.pow_pos_nonneg; lia).
    rewrite Z2N.id by lia.
    assert (Hp : 2 ^ e <= 2 ^ 971) by (apply Z.pow_le_mono_r; lia).
    assert (Hb : Zpos m * 2 ^ e < 2 ^ 53 * 2 ^ 971).
    { apply Z.lt_le_trans with (2 ^ 53 * 2 ^ e).
      - apply Z.mul_lt_mono_pos_r; lia.
      - apply Z.mul_le_mono_nonneg_l; lia. }
    assert (Hc : 2 ^ 53 * 2 ^ 971 < 10 ^ 309) by reflexivity.
    pose proof (ndigits_le (Zpos m * 2 ^ e) 309 ltac:(lia) ltac:(lia)). lia.
  - pose proof (ctz_nonneg m) as Hc.
    set (t := Z.min (- e) (ctz m)).
    set (k := - e - t).
    assert (Hk : 0 <= k <= 1074) by (unfold k, t; lia).
    assert (Ht : 0 < 2 ^ t) by (apply Z.pow_pos_nonneg; unfold t; lia).
    assert (Hq : 0 <= Zpos m / 2 ^ t <= Zpos m).
    { split; [apply Z.div_pos; lia|].
      apply Z.div_le_upper_bound; [lia|]. nia. }
    assert (H5 : 0 < 5 ^ k <= 10 ^ k).
    { split; [apply Z.pow_pos_nonneg; lia|apply Z.pow_le_mono_l; lia]. }
    rewrite Z2N.id by nia.
    assert (Hb : Zpos m / 2 ^ t * 5 ^ k < 10 ^ (16 + k)).
    { rewrite pow10_add by lia.
      apply Z.le_lt_trans with (Zpos m * 10 ^ k).
      - apply Z.mul_le_mono_nonneg; lia.
      - apply Z.mul_lt_mono_pos_r; lia. }
    pose proof (ndigits_le _ (16 + k) ltac:(lia) Hb). lia.
Qed.

Lemma mul_positive (A B : Z) (a b : decimal) :
  within A a = true -> within B b = true -> A + B <= 999990 ->
  (0 < value a)%Q -> (0 < value b)%Q ->
  exists r, mul a b = Ok r /\ within (A + B + 1) r = true /\ (0 < value r)%Q.
Proof.
  intros Wa Wb HAB Va Vb.
  destruct (mul_within A B a b Wa Wb HAB) as (r & Hr & Wr & Vr).
  exists r. split; [exact Hr|]. split; [exact Wr|].
  apply (rounds_to_pos _ _ Vr). nra.
Qed.

(** The progression of [n] terms from [term]: each term is the rounded
    product of its predecessor and the ratio, positive, and no further
    from the exponent limits than [n] products allow. *)
Lemma geometric_from_positive (R : Z) (n : nat) :
  forall (term ratio : decimal) (T : Z),
    within T term = true -> within R ratio = true ->
    (0 < value term)%Q -> (0 < value ratio)%Q ->
    T + Z.of_nat n * (R + 1) <= 999990 ->
    exists terms,
      geometric_from n term ratio = Ok terms /\
      List.length terms = n /\
      Forall (fun d => within (T + Z.of_nat n * (R + 1)) d = true /\ (0 < value d)%Q)
             terms /\
      progression ratio terms /\
      (n <> 0%nat -> hd_error terms = Some term).
Proof.
  induction n as [|n IH]; intros term ratio T Wt Wr Vt Vr Hb.
  - exists []. repeat split; try constructor. intros H; contradiction.
  - assert (HR : 0 <= R).
    { destruct ratio as [sr cr er| |]; try discriminate.
      apply within_Fin in Wr. pose proof (ndigits_ge1 (Z.of_N cr)). lia. }
    assert (Wt' : within (T + Z.of_nat (S n) * (R + 1)) term = true)
      by (apply (within_weaken _ _ _ Wt); nia).
    cbn [geometric_from]. destruct n as [|n'].
    + exists [term]. repeat split; try (constructor; [split; assumption|constructor]).
    + destruct (mul_positive T R term ratio Wt Wr ltac:(nia) Vt Vr)
        as (next & Hnext & Wnext & Vnext).
      destruct (IH next ratio (T + R + 1) Wnext Wr Vnext Vr ltac:(nia))
        as (rest & Hrest & Lrest & Prest & Grest & Hhd).
      rewrite Hnext. cbn [bind]. rewrite Hrest. cbn [bind].
      exists (term :: rest). split; [reflexivity|].
      split; [simpl; lia|]. split.
      { constructor; [split; assumption|].
        eapply Forall_impl; [|exact Prest].
        intros d [Wd Vd]. split; [|exact Vd].
        apply (within_weaken _ _ _ Wd). nia. }
      split; [|reflexivity].
      specialize (Hhd ltac:(discriminate)).
      destruct rest as [|b rest']; [discriminate|].
      simpl in Hhd. inversion Hhd; subst b.
      split; [exact Hnext|exact Grest].
Qed.

Lemma sum_values_nonneg (K : Z) (l : list decimal) :
  Forall (fun d => within K d = true /\ (0 <= value d)%Q) l -> (0 <= sum_values l)%Q.
Proof.
  induction 1 as [|d t [_ Hd] _ IH]; simpl; lra.
Qed.

Lemma sum_step_lower (A St V' Vs k u : Q) :
  (0 <= A -> 0 <= St -> 0 <= k -> 0 <= u -> (k + 1) * u <= 1 ->
   (1 - u) * A <= V' ->
   (V' + St) * (1 - k * u) <= Vs ->
   (A + St) * (1 - (k + 1) * u) <= Vs)%Q.
Proof.
  intros HA HS Hk Hu Hku H1 H2.
  assert (Hk1 : (0 <= 1 - k * u)%Q) by nra.
  assert (H3 : (((1 - u) * A + St) * (1 - k * u) <= (V' + St) * (1 - k * u))%Q).
  { apply Qmult_le_compat_r; lra. }
  assert (H4 : (0 <= k * u * u * (A + St))%Q).
  { repeat apply Qmult_le_0_compat; lra. }
  assert (H5 : (0 <= u * St * (1 - k * u))%Q).
  { repeat apply Qmult_le_0_compat; lra. }
  nra.
Qed.

Lemma sum_step_upper (A St V' Vs k u : Q) :
  (0 <= A -> 0 <= St -> 0 <= k -> 0 <= u -> 2 * (k + 1) * u <= 1 ->
   V' <= (1 + u) * A ->
   Vs <= (V' + St) * (1 + 2 * k * u) ->
   Vs <= (A + St) * (1 + 2 * (k + 1) * u))%Q.
Proof.
  intros HA HS Hk Hu Hku H1 H2.
  assert (Hk1 : (0 <= 1 + 2 * k * u)%Q) by nra.
  assert (H3 : ((V' + St) * (1 + 2 * k * u) <= ((1 + u) * A + St) * (1 + 2 * k * u))%Q).
  { apply Qmult_le_compat_r; lra. }
  assert (H4 : (0 <= (1 - 2 * k * u) * (u * A))%Q).
  { apply Qmult_le_0_compat; [nra|]. apply Qmult_le_0_compat; lra. }
  assert (H5 : (0 <= u * St)%Q).
  { apply Qmult_le_0_compat; lra. }
  nra.
Qed.

Lemma qlen_cons {A : Type} (x : A) (t : list A) : (qlen (x :: t) == qlen t + 1)%Q.
Proof.
  cbn [List.length]. rewrite Nat2Z.inj_succ. unfold Z.succ.
  rewrite inject_Z_plus. reflexivity.
Qed.

Lemma qlen_nonneg {A : Type} (l : list A) : (0 <= qlen l)%Q.
Proof. change 0%Q with (inject_Z 0). rewrite <- Zle_Qle. lia. Qed.

(** Rounding moves a non-negative number by at most a factor [1 +- u]. *)
Lemma rounds_to_relative (x r : Q) :
  (rounds_to x r -> 0 <= x ->
   (1 - half_ulp) * x <= r /\ r <= (1 + half_ulp) * x)%Q.
Proof.
  intros H Hx. pose proof (rounds_to_error x r H) as He.
  rewrite (Qabs_pos x) in He by assumption.
  apply Qabs_Qle_condition in He. lra.
Qed.

(** The builtin [sum] over non-negative decimals away from the exponent
    limits raises nothing, and its error grows at most linearly with the
    number of terms. *)
Lemma sum_from_bounds (K : Z) (l : list decimal) :
  forall (acc : decimal) (c : Z),
    0 <= c -> within (K + c) acc = true -> (0 <= value acc)%Q ->
    Forall (fun d => within K d = true /\ (0 <= value d)%Q) l ->
    K + c + 2 * Z.of_nat (List.length l) <= 999990 ->
    (2 * qlen l * half_ulp <= 1)%Q ->
    exists s,
      sum_from acc l = Ok s /\
      within (K + c + 2 * Z.of_nat (List.length l)) s = true /\
      ((value acc + sum_values l) * (1 - qlen l * half_ulp) <= value s /\
       value s <= (value acc + sum_values l) * (1 + 2 * qlen l * half_ulp))%Q.
Proof.
  induction l as [|x t IH]; intros acc c Hc Wa Va Hl Hb Hn.
  - exists acc. split; [reflexivity|].
    split; [apply (within_weaken _ _ _ Wa); simpl; lia|].
    cbn [sum_values fold_right List.length].
    change (inject_Z (Z.of_nat 0)) with 0%Q. lra.
  - inversion Hl as [|x' t' [Wx Vx] Ht]; subst.
    assert (HL : Z.of_nat (List.length (x :: t)) = Z.of_nat (List.length t) + 1)
      by (cbn [List.length]; lia).
    destruct (add_within (K + c) K acc x Wa Wx ltac:(lia)) as (acc' & Hadd & Wa' & Ra').
    rewrite Z.max_l in Wa' by lia.
    destruct (rounds_to_relative _ _ Ra' ltac:(lra)) as [Rlo Rhi].
    pose proof (qlen_nonneg t) as Hk.
    rewrite qlen_cons in Hn.
    destruct half_ulp_small as [Hu0 Hu1].
    destruct (IH acc' (c + 2) ltac:(lia)
                ltac:(apply (within_weaken _ _ _ Wa'); lia) ltac:(nra) Ht
                ltac:(lia) ltac:(nra)) as (s & Hs & Ws & Slo & Shi).
    exists s. cbn [sum_from]. rewrite Hadd. cbn [bind].
    split; [exact Hs|]. split; [apply (within_weaken _ _ _ Ws); lia|].
    pose proof (sum_values_nonneg K t Ht) as HSt.
    rewrite qlen_cons. cbn [sum_values fold_right]. fold (sum_values t).
    split.
    + setoid_replace (value acc + (value x + sum_values t))%Q
        with ((value acc + value x) + sum_values t)%Q by ring.
      apply (sum_step_lower _ _ (value acc') _ _ half_ulp); try lra; nra.
    + setoid_replace (value acc + (value x + sum_values t))%Q
        with ((value acc + value x) + sum_values t)%Q by ring.
      apply (sum_step_upper _ _ (value acc') _ _ half_ulp); try lra.
Qed.

Lemma positive_not_zero (d : decimal) : (0 < value d)%Q -> is_zero d = false.
Proof.
  intros Vd. destruct d as [s c e| |]; try reflexivity.
  simpl. destruct (N.eqb_spec c 0) as [->|]; [|reflexivity].
  assert (E : (value (Fin s 0 e) == 0)%Q).
  { destruct s; cbn [value signed Z.of_N Z.opp];
      change (inject_Z 0) with 0%Q; ring. }
  rewrite E in Vd. lra.
Qed.

Lemma positive_nonneg (K : Z) (l : list decimal) :
  Forall (fun d => within K d = true /\ (0 < value d)%Q) l ->
  Forall (fun d => within K d = true /\ (0 <= value d)%Q) l.
Proof.
  intros H. eapply Forall_impl; [|exact H].
  intros d [Fd Vd]. split; [exact Fd|lra].
Qed.

(** A quotient of positive decimals is within a factor [1 +- u] of the
    exact quotient. *)
Lemma div_relative (A B : Z) (a t : decimal) :
  within A a = true -> within B t = true -> A + B + 28 <= 999990 ->
  (0 < value a)%Q -> (0 < value t)%Q ->
  exists w,
    div a t = Ok w /\ within (A + B + 29) w = true /\ (0 < value w)%Q /\
    ((1 - half_ulp) * value a <= value w * value t /\
     value w * value t <= (1 + half_ulp) * value a)%Q.
Proof.
  intros Wa Wt HAB Va Vt.
  destruct (div_within A B a t Wa Wt (positive_not_zero t Vt) HAB)
    as (w & Hw & Ww & Ew).
  exists w. split; [exact Hw|]. split; [exact Ww|].
  set (X := (value a / value t)%Q) in *.
  assert (HX : (X * value t == value a)%Q) by (unfold X; field; lra).
  assert (HXpos : (0 < X)%Q) by (unfold X; apply Qlt_shift_div_l; lra).
  clearbody X.
  rewrite (Qabs_pos X) in Ew by lra.
  apply Qabs_Qle_condition in Ew.
  destruct half_ulp_small as [Hu0 Hu1].
  assert (Hlo : ((1 - half_ulp) * X <= value w)%Q) by lra.
  assert (Hhi : (value w <= (1 + half_ulp) * X)%Q) by lra.
  assert (H1 : ((1 - half_ulp) * X * value t <= value w * value t)%Q)
    by (apply Qmult_le_compat_r; lra).
  assert (H2 : (value w * value t <= (1 + half_ulp) * X * value t)%Q)
    by (apply Qmult_le_compat_r; lra).
  split; [nra|].
  split; nra.
Qed.

Lemma normalize_bounds (A B : Z) (all : list decimal) (total : decimal)
    (l : list decimal) :
  py_sum all = Ok total -> within B total = true -> (0 < value total)%Q ->
  A + B + 28 <= 999990 ->
  Forall (fun d => within A d = true /\ (0 < value d)%Q) l ->
  exists ws,
    mapM (fun amount => total' <- py_sum all ;; div amount total') l = Ok ws /\
    Forall2 (fun a w => div a total = Ok w /\ within (A + B + 29) w = true /\
                        (0 < value w)%Q) l ws /\
    ((1 - half_ulp) * sum_values l <= sum_values ws * value total /\
     sum_values ws * value total <= (1 + half_ulp) * sum_values l)%Q.
Proof.
  intros Hsum Wtotal Vtotal HAB.
  set (f := fun amount => total' <- py_sum all ;; div amount total').
  assert (Hf : forall a, f a = div a total)
    by (intros a; unfold f; rewrite Hsum; reflexivity).
  induction 1 as [|a t [Wa Va] Pt IH].
  - exists []. split; [reflexivity|]. split; [constructor|]. simpl. lra.
  - destruct IH as (ws & Hws & F2 & Blo & Bhi).
    destruct (div_relative A B a total Wa Wtotal HAB Va Vtotal)
      as (w & Hw & Ww & Vw & Wlo & Whi).
    exists (w :: ws). cbn [mapM]. rewrite Hf, Hw. cbn [bind].
    rewrite Hws. cbn [bind].
    split; [reflexivity|].
    split; [constructor; [repeat split; assumption|exact F2]|].
    cbn [sum_values fold_right]. fold (sum_values t). fold (sum_values ws).
    split; nra.
Qed.

Lemma sum_values_positive (K : Z) (l : list decimal) :
  Forall (fun d => within K d = true /\ (0 < value d)%Q) l -> l <> [] ->
  (0 < sum_values l)%Q.
Proof.
  intros H Hne. destruct H as [|a t [_ Va] Ht]; [contradiction|].
  pose proof (sum_values_nonneg K t (positive_nonneg K t Ht)).
  simpl. fold (sum_values t). lra.
Qed.

(** From the two relative error bounds to the distance of the sum of the
    weights from 1. *)
Lemma normalized_sum_close (W S T N u : Q) :
  (0 < S -> 0 <= W -> 0 <= N -> N <= 5 # 100000000000 ->
   0 < u -> u <= 5 # 10000000000000000000000000000 ->
   S * (1 - N) <= T -> T <= S * (1 + 2 * N) ->
   (1 - u) * S <= W * T -> W * T <= (1 + u) * S ->
   1 - (2 # 10000000000) <= W /\ W <= 1 + (1 # 10000000000))%Q.
Proof.
  intros HS HW HN HNc Hu Huc Tlo Thi Wlo Whi.
  assert (H1 : (W * (S * (1 - N)) <= W * T)%Q)
    by (rewrite !(Qmult_comm W); apply Qmult_le_compat_r; lra).
  assert (H2 : (W * T <= W * (S * (1 + 2 * N)))%Q)
    by (rewrite !(Qmult_comm W); apply Qmult_le_compat_r; lra).
  assert (H3 : (W * (1 - N) * S <= (1 + u) * S)%Q) by nra.
  assert (H4 : ((1 - u) * S <= W * (1 + 2 * N) * S)%Q) by nra.
  apply Qmult_le_r in H3; [|exact HS].
  apply Qmult_le_r in H4; [|exact HS].
  assert (H5 : (W * N <= W * (5 # 100000000000))%Q)
    by (rewrite !(Qmult_comm W); apply Qmult_le_compat_r; lra).
  split; lra.
Qed.

(** ** The claims *)

(** C1: whenever [get_executor_config] returns, on a controller holding
    [dca_levels] weights, it has emitted the levels n = 0 .. dca_levels-1 in
    index order, the price of level n being
    [price * (1 - n * dca_spread_scalar * spread_multiplier)] for BUY and
    [price * (1 + n * dca_spread_scalar * spread_multiplier)] for SELL, and
    its amount [amount * weights[n] * price_n]; it does return when its
    decimal inputs are far from the exponent limits of the context (finite,
    of exponent at least -100000 and magnitude below 10^100000) and there
    are at most 10^18 levels; and with price 100, scalar 2 and spread
    multiplier 0.01 the first three BUY prices equal 100, 98, 96. *)
Theorem get_executor_config_levels :
  forall (E : Externals) (now : float) (level_id : string)
         (price amount : decimal) (self : Controller) (pd : ProcessedData),
    processed_data self = Some pd ->
    Z.of_nat (List.length (dca_amounts_pct self)) = dca_levels (config self) ->
    let scalar := dca_spread_scalar (config self) in
    let sm := spread_multiplier pd in
    (forall x,
        fst (get_executor_config E now level_id price amount self) = Ok x ->
        x_side x = get_trade_type_from_level_id E level_id /\
        Z.of_nat (List.length (x_prices x)) = dca_levels (config self) /\
        Z.of_nat (List.length (x_amounts_quote x)) = dca_levels (config self) /\
        (forall (n : nat) (w : decimal),
            nth_error (dca_amounts_pct self) n = Some w ->
            exists p a,
              nth_error (x_prices x) n = Some p /\
              nth_error (x_amounts_quote x) n = Some a /\
              (ns <- mul (of_int (Z.of_nat n)) scalar ;;
               offset <- mul ns sm ;;
               factor <- match x_side x with
                         | BUY => sub (of_int 1) offset
                         | SELL => add (of_int 1) offset
                         end ;;
               mul price factor) = Ok p /\
              (aw <- mul amount w ;; mul aw p) = Ok a) /\
        (x_side x = BUY -> price = of_int 100 -> scalar = of_int 2 ->
         sm = Fin false 1 (-2) -> 3 <= dca_levels (config self) ->
         exists p0 p1 p2 rest,
           x_prices x = p0 :: p1 :: p2 :: rest /\
           eqb p0 (of_int 100) = true /\
           eqb p1 (of_int 98) = true /\
           eqb p2 (of_int 96) = true)) /\
    (moderate price = true -> moderate amount = true ->
     moderate scalar = true -> moderate sm = true ->
     Forall (fun w => moderate w = true) (dca_amounts_pct self) ->
     dca_levels (config self) <= 10 ^ 18 ->
     exists x, fst (get_executor_config E now level_id price amount self) = Ok x).
Proof.
  intros E now level_id price amount self pd Hpd Hlen scalar sm.
  split.
  - intros x Hx.
    destruct (get_executor_config_Ok E now level_id price amount self pd x Hpd Hx)
      as (Hside & Hprices & Hamounts).
    fold scalar sm in Hprices.
    pose proof (Forall2_length Hprices) as Lp. rewrite range_length in Lp.
    pose proof (Forall2_length Hamounts) as La. rewrite length_combine in La.
    assert (Hlevels : Z.of_nat (List.length (x_prices x)) = dca_levels (config self))
      by lia.
    split; [exact Hside|]. split; [exact Hlevels|]. split; [lia|]. split.
    + intros n w Hn.
      assert (Hlt : (n < Z.to_nat (dca_levels (config self)))%nat).
      { assert ((n < List.length (dca_amounts_pct self))%nat)
          by (apply nth_error_Some; rewrite Hn; discriminate).
        lia. }
      destruct (Forall2_nth_l _ _ _ Hprices n _ (range_nth _ n Hlt)) as (p & Hpn & Hlp).
      destruct (Forall2_nth_l _ _ _ Hamounts n _ (nth_error_combine _ _ n w p Hn Hpn))
        as (a & Han & Hla).
      exists p, a. repeat split; assumption.
    + intros Hbuy -> Hsc Hsm H3.
      destruct (x_prices x) as [|p0 [|p1 [|p2 rest]]] eqn:Epr;
        simpl in Hlevels; try lia.
      exists p0, p1, p2, rest. split; [reflexivity|].
      rewrite Hbuy, Hsc, Hsm in Hprices.
      assert (L0 : (0 < Z.to_nat (dca_levels (config self)))%nat) by lia.
      assert (L1 : (1 < Z.to_nat (dca_levels (config self)))%nat) by lia.
      assert (L2 : (2 < Z.to_nat (dca_levels (config self)))%nat) by lia.
      destruct (Forall2_nth_l _ _ _ Hprices 0%nat _ (range_nth _ 0%nat L0))
        as (q0 & E0 & V0).
      destruct (Forall2_nth_l _ _ _ Hprices 1%nat _ (range_nth _ 1%nat L1))
        as (q1 & E1 & V1).
      destruct (Forall2_nth_l _ _ _ Hprices 2%nat _ (range_nth _ 2%nat L2))
        as (q2 & E2 & V2).
      simpl in E0, E1, E2. inversion E0; inversion E1; inversion E2; subst q0 q1 q2.
      vm_compute in V0, V1, V2.
      inversion V0; inversion V1; inversion V2; subst.
      repeat split; reflexivity.
  - intros Hp Ha Hs Hm Hw Hlev.
    destruct (get_executor_config_moderate E now level_id price amount self pd
                Hpd Hp Ha Hs Hm Hw Hlev) as (x & Hx & _).
    exists x. exact Hx.
Qed.

Lemma get_executor_config_levels_witness :
  exists x,
    fst (get_executor_config Example.quiet Example.now "buy_0" (of_int 100)
           (of_int 10) (Example.ladder3 (Fin false 1 (-2)))) = Ok x /\
    exists p0 p1 p2 rest,
      x_prices x = p0 :: p1 :: p2 :: rest /\
      eqb p0 (of_int 100) = true /\
      eqb p1 (of_int 98) = true /\
      eqb p2 (of_int 96) = true.
Proof.
  destruct (get_executor_config_levels Example.quiet Example.now "buy_0"
              (of_int 100) (of_int 10) (Example.ladder3 (Fin false 1 (-2)))
              {| reference_price := of_int 100; spread_multiplier := Fin false 1 (-2) |}
              eq_refl eq_refl)
    as (Hlevels & Htotal).
  destruct (Htotal eq_refl eq_refl eq_refl eq_refl ltac:(repeat constructor)
              ltac:(simpl; lia))
    as (x & Hx).
  exists x. split; [exact Hx|].
  destruct (Hlevels x Hx) as (Hside & _ & _ & _ & Hex).
  apply Hex; [rewrite Hside; reflexivity|reflexivity|reflexivity|reflexivity|].
  simpl. lia.
Defined.

(** C10: two calls of [get_executor_config] with the same arguments on the
    same controller agree on every field other than the timestamp, whatever
    the two clock readings, and leave the controller as it was. *)
Theorem get_executor_config_deterministic :
  forall (E : Externals) (now1 now2 : float) (level_id : string)
         (price amount : decimal) (self : Controller),
    let (r1, self1) := get_executor_config E now1 level_id price amount self in
    let (r2, self2) := get_executor_config E now2 level_id price amount self1 in
    self1 = self /\ self2 = self /\
    match r1, r2 with
    | Ok c1, Ok c2 =>
        x_timestamp c1 = now1 /\ x_timestamp c2 = now2 /\
        x_level_id c1 = x_level_id c2 /\
        x_connector_name c1 = x_connector_name c2 /\
        x_trading_pair c1 = x_trading_pair c2 /\
        x_prices c1 = x_prices c2 /\
        x_amounts_quote c1 = x_amounts_quote c2 /\
        x_leverage c1 = x_leverage c2 /\
        x_side c1 = x_side c2 /\
        x_time_limit c1 = x_time_limit c2 /\
        x_stop_loss c1 = x_stop_loss c2 /\
        x_trailing_stop c1 = x_trailing_stop c2 /\
        x_activation_bounds c1 = x_activation_bounds c2
    | Raise e1, Raise e2 => e1 = e2
    | _, _ => False
    end.
Proof.
  intros E now1 now2 level_id price amount self.
  unfold get_executor_config.
  destruct (processed_data self) as [pd|]; simpl.
  - destruct (mapM _ (range _)) as [prices|e]; simpl; [|auto].
    destruct (mapM _ (combine _ _)) as [amounts|e]; simpl; [|auto].
    repeat split; reflexivity.
  - auto.
Qed.

(** C8, as the code has it: on a ladder with a non-negative target price
    and [dca_spread_scalar * spread_multiplier > 0] (the decimal inputs far
    from the exponent limits of the context, at most 10^18 levels) the BUY
    prices are non-increasing in the level index and the SELL prices
    non-decreasing. *)
Theorem ladder_prices_monotone :
  forall (E : Externals) (now : float) (level_id : string)
         (price amount : decimal) (self : Controller) (pd : ProcessedData)
         (product : decimal),
    processed_data self = Some pd ->
    moderate price = true -> moderate amount = true ->
    moderate (dca_spread_scalar (config self)) = true ->
    moderate (spread_multiplier pd) = true ->
    Forall (fun w => moderate w = true) (dca_amounts_pct self) ->
    dca_levels (config self) <= 10 ^ 18 ->
    leb (of_int 0) price = true ->
    mul (dca_spread_scalar (config self)) (spread_multiplier pd) = Ok product ->
    ltb (of_int 0) product = true ->
    exists x,
      fst (get_executor_config E now level_id price amount self) = Ok x /\
      forall (i j : nat) (pi pj : decimal),
        (i <= j)%nat ->
        nth_error (x_prices x) i = Some pi ->
        nth_error (x_prices x) j = Some pj ->
        match x_side x with
        | BUY => leb pj pi = true
        | SELL => leb pi pj = true
        end.
Proof.
  intros E now level_id price amount self pd product
         Hpd Hp Ha Hs Hm Hw Hlev Hprice Hmul Hprod.
  destruct (get_executor_config_moderate E now level_id price amount self pd
              Hpd Hp Ha Hs Hm Hw Hlev) as (x & Hx & _ & Hprices & _ & _ & _).
  exists x. split; [exact Hx|].
  intros i j pi pj Hij Hi Hj.
  destruct (Forall2_nth_r _ _ _ Hprices i pi Hi) as (ni & Hni & Hpi).
  destruct (Forall2_nth_r _ _ _ Hprices j pj Hj) as (nj & Hnj & Hpj).
  apply range_nth_inv in Hni, Hnj. destruct Hni as [-> _], Hnj as [-> Hjlt].
  apply value_nonneg_of_leb in Hprice; [|apply moderate_finite; assumption].
  pose proof (mul_positive_product _ _ _ Hs Hm Hmul Hprod) as Hpos.
  destruct (level_price_mono (x_side x) price _ _ (Z.of_nat i) (Z.of_nat j) pi pj
              Hp Hs Hm Hprice Hpos ltac:(lia) ltac:(lia) ltac:(lia) Hpi Hpj)
    as (Fi & Fj & Hv).
  destruct (x_side x); apply leb_finite; assumption.
Qed.

Lemma ladder_prices_monotone_witness :
  exists x,
    fst (get_executor_config Example.quiet Example.now "sell_0" (of_int 100)
           (of_int 10) (Example.ladder3 (Fin false 1 (-2)))) = Ok x /\
    forall (i j : nat) (pi pj : decimal),
      (i <= j)%nat ->
      nth_error (x_prices x) i = Some pi ->
      nth_error (x_prices x) j = Some pj ->
      match x_side x with
      | BUY => leb pj pi = true
      | SELL => leb pi pj = true
      end.
Proof.
  exact (ladder_prices_monotone Example.quiet Example.now "sell_0"
           (of_int 100) (of_int 10) (Example.ladder3 (Fin false 1 (-2)))
           {| reference_price := of_int 100; spread_multiplier := Fin false 1 (-2) |}
           (Fin false 2 (-2))
           eq_refl eq_refl eq_refl eq_refl eq_refl
           ltac:(repeat constructor) ltac:(simpl; lia) eq_refl eq_refl eq_refl).
Defined.

(** C8 as stated fails on a negative target price: the BUY ladder for
    price -100, scalar 2, spread multiplier 0.01 is -100, -98, -96, which
    increases with the level index. *)
Lemma ladder_prices_monotone_counterexample :
  exists x p0 p1 rest product,
    fst (get_executor_config Example.quiet Example.now "buy_0" (of_int (-100))
           (of_int 10) (Example.ladder3 (Fin false 1 (-2)))) = Ok x /\
    mul (of_int 2) (Fin false 1 (-2)) = Ok product /\
    ltb (of_int 0) product = true /\
    x_side x = BUY /\
    x_prices x = p0 :: p1 :: rest /\
    eqb p0 (of_int (-100)) = true /\
    eqb p1 (of_int (-98)) = true /\
    ltb p0 p1 = true.
Proof.
  eexists. eexists. eexists. eexists. eexists.
  evaluate.
Qed.

(** C9, as the code has it: with a positive target price, a non-negative
    target amount, scalar, spread multiplier and weights (all far from the
    exponent limits of the context, at most 10^18 levels), every SELL level
    has price > 0 and amount_quote >= 0, and so has every BUY level whose
    offset [n * dca_spread_scalar * spread_multiplier] is below 1. *)
Theorem ladder_levels_positive :
  forall (E : Externals) (now : float) (level_id : string)
         (price amount : decimal) (self : Controller) (pd : ProcessedData),
    processed_data self = Some pd ->
    moderate price = true -> moderate amount = true ->
    moderate (dca_spread_scalar (config self)) = true ->
    moderate (spread_multiplier pd) = true ->
    Forall (fun w => moderate w = true /\ leb (of_int 0) w = true)
           (dca_amounts_pct self) ->
    dca_levels (config self) <= 10 ^ 18 ->
    ltb (of_int 0) price = true ->
    leb (of_int 0) amount = true ->
    leb (of_int 0) (dca_spread_scalar (config self)) = true ->
    leb (of_int 0) (spread_multiplier pd) = true ->
    exists x,
      fst (get_executor_config E now level_id price amount self) = Ok x /\
      forall (n : nat) (p a ns offset : decimal),
        nth_error (x_prices x) n = Some p ->
        nth_error (x_amounts_quote x) n = Some a ->
        mul (of_int (Z.of_nat n)) (dca_spread_scalar (config self)) = Ok ns ->
        mul ns (spread_multiplier pd) = Ok offset ->
        x_side x = SELL \/ ltb offset (of_int 1) = true ->
        ltb (of_int 0) p = true /\ leb (of_int 0) a = true.
Proof.
  intros E now level_id price amount self pd Hpd Hp Ha Hs Hm Hw Hlev Vp Va Vs Vm.
  assert (Hwf : Forall (fun w => moderate w = true) (dca_amounts_pct self)).
  { eapply Forall_impl; [|exact Hw]. intros w [H _]. exact H. }
  destruct (get_executor_config_moderate E now level_id price amount self pd
              Hpd Hp Ha Hs Hm Hwf Hlev)
    as (x & Hx & _ & Hprices & Hamounts & Fprices & _).
  exists x. split; [exact Hx|].
  intros n p a ns offset Hn Han Hns Hoff Hcond.
  destruct (Forall2_nth_r _ _ _ Hprices n p Hn) as (k & Hk & Hlp).
  apply range_nth_inv in Hk. destruct Hk as [-> Hnlt].
  apply value_pos_of_ltb in Vp; [|apply moderate_finite; assumption].
  apply value_nonneg_of_leb in Va, Vs, Vm; try (apply moderate_finite; assumption).
  destruct (level_price_moderate (x_side x) price _ _ (Z.of_nat n) Hp Hs Hm
              ltac:(lia))
    as (ns' & off' & _ & _ & Hns' & Hoff' & _ & _ & _ & _ & Foff & _).
  rewrite Hns in Hns'. apply Ok_inj in Hns'. subst ns'.
  rewrite Hoff in Hoff'. apply Ok_inj in Hoff'. subst off'.
  assert (Hcond' : x_side x = SELL \/ (value offset < 1)%Q).
  { destruct Hcond as [H|H]; [left; exact H|right].
    apply (ltb_finite _ _ Foff (of_int_finite 1)) in H.
    rewrite value_of_int in H. exact H. }
  destruct (level_price_positive (x_side x) price _ _ (Z.of_nat n) ns offset p
              Hp Hs Hm Vp Vs Vm ltac:(lia) Hns Hoff Hcond' Hlp) as (Wp & Pp).
  pose proof (within_finite _ _ Wp) as Fp.
  split; [apply value_pos_of_ltb; assumption|].
  destruct (Forall2_nth_r _ _ _ Hamounts n a Han) as ([w p'] & Hwp & Hla).
  cbn [fst snd] in Hla.
  assert (Hwn : nth_error (dca_amounts_pct self) n = Some w /\ p' = p).
  { clear - Hwp Hn. revert Hwp Hn. generalize (x_prices x) as ps.
    generalize (dca_amounts_pct self) as ws. revert n.
    induction n as [|n IH]; intros [|w0 ws] [|p0 ps]; simpl; try discriminate.
    - intros H1 H2. inversion H1; inversion H2; subst. split; reflexivity.
    - apply IH. }
  destruct Hwn as [Hwn ->].
  rewrite Forall_forall in Hw.
  destruct (Hw w (nth_error_In _ _ Hwn)) as [Fw Vw].
  apply value_nonneg_of_leb in Vw; [|apply moderate_finite; assumption].
  destruct (level_amount_nonneg amount w p a Ha Fw Wp Va Vw ltac:(lra) Hla) as (Fa & Pa).
  apply value_nonneg_of_leb; assumption.
Qed.

Lemma ladder_levels_positive_witness :
  exists x,
    fst (get_executor_config Example.quiet Example.now "sell_0" (of_int 100)
           (of_int 10) (Example.ladder3 (Fin false 5 (-1)))) = Ok x /\
    forall (n : nat) (p a ns offset : decimal),
      nth_error (x_prices x) n = Some p ->
      nth_error (x_amounts_quote x) n = Some a ->
      mul (of_int (Z.of_nat n)) (of_int 2) = Ok ns ->
      mul ns (Fin false 5 (-1)) = Ok offset ->
      x_side x = SELL \/ ltb offset (of_int 1) = true ->
      ltb (of_int 0) p = true /\ leb (of_int 0) a = true.
Proof.
  exact (ladder_levels_positive Example.quiet Example.now "sell_0"
           (of_int 100) (of_int 10) (Example.ladder3 (Fin false 5 (-1)))
           {| reference_price := of_int 100; spread_multiplier := Fin false 5 (-1) |}
           eq_refl eq_refl eq_refl eq_refl eq_refl
           ltac:(repeat constructor) ltac:(simpl; lia)
           eq_refl eq_refl eq_refl eq_refl).
Defined.

(** C9 as stated fails on the BUY side: with price 100, amount 10, scalar 2
    and spread multiplier 0.5 (all within the preconditions) level 1 has the
    offset 1 and the price 0, and level 2 a negative price and amount. *)
Lemma ladder_levels_positive_counterexample :
  exists x p0 p1 p2 a0 a1 a2,
    fst (get_executor_config Example.quiet Example.now "buy_0" (of_int 100)
           (of_int 10) (Example.ladder3 (Fin false 5 (-1)))) = Ok x /\
    x_side x = BUY /\
    x_prices x = [p0; p1; p2] /\
    x_amounts_quote x = [a0; a1; a2] /\
    eqb p1 (of_int 0) = true /\
    ltb p2 (of_int 0) = true /\
    ltb a2 (of_int 0) = true.
Proof.
  do 7 eexists.
  evaluate.
Qed.

(** ** The signal computation *)

Lemma update_processed_data_Ok (E : Externals) (self : Controller) :
  fst (update_processed_data E self) = Ok tt ->
  exists pd, compute_processed_data E self = Ok pd /\
             update_processed_data E self = (Ok tt, set_processed_data self pd).
Proof.
  unfold update_processed_data.
  destruct (compute_processed_data E self) as [pd|e]; simpl; [|discriminate].
  intros _. exists pd. split; reflexivity.
Qed.

(** The spread multiplier of a completed cycle is the last NATR value as a
    fraction. *)
Lemma compute_processed_data_spread (E : Externals) (self : Controller)
    (natr_pct : Series) (pd : ProcessedData) :
  cycle_natr E self = Some natr_pct ->
  compute_processed_data E self = Ok pd ->
  exists v, iloc_last natr_pct = Ok v /\
            spread_multiplier pd = to_decimal (fdiv v (of_Z 100)).
Proof.
  intros Hn. unfold compute_processed_data. rewrite Hn.
  destruct (cycle_macd E self) as [m|]; [|discriminate].
  destruct (iloc_last (series_binop _ _ _)) as [pm|]; [|discriminate]. cbn [bind].
  rewrite iloc_last_map.
  destruct (iloc_last natr_pct) as [v|]; [|discriminate]. cbn [bind].
  destruct (add _ _) as [shifted|]; [|discriminate]. cbn [bind].
  destruct (mul _ _) as [rp|]; [|discriminate]. cbn [bind].
  intros H. apply Ok_inj in H. subst pd. exists v. split; reflexivity.
Qed.

(** C4, as the code has it: the signal computation never raises
    InsufficientHistory, whatever the number of candles; the constructor
    sets the number of records to request to
    max(macd_slow, macd_fast, macd_signal, natr_length) + 10, and the number
    of candles received is not checked. *)
Theorem update_processed_data_never_insufficient_history :
  forall (E : Externals) (self : Controller) (c : Config),
    fst (update_processed_data E self) <> Raise InsufficientHistory /\
    match init c with
    | Ok self0 =>
        max_records self0
        = Z.max (Z.max (Z.max (macd_slow c) (macd_fast c)) (macd_signal c))
                (natr_length c) + 10
    | Raise _ => True
    end.
Proof.
  intros E self c. split.
  - intros H. apply update_processed_data_raises in H.
    destruct H as [H|[H|[H|H]]]; discriminate.
  - unfold init.
    destruct (geometric _ _ _) as [amounts|]; cbn [bind]; [|exact I].
    destruct (normalize amounts) as [pct|]; cbn [bind]; [|exact I].
    reflexivity.
Qed.

(** C4 as stated fails: with 3 candles where 12 are required the cycle
    completes (and had the indicator refused, the exception would have been
    TypeError). *)
Lemma update_processed_data_insufficient_history_counterexample :
  init Example.short_config = Ok Example.short_controller /\
  (let E := Example.three_rows [of_Z 1; of_Z 1; of_Z 1]
              [Example.fq 1 2; Example.fq (-1) 2; Example.fq 1 4]
              [Example.fq 1 10; Example.fq (-1) 10; Example.fq 1 5] in
   Z.of_nat (List.length (close (cycle_candles E Example.short_controller))) = 3 /\
   required_records (config Example.short_controller) = 12 /\
   fst (update_processed_data E Example.short_controller) = Ok tt) /\
  fst (update_processed_data
         (Example.indicators (Example.flat_candles 3 (of_Z 100)) (of_int 100) []
            {| MACD := []; MACDh := []; MACDs := [] |})
         (Example.controller (Example.default_config 3 fone) [] (of_int 0)))
  = Raise TypeError.
Proof. evaluate. Qed.

(** C6, as the code has it: in a completed cycle the spread multiplier is
    the last NATR value divided by 100; it is >= 0 when the volatility
    series is non-negative, and a negative last value is not rejected: the
    spread multiplier is then <= 0, and InvalidIndicatorOutput is never
    raised. *)
Theorem spread_multiplier_sign :
  forall (E : Externals) (self : Controller) (natr_pct : Series),
    cycle_natr E self = Some natr_pct ->
    fst (update_processed_data E self) = Ok tt ->
    exists pd v,
      processed_data (snd (update_processed_data E self)) = Some pd /\
      iloc_last natr_pct = Ok v /\
      spread_multiplier pd = to_decimal (fdiv v (of_Z 100)) /\
      (Forall (fun y => fleb fzero y = true) natr_pct ->
       leb (of_int 0) (spread_multiplier pd) = true) /\
      (fltb v fzero = true -> leb (spread_multiplier pd) (of_int 0) = true) /\
      forall (E' : Externals) (self' : Controller),
        fst (update_processed_data E' self') <> Raise InvalidIndicatorOutput.
Proof.
  intros E self natr_pct Hn Hok.
  destruct (update_processed_data_Ok E self Hok) as (pd & Hc & Hu).
  destruct (compute_processed_data_spread E self natr_pct pd Hn Hc) as (v & Hv & Hs).
  exists pd, v. rewrite Hu. cbn [snd set_processed_data processed_data].
  split; [reflexivity|]. split; [exact Hv|]. split; [exact Hs|].
  rewrite Hs, of_Z_100. split; [|split].
  - intros Hall. rewrite Forall_forall in Hall.
    specialize (Hall v (iloc_last_In _ _ Hv)).
    apply to_decimal_nonneg.
    destruct (fleb_zero_sign v Hall) as [Hp| ->].
    + left. apply fdiv_positive_sign. exact Hp.
    + right. reflexivity.
  - intros Hneg. apply to_decimal_nonpos, fdiv_positive_sign, fltb_zero_sign, Hneg.
  - intros E' self' H. apply update_processed_data_raises in H.
    destruct H as [H|[H|[H|H]]]; discriminate.
Qed.

Lemma spread_multiplier_sign_witness :
  exists pd v,
    (let E := Example.three_rows [of_Z 1; of_Z 1; of_Z 1]
                [Example.fq 1 2; Example.fq (-1) 2; Example.fq 1 4]
                [Example.fq 1 10; Example.fq (-1) 10; Example.fq 1 5] in
     processed_data (snd (update_processed_data E Example.short_controller))
     = Some pd) /\
    iloc_last [of_Z 1; of_Z 1; of_Z 1] = Ok v /\
    leb (of_int 0) (spread_multiplier pd) = true.
Proof.
  destruct (spread_multiplier_sign
              (Example.three_rows [of_Z 1; of_Z 1; of_Z 1]
                 [Example.fq 1 2; Example.fq (-1) 2; Example.fq 1 4]
                 [Example.fq 1 10; Example.fq (-1) 10; Example.fq 1 5])
              Example.short_controller [of_Z 1; of_Z 1; of_Z 1]
              ltac:(vm_compute; reflexivity) ltac:(vm_compute; reflexivity))
    as (pd & v & Hpd & Hv & _ & Hpos & _).
  exists pd, v. split; [exact Hpd|]. split; [exact Hv|].
  apply Hpos. repeat constructor.
Defined.

(** C6 as stated fails: a last NATR value of -1 (percent) is not rejected;
    the cycle completes with the negative spread multiplier
    Decimal(-0.01). *)
Lemma spread_multiplier_sign_counterexample :
  exists pd,
    (let E := Example.three_rows [of_Z 1; of_Z 1; of_Z (-1)]
                [Example.fq 1 2; Example.fq (-1) 2; Example.fq 1 4]
                [Example.fq 1 10; Example.fq (-1) 10; Example.fq 1 5] in
     cycle_natr E Example.short_controller = Some [of_Z 1; of_Z 1; of_Z (-1)] /\
     fst (update_processed_data E Example.short_controller) = Ok tt /\
     processed_data (snd (update_processed_data E Example.short_controller))
     = Some pd) /\
    spread_multiplier pd = to_decimal (fdiv (of_Z (-1)) (of_Z 100)) /\
    ltb (spread_multiplier pd) (of_int 0) = true.
Proof.
  eexists. evaluate.
Qed.

(** C5, as the code has it: when the standard deviation of the MACD column
    is zero the division of the z-score is not guarded.  The z-score of the
    last row is then a NaN or an infinity, and so is the price multiplier
    (as a float and as a decimal; it is never 0).  The cycle then either
    stores in [processed_data] a reference price that is a NaN or an
    infinity, next to the spread multiplier [Decimal(natr)], or, for a zero
    mid-price, ends with InvalidOperation and leaves the controller as it
    was. *)
Theorem zero_variance_reference_price :
  forall (E : Externals) (self : Controller) (natr_pct : Series) (m : MacdOutput)
         (s : bool),
    cycle_natr E self = Some natr_pct ->
    cycle_macd E self = Some m ->
    List.length natr_pct = List.length (MACD m) ->
    List.length (MACDh m) = List.length (MACD m) ->
    (0 < List.length natr_pct)%nat ->
    series_std E (MACD m) = S754_zero s ->
    exists v x h : float,
      iloc_last natr_pct = Ok v /\
      iloc_last (MACD m) = Ok x /\
      iloc_last (MACDh m) = Ok h /\
      let natr := fdiv v (of_Z 100) in
      let momentum_z :=
        fdiv (fneg (fsub x (series_mean E (MACD m)))) (series_std E (MACD m)) in
      let price_multiplier :=
        fmul (fadd (fmul fhalf momentum_z) (fmul fhalf (of_Z (trend_direction h))))
             (fdiv natr (of_Z 2)) in
      is_special momentum_z = true /\
      is_special price_multiplier = true /\
      is_finite (to_decimal price_multiplier) = false /\
      ((fst (update_processed_data E self) = Raise InvalidOperation /\
        snd (update_processed_data E self) = self /\
        is_zero (cycle_mid_price E self) = true) \/
       (exists rp,
           update_processed_data E self
           = (Ok tt, set_processed_data self
                       {| reference_price := rp;
                          spread_multiplier := to_decimal natr |}) /\
           processed_data (snd (update_processed_data E self))
           = Some {| reference_price := rp;
                     spread_multiplier := to_decimal natr |} /\
           is_finite rp = false)).
Proof.
  intros E self natr_pct m s Hn Hm L1 L2 Hlen Hstd.
  destruct (iloc_last_nonempty natr_pct) as [v Hv];
    [destruct natr_pct; [simpl in Hlen; lia|discriminate]|].
  destruct (iloc_last_nonempty (MACD m)) as [x Hx];
    [destruct (MACD m); [simpl in L1; lia|discriminate]|].
  destruct (iloc_last_nonempty (MACDh m)) as [h Hh];
    [destruct (MACDh m); [simpl in L2; lia|discriminate]|].
  exists v, x, h.
  split; [exact Hv|]. split; [exact Hx|]. split; [exact Hh|].
  unfold update_processed_data.
  rewrite (compute_processed_data_last E self natr_pct m v x h Hn Hm L1 L2 Hv Hx Hh).
  cbv zeta.
  set (z := fdiv (fneg (fsub x (series_mean E (MACD m)))) (series_std E (MACD m))).
  set (pm := fmul (fadd (fmul fhalf z) (fmul fhalf (of_Z (trend_direction h))))
                  (fdiv (fdiv v (of_Z 100)) (of_Z 2))).
  set (sm := to_decimal (fdiv v (of_Z 100))).
  assert (Hz : is_special z = true)
    by (unfold z; rewrite Hstd; apply fdiv_by_zero).
  assert (Hpm : is_special pm = true).
  { unfold pm. apply fmul_special_l, fadd_special_half.
    - apply fmul_half_special. exact Hz.
    - apply trend_direction_unit. }
  split; [exact Hz|]. split; [exact Hpm|].
  clearbody pm sm z.
  destruct pm as [| sp | |]; try discriminate;
    (split; [reflexivity|]); cbn [to_decimal add bind of_int].
  - destruct (cycle_mid_price E self) as [sc cm em| |]; cbn [mul bind].
    + destruct (N.eqb cm 0) eqn:Hc.
      * left. split; [reflexivity|]. split; [reflexivity|exact Hc].
      * right. eexists. split; [reflexivity|]. split; reflexivity.
    + right. eexists. split; [reflexivity|]. split; reflexivity.
    + right. eexists. split; [reflexivity|]. split; reflexivity.
  - right. destruct (cycle_mid_price E self); cbn [mul bind];
      eexists; (split; [reflexivity|]); split; reflexivity.
Qed.

Lemma zero_variance_reference_price_witness :
  exists pd,
    fst (update_processed_data
           (Example.three_rows [of_Z 1; of_Z 1; of_Z 1] [fzero; fzero; fzero]
              [fzero; fzero; fzero])
           Example.short_controller) = Ok tt /\
    processed_data
      (snd (update_processed_data
              (Example.three_rows [of_Z 1; of_Z 1; of_Z 1] [fzero; fzero; fzero]
                 [fzero; fzero; fzero])
              Example.short_controller)) = Some pd /\
    is_finite (reference_price pd) = false.
Proof.
  destruct (zero_variance_reference_price
              (Example.three_rows [of_Z 1; of_Z 1; of_Z 1] [fzero; fzero; fzero]
                 [fzero; fzero; fzero])
              Example.short_controller [of_Z 1; of_Z 1; of_Z 1]
              {| MACD := [fzero; fzero; fzero]; MACDh := [fzero; fzero; fzero];
                 MACDs := [fzero; fzero; fzero] |}
              false
              ltac:(vm_compute; reflexivity) ltac:(vm_compute; reflexivity)
              eq_refl eq_refl ltac:(simpl; lia) ltac:(vm_compute; reflexivity))
    as (v & x & h & _ & _ & _ & H).
  cbv zeta in H.
  destruct H as (_ & _ & _ & [[Hraise _]|(rp & Hupd & Hpd & Hfin)]).
  - exfalso. vm_compute in Hraise. discriminate.
  - eexists. split; [rewrite Hupd; reflexivity|]. split; [exact Hpd|exact Hfin].
Defined.

(** C5 as stated fails: on a flat history (MACD column 0, 0, 0, standard
    deviation 0) the z-score and the price multiplier of the last row are
    NaN, not 0, and the reference price stored in [processed_data] is a NaN,
    not the mid-price 100. *)
Lemma zero_variance_counterexample :
  exists pd,
    (let E := Example.three_rows [of_Z 1; of_Z 1; of_Z 1] [fzero; fzero; fzero]
                [fzero; fzero; fzero] in
     let macd := [fzero; fzero; fzero] in
     let momentum_z :=
       fdiv (fneg (fsub fzero (series_mean E macd))) (series_std E macd) in
     let price_multiplier :=
       fmul (fadd (fmul fhalf momentum_z)
                  (fmul fhalf (of_Z (trend_direction fzero))))
            (fdiv (fdiv (of_Z 1) (of_Z 100)) (of_Z 2)) in
     cycle_macd E Example.short_controller
     = Some {| MACD := macd; MACDh := macd; MACDs := macd |} /\
     series_std E macd = fzero /\
     cycle_mid_price E Example.short_controller = of_int 100 /\
     momentum_z = S754_nan /\
     price_multiplier = S754_nan /\
     fst (update_processed_data E Example.short_controller) = Ok tt /\
     processed_data (snd (update_processed_data E Example.short_controller))
     = Some pd) /\
    reference_price pd = NaN /\
    eqb (reference_price pd) (of_int 100) = false.
Proof. eexists. evaluate. Qed.



(** C7, as the code has it: neither the constructor nor
    [get_executor_config] validates the ladder configuration, and neither
    ever fails with InvalidLadderConfig.
    - The constructor is [init_with] applied to the outcome of
      [Distributions.geometric]; whatever that outcome, it fails only with
      the exception of the helper or with a decimal signal
      (InvalidOperation, DivisionByZero, Overflow) of the normalisation,
      and it succeeds whenever the normalisation does.  With the helper as
      a plain progression the constructor fails only by a decimal signal and
      accepts a level count below 1, with an empty list of weights.
    - [get_executor_config] fails only with KeyError, exactly when
      [processed_data] is missing, or with InvalidOperation or Overflow of
      the decimal arithmetic.  A level count below 1 gives an empty ladder;
      a target price and a target amount of any sign (far from the exponent
      limits) give the ladder of the level formulas. *)
Theorem ladder_never_invalid_config :
  forall (E : Externals) (now : float) (level_id : string)
         (price amount : decimal) (c : Config) (self : Controller),
    init c <> Raise InvalidLadderConfig /\
    fst (get_executor_config E now level_id price amount self)
    <> Raise InvalidLadderConfig /\
    (dca_levels c < 1 ->
     exists self0,
       init c = Ok self0 /\ dca_amounts_pct self0 = [] /\
       forall pd,
       exists x,
         fst (get_executor_config E now level_id price amount
                (set_processed_data self0 pd)) = Ok x /\
         x_prices x = [] /\ x_amounts_quote x = []) /\
    init c
    = init_with (geometric (dca_levels c) fone (dca_amount_ratio_increment c)) c /\
    (forall (helper : result (list decimal)) (e : exn),
        init_with helper c = Raise e ->
        helper = Raise e \/
        exists amounts,
          helper = Ok amounts /\ normalize amounts = Raise e /\
          (e = InvalidOperation \/ e = DivisionByZero \/ e = Overflow)) /\
    (forall (amounts pct : list decimal),
        normalize amounts = Ok pct ->
        exists self0,
          init_with (Ok amounts) c = Ok self0 /\
          dca_amounts_pct self0 = pct /\
          dca_levels (config self0) = dca_levels c /\
          processed_data self0 = None) /\
    (forall e : exn,
        init c = Raise e ->
        e = InvalidOperation \/ e = DivisionByZero \/ e = Overflow) /\
    (forall e : exn,
        fst (get_executor_config E now level_id price amount self) = Raise e ->
        (e = KeyError /\ processed_data self = None) \/
        (processed_data self <> None /\ (e = InvalidOperation \/ e = Overflow))) /\
    (processed_data self = None ->
     fst (get_executor_config E now level_id price amount self) = Raise KeyError) /\
    (dca_levels (config self) < 1 ->
     forall pd,
       processed_data self = Some pd ->
       exists x,
         fst (get_executor_config E now level_id price amount self) = Ok x /\
         x_prices x = [] /\ x_amounts_quote x = []) /\
    (forall pd,
        processed_data self = Some pd ->
        moderate price = true -> moderate amount = true ->
        moderate (dca_spread_scalar (config self)) = true ->
        moderate (spread_multiplier pd) = true ->
        Forall (fun w => moderate w = true) (dca_amounts_pct self) ->
        dca_levels (config self) <= 10 ^ 18 ->
        exists x,
          fst (get_executor_config E now level_id price amount self) = Ok x /\
          Forall2 (fun n p =>
                     level_price (get_trade_type_from_level_id E level_id) price
                       (dca_spread_scalar (config self)) (spread_multiplier pd) n
                     = Ok p)
                  (range (dca_levels (config self))) (x_prices x) /\
          Forall2 (fun wp a => level_amount amount (fst wp) (snd wp) = Ok a)
                  (combine (dca_amounts_pct self) (x_prices x))
                  (x_amounts_quote x)).
Proof.
  intros E now level_id price amount c self.
  split; [|split; [|split; [|split; [|split; [|split; [|split; [|split;
    [|split; [|split]]]]]]]]].
  - intros H. apply init_raises in H. destruct H as [H|[H|H]]; discriminate.
  - intros H. apply get_executor_config_raises in H.
    destruct H as [H|[H|H]]; discriminate.
  - intros Hlev.
    assert (Hn : Z.to_nat (dca_levels c) = 0%nat) by lia.
    unfold init, geometric. rewrite Hn. cbn [geometric_from bind normalize mapM].
    destruct (candles_config c);
      (eexists; split; [reflexivity|]; split; [reflexivity|];
       intros pd; unfold get_executor_config, range;
       cbn [set_processed_data processed_data config dca_amounts_pct fst
            set_candles_config dca_levels];
       rewrite Hn; cbn [seq map mapM bind combine];
       eexists; split; [reflexivity|]; split; reflexivity).
  - reflexivity.
  - intros helper e. unfold init_with.
    destruct helper as [amounts|e']; cbn [bind].
    + destruct (normalize amounts) as [pct|e''] eqn:Hnorm; cbn [bind];
        [discriminate|].
      intros H. inversion H; subst e''. right. exists amounts.
      split; [reflexivity|]. split; [exact Hnorm|].
      apply (normalize_raises _ _ Hnorm).
    + intros H. inversion H; subst e'. left. reflexivity.
  - intros amounts pct Hnorm. unfold init_with. cbn [bind]. rewrite Hnorm.
    cbn [bind]. eexists. split; [reflexivity|].
    cbn [dca_amounts_pct processed_data config].
    split; [reflexivity|]. split; [|reflexivity].
    destruct (candles_config c); reflexivity.
  - intros e. apply init_raises.
  - intros e. unfold get_executor_config. cbn [fst].
    destruct (processed_data self) as [pd|] eqn:Hpd.
    + intros H. right. split; [discriminate|].
      assert (H' : fst (get_executor_config E now level_id price amount self)
                   = Raise e)
        by (unfold get_executor_config; rewrite Hpd; exact H).
      destruct (get_executor_config_raises _ _ _ _ _ _ _ H') as [K|K];
        [|exact K].
      subst e. exfalso. revert H.
      intros H.
      apply (bind_raises (fun e => e = InvalidOperation \/ e = Overflow)) in H.
      * destruct H; discriminate.
      * intros e'. apply (mapM_raises (fun e => e = InvalidOperation \/ e = Overflow)).
        intros n e''. apply level_price_raises.
      * intros prices e' _ H1.
        apply (bind_raises (fun e => e = InvalidOperation \/ e = Overflow)) in H1;
          [exact H1| |].
        -- intros e''.
           apply (mapM_raises (fun e => e = InvalidOperation \/ e = Overflow)).
           intros [w p] e3. apply level_amount_raises.
        -- intros amounts e'' _ H2. discriminate.
    + intros H. inversion H. left. split; reflexivity.
  - intros Hpd. unfold get_executor_config. rewrite Hpd. reflexivity.
  - intros Hlev pd Hpd.
    assert (Hn : Z.to_nat (dca_levels (config self)) = 0%nat) by lia.
    unfold get_executor_config, range. rewrite Hpd, Hn.
    cbn [fst seq map mapM bind].
    destruct (dca_amounts_pct self); cbn [combine mapM bind];
      eexists; split; [reflexivity|split; reflexivity
                      |reflexivity|split; reflexivity].
  - intros pd Hpd Fp Fa Fs Fm Fw Hlev.
    destruct (get_executor_config_moderate E now level_id price amount self pd
                Hpd Fp Fa Fs Fm Fw Hlev) as (x & Hx & Hside & HP & HA & _).
    exists x. split; [exact Hx|]. rewrite <- Hside. split; assumption.
Qed.

Lemma ladder_never_invalid_config_witness :
  (exists self0,
      init (Example.default_config 0 fone) = Ok self0 /\
      dca_amounts_pct self0 = [] /\
      forall pd,
      exists x,
        fst (get_executor_config Example.quiet Example.now "buy_0" (of_int (-100))
               (of_int (-10)) (set_processed_data self0 pd)) = Ok x /\
        x_prices x = [] /\ x_amounts_quote x = []) /\
  (exists x,
      fst (get_executor_config Example.quiet Example.now "buy_0" (of_int (-100))
             (of_int (-10)) (Example.ladder3 (Fin false 1 (-2)))) = Ok x /\
      Forall2 (fun n p =>
                 level_price (get_trade_type_from_level_id Example.quiet "buy_0")
                   (of_int (-100)) (of_int 2) (Fin false 1 (-2)) n = Ok p)
              [0; 1; 2] (x_prices x) /\
      Forall2 (fun wp a => level_amount (of_int (-10)) (fst wp) (snd wp) = Ok a)
              (combine [Example.third; Example.third; Example.third] (x_prices x))
              (x_amounts_quote x)).
Proof.
  destruct (ladder_never_invalid_config Example.quiet Example.now "buy_0"
              (of_int (-100)) (of_int (-10)) (Example.default_config 0 fone)
              (Example.ladder3 (Fin false 1 (-2))))
    as (_ & _ & H0 & _ & _ & _ & _ & _ & _ & _ & Hany).
  split.
  - apply H0. simpl. lia.
  - apply (Hany {| reference_price := of_int 100;
                   spread_multiplier := Fin false 1 (-2) |});
      try reflexivity.
    + repeat constructor.
    + simpl. lia.
Defined.

(** C7 as stated fails: a controller with a level count of 0 gives an empty
    ladder, a negative target price and a negative target amount give a
    ladder, and the amounts 1, -1 of a growth ratio -1 make the
    normalisation of the constructor fail with DivisionByZero; none of them
    is answered with InvalidLadderConfig.  With the helper as a plain
    progression the constructor accepts a level count of 0. *)
Lemma ladder_invalid_config_counterexample :
  (exists x,
      dca_levels (Example.default_config 0 fone) < 1 /\
      fst (get_executor_config Example.quiet Example.now "buy_0" (of_int 100)
             (of_int 10)
             (Example.controller (Example.default_config 0 fone) []
                (Fin false 1 (-2)))) = Ok x /\
      x_prices x = [] /\ x_amounts_quote x = []) /\
  (exists x p0 p1 p2 a0 a1 a2,
      ltb (of_int (-100)) (of_int 0) = true /\
      ltb (of_int (-10)) (of_int 0) = true /\
      fst (get_executor_config Example.quiet Example.now "buy_0" (of_int (-100))
             (of_int (-10)) (Example.ladder3 (Fin false 1 (-2)))) = Ok x /\
      x_prices x = [p0; p1; p2] /\
      x_amounts_quote x = [a0; a1; a2] /\
      eqb p1 (of_int (-98)) = true) /\
  (mul (of_int 1) (of_int (-1)) = Ok (of_int (-1)) /\
   normalize [of_int 1; of_int (-1)] = Raise DivisionByZero /\
   init_with (Ok [of_int 1; of_int (-1)]) (Example.default_config 2 (of_Z (-1)))
   = Raise DivisionByZero) /\
  (exists self,
      init (Example.default_config 0 fone) = Ok self /\
      dca_amounts_pct self = []).
Proof.
  split; [eexists; evaluate|].
  split; [do 7 eexists; evaluate|].
  split; [evaluate|].
  eexists; evaluate.
Qed.

Lemma within_span (d : decimal) :
  is_finite d = true -> within (span d) d = true /\ 1 <= span d.
Proof.
  destruct d as [s c e| |]; try discriminate. intros _.
  pose proof (ndigits_ge1 (Z.of_N c)) as Hd.
  split; [apply within_Fin|]; cbn [span]; lia.
Qed.

(** A term of 28 digits times the ratio 1e22 raises the exponent by 22,
    until the result leaves the exponent range. *)
Lemma mul_1e22 (e : Z) :
  0 <= e ->
  mul (Fin false 1000000000000000000000000000 e) (Fin false 10000000000000000000000 0)
  = if e + 22 >? Etop then Raise Overflow
    else Ok (Fin false 1000000000000000000000000000 (e + 22)).
Proof.
  intros He. unfold mul, fix_. cbn [xorb].
  set (c := Z.of_N 1000000000000000000000000000 * Z.of_N 10000000000000000000000).
  assert (Hc0 : (c =? 0) = false) by (vm_compute; reflexivity).
  assert (Hcd : ndigits c = 50) by (vm_compute; reflexivity).
  rewrite Hc0, Hcd, Z.add_0_r.
  replace (50 + e - prec) with (e + 22) by (unfold prec; lia).
  destruct (Z.gtb_spec (e + 22) Etop) as [Hov|Hin]; [reflexivity|].
  rewrite Z.max_l by (unfold Etiny, Emin, prec; lia).
  assert (Hlt : (e <? e + 22) = true) by (apply Z.ltb_lt; lia).
  rewrite Hlt. replace (e + 22 - e) with 22 by lia.
  assert (Hq : round_half_even c 22 = 1000000000000000000000000000)
    by (vm_compute; reflexivity).
  rewrite Hq.
  assert (Hd : (ndigits 1000000000000000000000000000 >? prec) = false)
    by (vm_compute; reflexivity).
  rewrite Hd. reflexivity.
Qed.

Lemma geometric_from_overflow (n : nat) :
  forall e : Z,
    0 <= e -> (2 <= n)%nat -> Etop < e + 22 * (Z.of_nat n - 1) ->
    geometric_from n (Fin false 1000000000000000000000000000 e)
      (Fin false 10000000000000000000000 0) = Raise Overflow.
Proof.
  induction n as [|n IH]; intros e He Hn Hb; [lia|].
  destruct n as [|n']; [lia|].
  change (geometric_from (S (S n')) ?t ?r)
    with (next <- mul t r ;; rest <- geometric_from (S n') next r ;; Ok (t :: rest)).
  rewrite (mul_1e22 e He).
  destruct (Z.gtb_spec (e + 22) Etop) as [Hov|Hin]; [reflexivity|].
  cbn [bind]. rewrite IH; [reflexivity|lia| |lia].
  assert (Etop < e + 22 * (Z.of_nat (S n'))) by lia. lia.
Qed.

Lemma init_overflow_1e22 :
  init (Example.default_config 50000 (of_Z (10 ^ 22))) = Raise Overflow.
Proof.
  unfold init, geometric.
  change (dca_levels (Example.default_config 50000 (of_Z (10 ^ 22)))) with 50000.
  change (dca_amount_ratio_increment (Example.default_config 50000 (of_Z (10 ^ 22))))
    with (of_Z (10 ^ 22)).
  change (to_decimal (of_Z (10 ^ 22))) with (Fin false 10000000000000000000000 0).
  change (to_decimal fone) with (Fin false 1 0).
  assert (Hn : Z.to_nat 50000 = S (S (Z.to_nat 49998))) by lia.
  rewrite Hn.
  assert (Hk : Z.of_nat (Z.to_nat 49998) = 49998) by lia.
  generalize dependent (Z.to_nat 49998). intros k _ Hk.
  assert (H2 : (2 <= k)%nat) by lia.
  destruct k as [|k]; [lia|].
  change (geometric_from (S (S (S k))) ?t ?r)
    with (next <- mul t r ;;
          rest <- (next' <- mul next r ;;
                   rest' <- geometric_from (S k) next' r ;; Ok (next :: rest')) ;;
          Ok (t :: rest)).
  change (mul (Fin false 1 0) (Fin false 10000000000000000000000 0))
    with (Ok (Fin false 10000000000000000000000 0)).
  cbn [bind].
  change (mul (Fin false 10000000000000000000000 0)
              (Fin false 10000000000000000000000 0))
    with (Ok (Fin false 1000000000000000000000000000 17)).
  cbn [bind].
  rewrite geometric_from_overflow; [reflexivity|lia|lia|].
  unfold Etop, Emax, prec. lia.
Qed.

(** C3, within the exponent range of the decimal context: for a growth
    ratio that is a positive finite float and a level count [n >= 1] with
    [n * (2 * span + 6) + 31 <= 999990], where [span] is the reach of the
    ratio as a decimal (for a binary64 ratio: any [n <= 400]; for the ratio
    1.5: any [n <= 124994]), the constructor succeeds; the amounts it
    distributes are the geometric progression with first term 1 and the
    given ratio, each weight is the term divided by [sum] of the terms, and
    the weights sum to 1 within 1e-9, as exact sum and as computed by
    [sum].  For three levels and the ratio 1.0 every weight is
    [Decimal(1) / Decimal(3)]. *)
Theorem weights_normalized :
  forall (c : Config) (m : positive) (e : Z),
    1 <= dca_levels c ->
    dca_amount_ratio_increment c = S754_finite false m e ->
    (valid_binary 53 1024 (dca_amount_ratio_increment c) = true /\
     dca_levels c <= 400) \/
    dca_levels c * (2 * span (to_decimal (dca_amount_ratio_increment c)) + 6) + 31
    <= 999990 ->
    exists self terms total,
      init c = Ok self /\
      geometric (dca_levels c) fone (dca_amount_ratio_increment c) = Ok terms /\
      Z.of_nat (List.length terms) = dca_levels c /\
      hd_error terms = Some (of_int 1) /\
      progression (to_decimal (dca_amount_ratio_increment c)) terms /\
      py_sum terms = Ok total /\
      Forall2 (fun a w => div a total = Ok w /\ positive_finite w)
              terms (dca_amounts_pct self) /\
      (Qabs (sum_values (dca_amounts_pct self) - 1) <= 1 # 1000000000)%Q /\
      (exists s, py_sum (dca_amounts_pct self) = Ok s /\
                 (Qabs (value s - 1) <= 1 # 1000000000)%Q) /\
      (dca_levels c = 3 -> dca_amount_ratio_increment c = fone ->
       exists w, div (of_int 1) (of_int 3) = Ok w /\
                 dca_amounts_pct self = [w; w; w]).
Proof.
  intros c m e Hlo Hratio Hrange.
  assert (W1 : within 1 (to_decimal fone) = true) by reflexivity.
  assert (V1 : (0 < value (to_decimal fone))%Q) by apply to_decimal_positive.
  assert (Vr : (0 < value (to_decimal (dca_amount_ratio_increment c)))%Q)
    by (rewrite Hratio; apply to_decimal_positive).
  assert (HR : exists R,
             within R (to_decimal (dca_amount_ratio_increment c)) = true /\
             1 <= R /\ dca_levels c * (2 * R + 6) + 31 <= 999990).
  { destruct Hrange as [[Hvalid Hhi]|Hb].
    - exists 1074. split; [|split; [lia|lia]].
      rewrite Hratio in *. apply to_decimal_within. exact Hvalid.
    - destruct (within_span (to_decimal (dca_amount_ratio_increment c))) as [Ws Hs].
      + rewrite Hratio. apply to_decimal_positive.
      + eexists. split; [exact Ws|]. split; [exact Hs|exact Hb]. }
  destruct HR as (R & Wr & HR1 & HB).
  set (L := dca_levels c) in *.
  assert (HP0 : 0 <= L * R) by nia.
  assert (HB' : 2 * (L * R) + 6 * L + 31 <= 999990) by lia.
  assert (HLn : Z.of_nat (Z.to_nat L) = L) by lia.
  set (K := 1 + L * (R + 1)).
  assert (HK : K = 1 + L * R + L) by (unfold K; ring).
  destruct (geometric_from_positive R (Z.to_nat L) _ _ 1 W1 Wr V1 Vr
              ltac:(rewrite HLn; fold K; lia))
    as (terms & Hgeo & Lterms & Pterms0 & Gterms & Hhd).
  rewrite HLn in Pterms0. fold K in Pterms0.
  specialize (Hhd ltac:(lia)).
  assert (Pterms : Forall (fun d => within K d = true /\ (0 < value d)%Q) terms)
    by exact Pterms0.
  clear Pterms0.
  assert (Hne : terms <> []) by (intros ->; discriminate).
  assert (HLt : Z.of_nat (List.length terms) = L) by (rewrite Lterms; exact HLn).
  pose proof (positive_nonneg _ terms Pterms) as Nterms.
  pose proof (sum_values_positive _ terms Pterms Hne) as HS.
  destruct half_ulp_small as [Hu0 Hu1].
  assert (Hq : (0 <= inject_Z (Z.of_nat (List.length terms)) /\
                inject_Z (Z.of_nat (List.length terms)) <= 1000000 # 1)%Q).
  { split.
    - change 0%Q with (inject_Z 0). rewrite <- Zle_Qle. lia.
    - change (1000000 # 1)%Q with (inject_Z 1000000).
      rewrite <- Zle_Qle. lia. }
  set (n := inject_Z (Z.of_nat (List.length terms))) in *.
  assert (Hu : (half_ulp == 5 # 10000000000000000000000000000)%Q) by reflexivity.
  assert (Z0 : (value (of_int 0) == 0)%Q) by reflexivity.
  assert (WK0 : within (K + 0) (of_int 0) = true)
    by (apply (within_weaken 1); [reflexivity|lia]).
  assert (Nz : (0 <= value (of_int 0))%Q) by (rewrite Z0; lra).
  assert (Hb1 : K + 0 + 2 * Z.of_nat (List.length terms) <= 999990) by lia.
  destruct (sum_from_bounds K terms (of_int 0) 0 (Z.le_refl 0) WK0 Nz Nterms Hb1)
    as (total & Htotal & Wtotal0 & Tlo & Thi); [fold n; rewrite Hu; lra|].
  set (B := K + 2 * L).
  assert (Wtotal : within B total = true)
    by (apply (within_weaken _ _ _ Wtotal0); unfold B; lia).
  clear Wtotal0.
  fold n in Tlo, Thi. rewrite Z0 in Tlo, Thi.
  assert (HN : (0 <= n * half_ulp /\ n * half_ulp <= 5 # 100000000000)%Q).
  { rewrite Hu. split; lra. }
  set (N := (n * half_ulp)%Q) in *.
  assert (Tlo' : (sum_values terms * (1 - N) <= value total)%Q) by lra.
  assert (Thi' : (value total <= sum_values terms * (1 + 2 * N))%Q)
    by (unfold N; lra).
  assert (Vtotal : (0 < value total)%Q).
  { assert ((0 < sum_values terms * (1 - N))%Q)
      by (apply Qmult_lt_0_compat; lra).
    lra. }
  assert (HKB : K + B + 28 <= 999990) by (unfold B; lia).
  destruct (normalize_bounds K B terms total terms Htotal Wtotal Vtotal HKB Pterms)
    as (ws & Hws & F2 & Wlo & Whi).
  set (Kw := K + B + 29) in *.
  assert (Pws : Forall (fun d => within Kw d = true /\ (0 < value d)%Q) ws).
  { clear - F2. induction F2 as [|a w t ws' (_ & Ww & Vw) _ IH]; constructor;
      [split|]; assumption. }
  pose proof (sum_values_nonneg _ ws (positive_nonneg _ ws Pws)) as HW.
  destruct (normalized_sum_close (sum_values ws) (sum_values terms) (value total)
              N half_ulp HS HW ltac:(lra) ltac:(lra) Hu0 ltac:(lra)
              Tlo' Thi' Wlo Whi) as [Clo Chi].
  assert (Lws : List.length ws = List.length terms)
    by (symmetry; apply (Forall2_length F2)).
  assert (WKw0 : within (Kw + 0) (of_int 0) = true)
    by (apply (within_weaken 1); [reflexivity|unfold Kw, B; lia]).
  assert (Hb2 : Kw + 0 + 2 * Z.of_nat (List.length ws) <= 999990)
    by (rewrite Lws; unfold Kw, B; lia).
  destruct (sum_from_bounds Kw ws (of_int 0) 0 (Z.le_refl 0) WKw0 Nz
              (positive_nonneg _ ws Pws) Hb2)
    as (s & Hs & _ & Slo & Shi);
    [rewrite Lws; fold n; rewrite Hu; lra|].
  rewrite Lws in Slo, Shi. fold n in Slo, Shi. rewrite Z0 in Slo, Shi.
  fold N in Slo.
  assert (WN : (0 <= sum_values ws * N /\
                sum_values ws * N <= sum_values ws * (5 # 100000000000))%Q).
  { split.
    - apply Qmult_le_0_compat; lra.
    - rewrite !(Qmult_comm (sum_values ws)). apply Qmult_le_compat_r; lra. }
  assert (F2' : Forall2 (fun a w => div a total = Ok w /\ positive_finite w) terms ws).
  { eapply Forall2_impl; [|exact F2]. intros a w (Hd & Ww & Vw).
    split; [exact Hd|]. split; [exact (within_finite _ _ Ww)|exact Vw]. }
  eexists. exists terms, total.
  split.
  { unfold init. unfold geometric at 1. fold L. rewrite Hgeo. cbn [bind].
    unfold normalize. rewrite Hws. cbn [bind]. reflexivity. }
  cbn [dca_amounts_pct].
  split; [exact Hgeo|]. split; [exact HLt|]. split; [exact Hhd|].
  split; [exact Gterms|]. split; [exact Htotal|]. split; [exact F2'|].
  split; [apply Qabs_Qle_condition; lra|].
  split.
  { exists s. split; [exact Hs|]. apply Qabs_Qle_condition.
    unfold N in *. split; lra. }
  intros H3 Hone. unfold geometric in Hgeo. rewrite H3, Hone in Hgeo.
  vm_compute in Hgeo. apply Ok_inj in Hgeo. subst terms.
  vm_compute in Htotal. apply Ok_inj in Htotal. subst total.
  clear - F2'.
  inversion F2' as [|a0 w0 t0 ws0 [D0 _] F2a]; subst.
  inversion F2a as [|a1 w1 t1 ws1 [D1 _] F2b]; subst.
  inversion F2b as [|a2 w2 t2 ws2 [D2 _] F2c]; subst.
  inversion F2c; subst.
  vm_compute in D0, D1, D2.
  apply Ok_inj in D0, D1, D2. subst w0 w1 w2.
  eexists. split; [vm_compute; reflexivity|reflexivity].
Qed.

Lemma weights_normalized_witness :
  exists self w,
    init (Example.default_config 3 fone) = Ok self /\
    div (of_int 1) (of_int 3) = Ok w /\
    dca_amounts_pct self = [w; w; w] /\
    (Qabs (sum_values (dca_amounts_pct self) - 1) <= 1 # 1000000000)%Q.
Proof.
  assert (Hlo : 1 <= dca_levels (Example.default_config 3 fone)) by (simpl; lia).
  assert (Hhi : dca_levels (Example.default_config 3 fone) <= 400) by (simpl; lia).
  destruct (weights_normalized (Example.default_config 3 fone)
              4503599627370496%positive (-52) Hlo eq_refl
              (or_introl (conj eq_refl Hhi)))
    as (self & terms & total & Hinit & _ & _ & _ & _ & _ & _ & Hsum & _ & Hex).
  destruct (Hex eq_refl eq_refl) as (w & Hw & Hws).
  exists self, w. repeat split; assumption.
Defined.

(** C3 as stated fails at the limits of the decimal context: with the
    positive ratio 1e22 and 50000 levels the terms of the progression leave
    the exponent range and the constructor ends with Overflow; with the
    positive ratio +inf and 2 levels the normalisation divides an infinity
    by an infinity and the constructor ends with InvalidOperation. *)
Lemma weights_normalized_counterexample :
  (1 <= dca_levels (Example.default_config 50000 (of_Z (10 ^ 22))) /\
   fltb fzero (of_Z (10 ^ 22)) = true /\
   valid_binary 53 1024 (of_Z (10 ^ 22)) = true /\
   init (Example.default_config 50000 (of_Z (10 ^ 22))) = Raise Overflow) /\
  (1 <= dca_levels (Example.default_config 2 (S754_infinity false)) /\
   fltb fzero (S754_infinity false) = true /\
   geometric 2 fone (S754_infinity false) = Ok [of_int 1; Inf false] /\
   init (Example.default_config 2 (S754_infinity false)) = Raise InvalidOperation).
Proof.
  split.
  - split; [simpl; lia|]. split; [vm_compute; reflexivity|].
    split; [vm_compute; reflexivity|]. exact init_overflow_1e22.
  - split; [simpl; lia|]. repeat split; vm_compute; reflexivity.
Qed.

(** ** Further properties of the ladder *)

Lemma mapM_length {A B : Type} (f : A -> result B) (l : list A) (ys : list B) :
  mapM f l = Ok ys -> List.length ys = List.length l.
Proof.
  intros H. apply mapM_Forall2 in H. symmetry. exact (Forall2_length H).
Qed.

(** X1: a call that returns has emitted one price per level
    0 .. dca_levels-1 (none for a level count below 1) and one amount per
    pair of a weight and a price: when the controller holds fewer weights
    than [dca_levels] (or more), the amounts stop at the shorter of the
    two, as [zip] does. *)
Theorem get_executor_config_lengths :
  forall (E : Externals) (now : float) (level_id : string)
         (price amount : decimal) (self : Controller) (x : DCAExecutorConfig),
    fst (get_executor_config E now level_id price amount self) = Ok x ->
    List.length (x_prices x) = Z.to_nat (dca_levels (config self)) /\
    List.length (x_amounts_quote x)
    = Nat.min (List.length (dca_amounts_pct self))
              (Z.to_nat (dca_levels (config self))).
Proof.
  intros E now level_id price amount self x.
  unfold get_executor_config. cbn [fst].
  destruct (processed_data self) as [pd|]; [|discriminate].
  destruct (mapM _ (range _)) as [prices|] eqn:Hprices; cbn [bind]; [|discriminate].
  destruct (mapM _ (combine _ _)) as [amounts|] eqn:Hamounts; cbn [bind];
    [|discriminate].
  intros H. apply Ok_inj in H. subst x. cbn [x_prices x_amounts_quote].
  apply mapM_length in Hprices, Hamounts.
  rewrite range_length in Hprices. rewrite length_combine in Hamounts.
  split; [exact Hprices|]. rewrite Hamounts, Hprices. reflexivity.
Qed.

Lemma get_executor_config_lengths_witness :
  exists x,
    fst (get_executor_config Example.quiet Example.now "buy_0" (of_int 100)
           (of_int 10)
           (Example.controller (Example.default_config 5 fone)
              [Example.third; Example.third; Example.third] (Fin false 1 (-2))))
    = Ok x /\
    List.length (x_prices x) = 5%nat /\
    List.length (x_amounts_quote x) = 3%nat.
Proof.
  eexists. split; [vm_compute; reflexivity|].
  exact (get_executor_config_lengths Example.quiet Example.now "buy_0" (of_int 100)
           (of_int 10)
           (Example.controller (Example.default_config 5 fone)
              [Example.third; Example.third; Example.third] (Fin false 1 (-2)))
           _ ltac:(vm_compute; reflexivity)).
Defined.

(** X2: [get_executor_config] raises KeyError exactly when no signal cycle
    has stored [processed_data] yet: always on a controller fresh from the
    constructor, never after a completed [update_processed_data]. *)
Theorem get_executor_config_KeyError :
  forall (E : Externals) (now : float) (level_id : string)
         (price amount : decimal) (self : Controller),
    (fst (get_executor_config E now level_id price amount self) = Raise KeyError
     <-> processed_data self = None) /\
    (forall c, init c = Ok self ->
       fst (get_executor_config E now level_id price amount self) = Raise KeyError) /\
    (forall E', fst (update_processed_data E' self) = Ok tt ->
       fst (get_executor_config E now level_id price amount
              (snd (update_processed_data E' self))) <> Raise KeyError).
Proof.
  intros E now level_id price amount self.
  assert (Hiff : forall s : Controller,
             fst (get_executor_config E now level_id price amount s) = Raise KeyError
             <-> processed_data s = None).
  { intros s. split.
    - intros H. destruct (processed_data s) as [pd|] eqn:Hpd; [|reflexivity].
      exfalso. unfold get_executor_config in H. rewrite Hpd in H. cbn [fst] in H.
      apply (bind_raises (fun e => e = InvalidOperation \/ e = Overflow)) in H.
      + destruct H; discriminate.
      + intros e'. apply (mapM_raises (fun e => e = InvalidOperation \/ e = Overflow)).
        intros n e''. apply level_price_raises.
      + intros prices e' _ H1.
        apply (bind_raises (fun e => e = InvalidOperation \/ e = Overflow)) in H1;
          [exact H1| |].
        * intros e''. apply (mapM_raises (fun e => e = InvalidOperation \/ e = Overflow)).
          intros [w p] e3. apply level_amount_raises.
        * intros amounts e'' _ H2. discriminate.
    - intros H. unfold get_executor_config. rewrite H. reflexivity. }
  split; [apply Hiff|]. split.
  - intros c Hc. apply Hiff. unfold init in Hc.
    destruct (geometric _ _ _) as [amounts|]; cbn [bind] in Hc; [|discriminate].
    destruct (normalize amounts) as [pct|]; cbn [bind] in Hc; [|discriminate].
    apply Ok_inj in Hc. subst self. reflexivity.
  - intros E' Hok H. apply Hiff in H.
    destruct (update_processed_data_Ok E' self Hok) as (pd & _ & Hu).
    rewrite Hu in H. discriminate.
Qed.

Lemma is_zero_value (d : decimal) : is_zero d = true -> (value d == 0)%Q.
Proof.
  destruct d as [s c e| |]; try discriminate. simpl.
  intros H. apply N.eqb_eq in H. subst c.
  destruct s; cbn [signed Z.of_N Z.opp]; change (inject_Z 0) with 0%Q; ring.
Qed.

Lemma rounds_to_one (x r : Q) : (x == 1)%Q -> rounds_to x r -> (r == 1)%Q.
Proof.
  intros Hx Hr.
  assert (H1 : rounds_to 1 1).
  { exists 1, 0. rewrite (rz_small 1) by reflexivity. split; reflexivity. }
  exact (rounds_to_fun x r 1 1 Hr H1 Hx).
Qed.

(** A decimal of at most 28 digits is its own rounding. *)
Lemma rounds_to_self (d : decimal) : digits d <= 28 -> rounds_to (value d) (value d).
Proof.
  destruct d as [s c e| |]; cbn [digits value]; intros H;
    [|apply rounds_to_zero|apply rounds_to_zero].
  apply rounds_to_exact. rewrite abs_signed by lia.
  apply excess_small. exact H.
Qed.

(** A level whose offset [n * scalar * sm] is zero is priced at the target
    price, rounded. *)
Lemma level_price_zero_offset (side : TradeType) (price scalar sm : decimal) (n : Z) :
  moderate price = true -> moderate scalar = true -> moderate sm = true ->
  0 <= n < 10 ^ 18 ->
  (inject_Z n * value scalar * value sm == 0)%Q ->
  exists p, level_price side price scalar sm n = Ok p /\ is_finite p = true /\
            rounds_to (value price) (value p).
Proof.
  intros Hp Hs Hm Hn Hz.
  destruct (level_price_moderate side price scalar sm n Hp Hs Hm Hn)
    as (ns & off & f & p & _ & _ & _ & _ & Hlp & _ & _ & _ & Fp
        & Rn & Ro & Rf & Rp & _).
  exists p. split; [exact Hlp|]. split; [exact Fp|].
  assert (Hoff : (value off == 0)%Q).
  { apply (rounds_to_fun _ _ 0 0 Ro rounds_to_zero)%Q.
    apply Qmult_integral in Hz. destruct Hz as [Hz|Hz].
    - rewrite (rounds_to_fun _ _ 0 0 Rn rounds_to_zero Hz)%Q. ring.
    - rewrite Hz. ring. }
  assert (Hf : (value f == 1)%Q).
  { apply (rounds_to_one _ _) in Rf; [exact Rf|].
    destruct side; rewrite Hoff; ring. }
  rewrite Hf in Rp.
  assert (E : (value price * 1 == value price)%Q) by ring.
  rewrite E in Rp. exact Rp.
Qed.

(** X3: on inputs far from the exponent limits, the first level of every
    ladder is at the target price, whatever the side, the scalar and the
    spread multiplier: its price is the target price rounded to the context
    precision, and equals it when the target price has at most 28
    digits. *)
Theorem first_level_at_target_price :
  forall (E : Externals) (now : float) (level_id : string)
         (price amount : decimal) (self : Controller) (pd : ProcessedData),
    processed_data self = Some pd ->
    moderate price = true -> moderate amount = true ->
    moderate (dca_spread_scalar (config self)) = true ->
    moderate (spread_multiplier pd) = true ->
    Forall (fun w => moderate w = true) (dca_amounts_pct self) ->
    1 <= dca_levels (config self) <= 10 ^ 18 ->
    exists x p0 rest,
      fst (get_executor_config E now level_id price amount self) = Ok x /\
      x_prices x = p0 :: rest /\
      (Qabs (value p0 - value price) <= half_ulp * Qabs (value price))%Q /\
      (digits price <= 28 -> eqb p0 price = true).
Proof.
  intros E now level_id price amount self pd Hpd Hp Ha Hs Hm Hw [Hlo Hhi].
  destruct (get_executor_config_moderate E now level_id price amount self pd
              Hpd Hp Ha Hs Hm Hw Hhi) as (x & Hx & _ & Hprices & _ & _ & _).
  assert (L0 : (0 < Z.to_nat (dca_levels (config self)))%nat) by lia.
  destruct (Forall2_nth_l _ _ _ Hprices 0%nat _ (range_nth _ 0%nat L0))
    as (p0 & E0 & V0).
  destruct (x_prices x) as [|q rest] eqn:Epr; [discriminate|].
  simpl in E0. inversion E0; subst q.
  exists x, p0, rest. split; [exact Hx|]. split; [exact Epr|].
  destruct (level_price_zero_offset (x_side x) price _ _ 0 Hp Hs Hm ltac:(lia))
    as (p & Hlp & Fp & Rp).
  { change (inject_Z 0) with 0%Q. ring. }
  change (Z.of_nat 0) with 0 in V0. rewrite V0 in Hlp. apply Ok_inj in Hlp. subst p.
  split; [apply rounds_to_error; exact Rp|].
  intros Hd. apply eqb_finite; [exact Fp|apply moderate_finite; exact Hp|].
  exact (rounds_to_fun _ _ _ _ Rp (rounds_to_self price Hd) (Qeq_refl _)).
Qed.

Lemma first_level_at_target_price_witness :
  exists x p0 rest,
    fst (get_executor_config Example.quiet Example.now "sell_0" (of_int 100)
           (of_int 10) (Example.ladder3 (Fin false 1 (-2)))) = Ok x /\
    x_prices x = p0 :: rest /\
    eqb p0 (of_int 100) = true.
Proof.
  destruct (first_level_at_target_price Example.quiet Example.now "sell_0"
              (of_int 100) (of_int 10) (Example.ladder3 (Fin false 1 (-2)))
              {| reference_price := of_int 100; spread_multiplier := Fin false 1 (-2) |}
              eq_refl eq_refl eq_refl eq_refl eq_refl ltac:(repeat constructor)
              ltac:(simpl; lia))
    as (x & p0 & rest & Hx & Hp & _ & He).
  exists x, p0, rest. split; [exact Hx|]. split; [exact Hp|].
  apply He. vm_compute. discriminate.
Defined.

(** X4: when the spread multiplier or the scalar is zero the ladder is
    flat: every level, on either side, has the target price rounded to the
    context precision (the target price itself when it has at most 28
    digits), so all level prices are equal. *)
Theorem zero_spread_flat_ladder :
  forall (E : Externals) (now : float) (level_id : string)
         (price amount : decimal) (self : Controller) (pd : ProcessedData),
    processed_data self = Some pd ->
    moderate price = true -> moderate amount = true ->
    moderate (dca_spread_scalar (config self)) = true ->
    moderate (spread_multiplier pd) = true ->
    Forall (fun w => moderate w = true) (dca_amounts_pct self) ->
    dca_levels (config self) <= 10 ^ 18 ->
    is_zero (spread_multiplier pd) = true \/
    is_zero (dca_spread_scalar (config self)) = true ->
    exists x,
      fst (get_executor_config E now level_id price amount self) = Ok x /\
      (forall p q, In p (x_prices x) -> In q (x_prices x) -> eqb p q = true) /\
      (digits price <= 28 -> forall p, In p (x_prices x) -> eqb p price = true).
Proof.
  intros E now level_id price amount self pd Hpd Hp Ha Hs Hm Hw Hlev Hz.
  destruct (get_executor_config_moderate E now level_id price amount self pd
              Hpd Hp Ha Hs Hm Hw Hlev) as (x & Hx & _ & Hprices & _ & _ & _).
  exists x. split; [exact Hx|].
  assert (Hall : forall p, In p (x_prices x) ->
                   is_finite p = true /\ rounds_to (value price) (value p)).
  { intros p Hin. apply In_nth_error in Hin. destruct Hin as [i Hi].
    destruct (Forall2_nth_r _ _ _ Hprices i p Hi) as (n & Hn & Hlp).
    apply range_nth_inv in Hn. destruct Hn as [-> Hn].
    destruct (level_price_zero_offset (x_side x) price _ _ (Z.of_nat i) Hp Hs Hm
                ltac:(lia)) as (p' & Hlp' & Fp & Rp).
    { destruct Hz as [Hz|Hz]; apply is_zero_value in Hz; rewrite Hz; ring. }
    rewrite Hlp in Hlp'. apply Ok_inj in Hlp'. subst p'. split; assumption. }
  split.
  - intros p q Hp' Hq'.
    destruct (Hall p Hp') as [Fp Rp]. destruct (Hall q Hq') as [Fq Rq].
    apply eqb_finite; [exact Fp|exact Fq|].
    exact (rounds_to_fun _ _ _ _ Rp Rq (Qeq_refl _)).
  - intros Hd p Hp'. destruct (Hall p Hp') as [Fp Rp].
    apply eqb_finite; [exact Fp|apply moderate_finite; exact Hp|].
    exact (rounds_to_fun _ _ _ _ Rp (rounds_to_self price Hd) (Qeq_refl _)).
Qed.

Lemma zero_spread_flat_ladder_witness :
  exists x,
    fst (get_executor_config Example.quiet Example.now "buy_0" (of_int 100)
           (of_int 10) (Example.ladder3 (of_int 0))) = Ok x /\
    forall p, In p (x_prices x) -> eqb p (of_int 100) = true.
Proof.
  destruct (zero_spread_flat_ladder Example.quiet Example.now "buy_0"
              (of_int 100) (of_int 10) (Example.ladder3 (of_int 0))
              {| reference_price := of_int 100; spread_multiplier := of_int 0 |}
              eq_refl eq_refl eq_refl eq_refl eq_refl ltac:(repeat constructor)
              ltac:(simpl; lia) (or_introl eq_refl))
    as (x & Hx & _ & He).
  exists x. split; [exact Hx|].
  apply He. vm_compute. discriminate.
Defined.



(** Rounding as a relative perturbation: [r = x * (1 + d)] with
    [|d| <= half_ulp]. *)
Lemma rounds_to_factor (x r : Q) :
  rounds_to x r ->
  exists d : Q, (- half_ulp <= d /\ d <= half_ulp /\ r == x * (1 + d))%Q.
Proof.
  intros H. pose proof (rounds_to_error x r H) as He.
  destruct half_ulp_small as [Hu0 Hu1].
  destruct (Qlt_le_dec 0 x) as [Hpos|Hle].
  - rewrite (Qabs_pos x) in He by lra. apply Qabs_Qle_condition in He.
    exists ((r - x) / x)%Q. split; [|split].
    + apply Qle_shift_div_l; [exact Hpos|]. lra.
    + apply Qle_shift_div_r; [exact Hpos|]. lra.
    + field. lra.
  - destruct (Qlt_le_dec x 0) as [Hneg|Hge].
    + rewrite (Qabs_neg x) in He by lra. apply Qabs_Qle_condition in He.
      exists ((x - r) / (- x))%Q. split; [|split].
      * apply Qle_shift_div_l; [lra|]. lra.
      * apply Qle_shift_div_r; [lra|]. lra.
      * field. lra.
    + assert (Hx : (x == 0)%Q) by lra.
      exists 0%Q. split; [lra|]. split; [lra|].
      rewrite (rounds_to_fun x r 0 0 H rounds_to_zero Hx), Hx. ring.
Qed.

Lemma Qmult_le_l_weak (x y z : Q) : (0 <= z -> x <= y -> z * x <= z * y)%Q.
Proof.
  intros Hz H. rewrite !(Qmult_comm z). apply Qmult_le_compat_r; assumption.
Qed.

Lemma two_roundings (u d1 d2 : Q) :
  (0 <= u -> u <= 1 # 100 -> - u <= d1 -> d1 <= u -> - u <= d2 -> d2 <= u ->
   Qabs ((1 + d1) * (1 + d2) - 1) <= (201 # 100) * u)%Q.
Proof.
  intros Hu0 Hu1 A1 B1 A2 B2. apply Qabs_Qle_condition.
  assert (H1 : (0 <= (u - d1) * (u - d2))%Q) by (apply Qmult_le_0_compat; lra).
  assert (H2 : (0 <= (u + d1) * (u + d2))%Q) by (apply Qmult_le_0_compat; lra).
  assert (H3 : (0 <= (u - d1) * (u + d2))%Q) by (apply Qmult_le_0_compat; lra).
  assert (H4 : (0 <= (u + d1) * (u - d2))%Q) by (apply Qmult_le_0_compat; lra).
  assert (H5 : (u * u <= (1 # 100) * u)%Q) by (apply Qmult_le_compat_r; lra).
  split; nra.
Qed.

(** The computed price of a level against the exact value of the formula:
    four roundings, at most five half units in the last place of
    [price * (1 + |offset|)]. *)
Lemma level_price_error (side : TradeType) (price scalar sm : decimal) (n : Z)
    (p : decimal) :
  moderate price = true -> moderate scalar = true -> moderate sm = true ->
  0 <= n < 10 ^ 18 ->
  level_price side price scalar sm n = Ok p ->
  let t := (inject_Z n * value scalar * value sm)%Q in
  (Qabs (value p - value price * match side with
                                 | BUY => 1 - t
                                 | SELL => 1 + t
                                 end)
   <= 5 * half_ulp * Qabs (value price) * (1 + Qabs t))%Q.
Proof.
  intros Hp Hs Hm Hn Hlp t.
  destruct (level_price_moderate side price scalar sm n Hp Hs Hm Hn)
    as (ns & off & f & p' & _ & _ & _ & _ & Hlp' & _ & _ & _ & _
        & Rn & Ro & Rf & Rp & _).
  rewrite Hlp in Hlp'. apply Ok_inj in Hlp'. subst p'.
  destruct (rounds_to_factor _ _ Rn) as (d1 & A1 & B1 & E1).
  destruct (rounds_to_factor _ _ Ro) as (d2 & A2 & B2 & E2).
  destruct (rounds_to_factor _ _ Rf) as (d3 & A3 & B3 & E3).
  destruct (rounds_to_factor _ _ Rp) as (d4 & A4 & B4 & E4).
  assert (Hu0 : (0 <= half_ulp)%Q) by (vm_compute; discriminate).
  assert (Hu1 : (half_ulp <= 1 # 100)%Q) by (vm_compute; discriminate).
  pose proof (two_roundings half_ulp d1 d2 Hu0 Hu1 A1 B1 A2 B2) as H12.
  pose proof (two_roundings half_ulp d3 d4 Hu0 Hu1 A3 B3 A4 B4) as H34.
  set (u := half_ulp) in *.
  set (e12 := ((1 + d1) * (1 + d2) - 1)%Q) in *.
  set (e34 := ((1 + d3) * (1 + d4) - 1)%Q) in *.
  set (P := value price) in *.
  assert (Eoff : (value off == t * (1 + e12))%Q).
  { rewrite E2, E1. unfold t, e12. ring. }
  set (sg := match side with BUY => (- (1))%Q | SELL => 1%Q end).
  assert (Ef : (value f == (1 + sg * value off) * (1 + d3))%Q).
  { rewrite E3. unfold sg. destruct side; ring. }
  assert (Hsg : (Qabs sg == 1)%Q) by (unfold sg; destruct side; reflexivity).
  assert (Egoal : (value p - P * match side with
                                 | BUY => 1 - t
                                 | SELL => 1 + t
                                 end
                   == P * (e34 + sg * t * (e12 + e34 + e12 * e34)))%Q).
  { rewrite E4, Ef, Eoff. unfold e34, sg. destruct side; ring. }
  rewrite Egoal, Qabs_Qmult.
  assert (He : (Qabs (e12 + e34 + e12 * e34) <= (41 # 10) * u)%Q).
  { apply Qabs_Qle_condition in H12, H34. apply Qabs_Qle_condition.
    assert (K1 : (0 <= ((201 # 100) * u - e12) * ((201 # 100) * u - e34))%Q)
      by (apply Qmult_le_0_compat; lra).
    assert (K2 : (0 <= ((201 # 100) * u + e12) * ((201 # 100) * u + e34))%Q)
      by (apply Qmult_le_0_compat; lra).
    assert (K3 : (0 <= ((201 # 100) * u - e12) * ((201 # 100) * u + e34))%Q)
      by (apply Qmult_le_0_compat; lra).
    assert (K4 : (0 <= ((201 # 100) * u + e12) * ((201 # 100) * u - e34))%Q)
      by (apply Qmult_le_0_compat; lra).
    assert (K5 : (u * u <= (1 # 100) * u)%Q) by (apply Qmult_le_compat_r; lra).
    split; nra. }
  assert (Hin : (Qabs (e34 + sg * t * (e12 + e34 + e12 * e34))
                 <= (201 # 100) * u + Qabs t * ((41 # 10) * u))%Q).
  { eapply Qle_trans; [apply Qabs_triangle|].
    rewrite !Qabs_Qmult, Hsg.
    pose proof (Qabs_nonneg t) as Ht.
    assert ((1 * Qabs t * Qabs (e12 + e34 + e12 * e34)
             <= 1 * Qabs t * ((41 # 10) * u))%Q)
      by (apply Qmult_le_l_weak; [lra|exact He]).
    lra. }
  pose proof (Qabs_nonneg P) as HP. pose proof (Qabs_nonneg t) as Ht.
  set (aP := Qabs P) in *. set (at' := Qabs t) in *.
  set (X := Qabs (e34 + sg * t * (e12 + e34 + e12 * e34))) in *.
  assert (H1 : (aP * X <= aP * ((201 # 100) * u + at' * ((41 # 10) * u)))%Q)
    by (apply Qmult_le_l_weak; [exact HP|exact Hin]).
  assert (H2 : (0 <= aP * u)%Q) by (apply Qmult_le_0_compat; lra).
  assert (H3 : (0 <= aP * u * at')%Q) by (apply Qmult_le_0_compat; lra).
  nra.
Qed.

(** X6: on inputs far from the exponent limits every level price is the
    exact value of [price * (1 -/+ n * dca_spread_scalar * spread_multiplier)]
    up to the four roundings of the computation: the distance is at most
    five half units in the last place (5 * 5e-28) of
    [|price| * (1 + |n * dca_spread_scalar * spread_multiplier|)]. *)
Theorem level_prices_accurate :
  forall (E : Externals) (now : float) (level_id : string)
         (price amount : decimal) (self : Controller) (pd : ProcessedData),
    processed_data self = Some pd ->
    moderate price = true -> moderate amount = true ->
    moderate (dca_spread_scalar (config self)) = true ->
    moderate (spread_multiplier pd) = true ->
    Forall (fun w => moderate w = true) (dca_amounts_pct self) ->
    dca_levels (config self) <= 10 ^ 18 ->
    exists x,
      fst (get_executor_config E now level_id price amount self) = Ok x /\
      forall (n : nat) (p : decimal),
        nth_error (x_prices x) n = Some p ->
        let t := (inject_Z (Z.of_nat n) * value (dca_spread_scalar (config self))
                  * value (spread_multiplier pd))%Q in
        (Qabs (value p - value price * match x_side x with
                                       | BUY => 1 - t
                                       | SELL => 1 + t
                                       end)
         <= 5 * half_ulp * Qabs (value price) * (1 + Qabs t))%Q.
Proof.
  intros E now level_id price amount self pd Hpd Hp Ha Hs Hm Hw Hlev.
  destruct (get_executor_config_moderate E now level_id price amount self pd
              Hpd Hp Ha Hs Hm Hw Hlev) as (x & Hx & _ & Hprices & _ & _ & _).
  exists x. split; [exact Hx|].
  intros n p Hn.
  destruct (Forall2_nth_r _ _ _ Hprices n p Hn) as (k & Hk & Hlp).
  apply range_nth_inv in Hk. destruct Hk as [-> Hk].
  apply (level_price_error (x_side x) price _ _ (Z.of_nat n) p Hp Hs Hm ltac:(lia) Hlp).
Qed.

Lemma level_prices_accurate_witness :
  exists x,
    fst (get_executor_config Example.quiet Example.now "buy_0" (of_int 100)
           (of_int 10) (Example.ladder3 (Fin false 1 (-2)))) = Ok x /\
    forall (n : nat) (p : decimal),
      nth_error (x_prices x) n = Some p ->
      let t := (inject_Z (Z.of_nat n) * value (of_int 2) * value (Fin false 1 (-2)))%Q in
      (Qabs (value p - value (of_int 100) * match x_side x with
                                            | BUY => 1 - t
                                            | SELL => 1 + t
                                            end)
       <= 5 * half_ulp * Qabs (value (of_int 100)) * (1 + Qabs t))%Q.
Proof.
  exact (level_prices_accurate Example.quiet Example.now "buy_0"
           (of_int 100) (of_int 10) (Example.ladder3 (Fin false 1 (-2)))
           {| reference_price := of_int 100; spread_multiplier := Fin false 1 (-2) |}
           eq_refl eq_refl eq_refl eq_refl eq_refl ltac:(repeat constructor)
           ltac:(simpl; lia)).
Defined.

(** X16: on inputs far from the exponent limits every amount is
    [amount * weight * price] of its level, with the level's emitted price,
    up to the two roundings of the two products: a relative error of at
    most 2.01 half units in the last place (2.01 * 5e-28). *)
Theorem level_amounts_accurate :
  forall (E : Externals) (now : float) (level_id : string)
         (price amount : decimal) (self : Controller) (pd : ProcessedData),
    processed_data self = Some pd ->
    moderate price = true -> moderate amount = true ->
    moderate (dca_spread_scalar (config self)) = true ->
    moderate (spread_multiplier pd) = true ->
    Forall (fun w => moderate w = true) (dca_amounts_pct self) ->
    dca_levels (config self) <= 10 ^ 18 ->
    exists x,
      fst (get_executor_config E now level_id price amount self) = Ok x /\
      forall (n : nat) (w p a : decimal),
        nth_error (dca_amounts_pct self) n = Some w ->
        nth_error (x_prices x) n = Some p ->
        nth_error (x_amounts_quote x) n = Some a ->
        (Qabs (value a - value amount * value w * value p)
         <= (201 # 100) * half_ulp * Qabs (value amount * value w * value p))%Q.
Proof.
  intros E now level_id price amount self pd Hpd Hp Ha Hs Hm Hw Hlev.
  destruct (get_executor_config_moderate E now level_id price amount self pd
              Hpd Hp Ha Hs Hm Hw Hlev) as (x & Hx & _ & Hprices & Hamounts & _ & _).
  exists x. split; [exact Hx|].
  intros n w p a Hwn Hpn Han.
  destruct (Forall2_nth_l _ _ _ Hamounts n _ (nth_error_combine _ _ n w p Hwn Hpn))
    as (a' & Han' & Hla).
  rewrite Han in Han'. inversion Han'; subst a'. cbn [fst snd] in Hla.
  destruct (Forall2_nth_r _ _ _ Hprices n p Hpn) as (k & Hk & Hlp).
  apply range_nth_inv in Hk. destruct Hk as [-> Hk].
  destruct (level_price_moderate (x_side x) price _ _ (Z.of_nat n) Hp Hs Hm
              ltac:(lia))
    as (_ & _ & _ & p' & _ & _ & _ & _ & Hlp' & _ & _ & _ & _ & _ & _ & _ & _ & Wp).
  rewrite Hlp in Hlp'. apply Ok_inj in Hlp'. subst p'.
  rewrite Forall_forall in Hw. pose proof (Hw w (nth_error_In _ _ Hwn)) as Ww.
  destruct (level_amount_moderate amount w p Ha Ww Wp)
    as (ap & a' & _ & _ & Hla' & _ & _ & Rap & Ra).
  rewrite Hla in Hla'. apply Ok_inj in Hla'. subst a'.
  destruct (rounds_to_factor _ _ Rap) as (d1 & A1 & B1 & E1).
  destruct (rounds_to_factor _ _ Ra) as (d2 & A2 & B2 & E2).
  assert (Hu0 : (0 <= half_ulp)%Q) by (vm_compute; discriminate).
  assert (Hu1 : (half_ulp <= 1 # 100)%Q) by (vm_compute; discriminate).
  pose proof (two_roundings half_ulp d1 d2 Hu0 Hu1 A1 B1 A2 B2) as H12.
  set (T := (value amount * value w * value p)%Q).
  assert (Eg : (value a - T == T * ((1 + d1) * (1 + d2) - 1))%Q).
  { rewrite E2, E1. unfold T. ring. }
  rewrite Eg, Qabs_Qmult.
  rewrite (Qmult_comm ((201 # 100) * half_ulp)).
  apply Qmult_le_l_weak; [apply Qabs_nonneg|exact H12].
Qed.

Lemma level_amounts_accurate_witness :
  exists x,
    fst (get_executor_config Example.quiet Example.now "buy_0" (of_int 100)
           (of_int 10) (Example.ladder3 (Fin false 1 (-2)))) = Ok x /\
    forall (n : nat) (w p a : decimal),
      nth_error [Example.third; Example.third; Example.third] n = Some w ->
      nth_error (x_prices x) n = Some p ->
      nth_error (x_amounts_quote x) n = Some a ->
      (Qabs (value a - value (of_int 10) * value w * value p)
       <= (201 # 100) * half_ulp * Qabs (value (of_int 10) * value w * value p))%Q.
Proof.
  exact (level_amounts_accurate Example.quiet Example.now "buy_0"
           (of_int 100) (of_int 10) (Example.ladder3 (Fin false 1 (-2)))
           {| reference_price := of_int 100; spread_multiplier := Fin false 1 (-2) |}
           eq_refl eq_refl eq_refl eq_refl eq_refl ltac:(repeat constructor)
           ltac:(simpl; lia)).
Defined.

(** ** Further properties of the signal computation *)












(** ** Further properties of the constructor *)

(** X10: what a successful construction leaves behind.  The record count
    exceeds each indicator length by at least 10; [processed_data] is empty;
    the configuration always declares a candles feed afterwards: a given
    [candles_config] is kept and the configuration is unchanged, an empty one
    is replaced by the single feed (candles_connector, candles_trading_pair,
    interval, max_records), which is then exactly the feed every signal
    cycle requests.  Constructing again from the resulting configuration
    gives the same controller. *)
Theorem init_candles_feed :
  forall (c : Config) (self : Controller),
    init c = Ok self ->
    (macd_slow c + 10 <= max_records self /\ macd_fast c + 10 <= max_records self /\
     macd_signal c + 10 <= max_records self /\ natr_length c + 10 <= max_records self) /\
    processed_data self = None /\
    candles_config (config self) <> [] /\
    (candles_config c <> [] -> config self = c) /\
    (candles_config c = [] ->
     exists feed,
       candles_config (config self) = [feed] /\
       forall E : Externals,
         cycle_candles E self
         = get_candles_df E (cc_connector feed) (cc_trading_pair feed)
             (cc_interval feed) (cc_max_records feed)) /\
    init (config self) = Ok self.
Proof.
  intros c self Hinit. unfold init in Hinit.
  destruct (geometric (dca_levels c) fone (dca_amount_ratio_increment c))
    as [amounts|] eqn:Hgeo; cbn [bind] in Hinit; [|discriminate].
  destruct (normalize amounts) as [pct|] eqn:Hnorm; cbn [bind] in Hinit;
    [|discriminate].
  apply Ok_inj in Hinit. subst self. cbn [config max_records processed_data].
  split; [unfold required_records; lia|]. split; [reflexivity|].
  destruct (candles_config c) as [|d ds] eqn:Hcc.
  - split; [discriminate|]. split; [intros H; contradiction|]. split.
    + intros _. eexists. split; [reflexivity|]. intros E. reflexivity.
    + unfold init. cbn [set_candles_config dca_levels dca_amount_ratio_increment
                        candles_config].
      rewrite Hgeo. cbn [bind]. rewrite Hnorm. cbn [bind]. reflexivity.
  - split; [rewrite Hcc; discriminate|]. split; [reflexivity|].
    split; [intros H; discriminate|].
    unfold init. rewrite Hgeo. cbn [bind]. rewrite Hnorm. cbn [bind].
    rewrite Hcc. reflexivity.
Qed.

Lemma init_candles_feed_witness :
  candles_config (config Example.short_controller)
  = [ {| cc_connector := "binance"; cc_trading_pair := "BTC-USDT";
         cc_interval := "3m"; cc_max_records := 12 |} ] /\
  init (config Example.short_controller) = Ok Example.short_controller.
Proof.
  destruct (init_candles_feed Example.short_config Example.short_controller
              ltac:(vm_compute; reflexivity))
    as (_ & _ & _ & _ & Hfeed & Hagain).
  split; [|exact Hagain].
  destruct (Hfeed eq_refl) as (feed & Hf & _).
  vm_compute. reflexivity.
Defined.

Lemma normalize_Ok (l ws : list decimal) (a0 : decimal) :
  normalize l = Ok ws -> In a0 l ->
  exists total,
    py_sum l = Ok total /\
    Forall2 (fun a w => div a total = Ok w) l ws.
Proof.
  intros H Hin. unfold normalize in H.
  destruct (py_sum l) as [total|e] eqn:Hsum.
  - exists total. split; [reflexivity|].
    apply mapM_Forall2 in H. eapply Forall2_impl; [|exact H].
    intros a w Hw. exact Hw.
  - exfalso. destruct l as [|a t]; [contradiction|].
    cbn [mapM bind] in H. discriminate.
Qed.

(** X11: the normalisation of the distributed amounts at its edges.  An
    empty list gives no weights (the sum is not even taken); a successful
    normalisation returns one weight per amount, each the amount divided by
    the same [sum]; amounts that sum to zero make it fail with
    DivisionByZero, or with InvalidOperation when the first amount is itself
    zero. *)
Theorem normalize_edges :
  forall (l : list decimal),
    (l = [] -> normalize l = Ok []) /\
    (forall ws, normalize l = Ok ws -> l <> [] ->
       List.length ws = List.length l /\
       exists total,
         py_sum l = Ok total /\
         Forall2 (fun a w => div a total = Ok w) l ws) /\
    (forall a t total,
       l = a :: t -> py_sum l = Ok total -> is_zero total = true ->
       is_finite a = true ->
       normalize l
       = Raise (if is_zero a then InvalidOperation else DivisionByZero)).
Proof.
  intros l. split; [|split].
  - intros ->. reflexivity.
  - intros ws H Hne. split; [apply (mapM_length _ _ _ H)|].
    destruct l as [|a t]; [contradiction|].
    apply (normalize_Ok _ ws a H). left. reflexivity.
  - intros a t total -> Hsum Hz Fa.
    unfold normalize. cbn [mapM]. rewrite Hsum. cbn [bind].
    destruct total as [st ct et| |]; try discriminate.
    destruct a as [sa ca ea| |]; try discriminate.
    cbn [is_zero] in Hz |- *. unfold div. rewrite Hz.
    destruct (N.eqb ca 0); reflexivity.
Qed.

Lemma normalize_edges_witness :
  normalize [of_int 1; of_int (-1)] = Raise DivisionByZero.
Proof.
  destruct (normalize_edges [of_int 1; of_int (-1)]) as (_ & _ & H).
  exact (H (of_int 1) [of_int (-1)] (Fin false 0 0) eq_refl
           ltac:(vm_compute; reflexivity) eq_refl eq_refl).
Defined.

(** Every result of [_fix] has at most 28 digits. *)
Lemma fix_digits (s : bool) (c e : Z) (r : decimal) :
  0 <= c -> fix_ s c e = Ok r -> digits r <= 28.
Proof.
  intros Hc. unfold fix_.
  destruct (Z.eqb_spec c 0) as [->|Hc0].
  - intros H. apply Ok_inj in H. subst r. cbn [digits].
    change (ndigits (Z.of_N 0)) with 1. lia.
  - cbv zeta. unfold prec.
    destruct (_ >? Etop); [discriminate|].
    set (em := Z.max (ndigits c + e - 28) Etiny).
    destruct (Z.ltb_spec e em) as [Hlt|Hge].
    + set (q := round_half_even c (em - e)).
      assert (Hq : 0 <= q <= 10 ^ 28).
      { split.
        - pose proof (rhe_lower c (em - e)).
          assert (0 <= c / 10 ^ (em - e))
            by (apply Z.div_pos; [lia|apply pow10_pos; lia]).
          unfold q. lia.
        - apply rhe_upper; try lia. split; [lia|].
          pose proof (ndigits_upper c Hc) as Hu.
          pose proof (ndigits_ge1 c) as H1.
          apply Z.lt_le_trans with (10 ^ ndigits c); [exact Hu|].
          apply pow10_le. unfold em. lia. }
      destruct (Z.gtb_spec (ndigits q) 28) as [Hd|Hd].
      * destruct (_ >? Etop); [discriminate|].
        intros H. apply Ok_inj in H. subst r. cbn [digits].
        assert (0 <= q / 10 < 10 ^ 28).
        { split; [apply Z.div_pos; lia|].
          apply Z.div_lt_upper_bound; [lia|].
          change (10 * 10 ^ 28) with (10 ^ 29).
          assert (10 ^ 28 < 10 ^ 29) by reflexivity. lia. }
        rewrite Z2N.id by lia. apply ndigits_le; lia.
      * intros H. apply Ok_inj in H. subst r. cbn [digits].
        rewrite Z2N.id by lia. exact Hd.
    + intros H. apply Ok_inj in H. subst r. cbn [digits].
      rewrite Z2N.id by lia. unfold em in Hge. lia.
Qed.

Lemma add_digits (a b r : decimal) :
  is_finite a = true -> is_finite b = true -> add a b = Ok r -> digits r <= 28.
Proof.
  destruct a as [sa ca ea| |], b as [sb cb eb| |]; try discriminate.
  intros _ _. unfold add. cbv zeta. apply fix_digits. apply Z.abs_nonneg.
Qed.

Lemma div_digits (a b r : decimal) :
  is_finite a = true -> is_finite b = true -> div a b = Ok r -> digits r <= 28.
Proof.
  destruct a as [sa ca ea| |], b as [sb cb eb| |]; try discriminate.
  intros _ _. unfold div.
  destruct (N.eqb cb 0) eqn:Hcb; [destruct (N.eqb ca 0); discriminate|].
  apply N.eqb_neq in Hcb.
  destruct (N.eqb_spec ca 0) as [Hca|Hca]; [apply fix_digits; lia|].
  cbv zeta.
  destruct (quotient_digits (Z.of_N ca) (Z.of_N cb) ltac:(lia) ltac:(lia))
    as (Hden & Hnum & Hq).
  cbv zeta in Hden, Hnum, Hq.
  match goal with
  | |- context [if ?c then _ else _] => destruct c eqn:Hr
  end.
  - destruct (strip_zeros _ _ _ _) as [q' e'] eqn:Hsz.
    apply strip_zeros_value in Hsz; [|apply Z.div_pos; lia].
    apply fix_digits. lia.
  - apply fix_digits.
    match goal with
    | |- 0 <= (if ?c then _ else _) => destruct c
    end; lia.
Qed.

(** A decimal of at most 28 digits that is at most [1 + half_ulp] is at
    most 1. *)
Lemma unit_bound (d : decimal) :
  digits d <= 28 -> (value d <= 1 + half_ulp)%Q -> (value d <= 1)%Q.
Proof.
  destruct d as [s c e| |]; cbn [digits value]; intros Hd Hv; try lra.
  pose proof (Qpow10_pos e) as Hp.
  destruct s; cbn [signed] in *.
  - assert ((inject_Z (- Z.of_N c) <= 0)%Q).
    { change 0%Q with (inject_Z 0). rewrite <- Zle_Qle. lia. }
    nra.
  - set (z := Z.of_N c) in *.
    assert (Hz : 0 <= z < 10 ^ 28).
    { split; [unfold z; lia|].
      pose proof (ndigits_upper z ltac:(unfold z; lia)).
      pose proof (ndigits_ge1 z).
      pose proof (pow10_le (ndigits z) 28 ltac:(lia)). lia. }
    assert (Hu : (half_ulp == 5 # 10000000000000000000000000000)%Q) by reflexivity.
    destruct (Z.leb_spec 0 e) as [He|He].
    + rewrite <- Qpow10_inject, <- inject_Z_mult in Hv |- * by lia.
      assert (H2 : (inject_Z (z * 10 ^ e) < inject_Z 2)%Q).
      { change (inject_Z 2) with 2%Q. rewrite Hu in Hv. lra. }
      rewrite <- Zlt_Qlt in H2.
      change 1%Q with (inject_Z 1). rewrite <- Zle_Qle. lia.
    + set (k := - e).
      assert (Hk : 0 < k) by (unfold k; lia).
      assert (Ee : (ten ^ e == / inject_Z (10 ^ k))%Q).
      { replace e with (- k) by (unfold k; lia).
        rewrite Qpow10_opp, Qpow10_inject by lia. reflexivity. }
      pose proof (pow10_pos k ltac:(lia)) as HP.
      assert (HPq : (0 < inject_Z (10 ^ k))%Q) by (apply inject_Z_pos; exact HP).
      rewrite Ee in Hv |- *.
      set (P := inject_Z (10 ^ k)) in *.
      destruct (Z_le_gt_dec z (10 ^ k)) as [Hle|Hgt].
      * rewrite Zle_Qle in Hle. fold P in Hle.
        apply Qle_shift_div_r; [exact HPq|]. lra.
      * exfalso.
        assert (Hv' : (inject_Z z <= (1 + half_ulp) * P)%Q).
        { apply (Qmult_le_r _ _ (/ P)); [apply Qinv_lt_0_compat; exact HPq|].
          setoid_replace ((1 + half_ulp) * P * / P)%Q with (1 + half_ulp)%Q
            by (field; lra).
          exact Hv. }
        assert (Hz1 : (inject_Z (10 ^ k + 1) <= inject_Z z)%Q)
          by (rewrite <- Zle_Qle; lia).
        rewrite inject_Z_plus in Hz1. fold P in Hz1. change (inject_Z 1) with 1%Q in Hz1.
        rewrite Hu in Hv'.
        assert (HP28 : (inject_Z (10 ^ 28) <= inject_Z (5 * 10 ^ k))%Q).
        { rewrite inject_Z_mult. fold P.
          change (inject_Z (10 ^ 28)) with (10000000000000000000000000000 # 1)%Q.
          change (inject_Z 5) with 5%Q. lra. }
        rewrite <- Zle_Qle in HP28.
        destruct (Z_le_gt_dec k 27) as [Hk27|Hk28].
        -- pose proof (pow10_le k 27 ltac:(lia)).
           assert (5 * 10 ^ 27 < 10 ^ 28) by reflexivity. lia.
        -- pose proof (pow10_le 28 k ltac:(lia)). lia.
Qed.

(** The builtin [sum] of non-negative decimals at context precision is at
    least each of its terms: rounding is monotone and keeps a decimal of at
    most 28 digits. *)
Lemma sum_from_dominates (K : Z) (l : list decimal) :
  forall (acc : decimal) (c : Z) (s : decimal),
    0 <= c -> within (K + c) acc = true -> (0 <= value acc)%Q -> digits acc <= 28 ->
    Forall (fun d => within K d = true /\ (0 <= value d)%Q /\ digits d <= 28) l ->
    K + c + 2 * Z.of_nat (List.length l) <= 999990 ->
    sum_from acc l = Ok s ->
    (value acc <= value s)%Q /\ Forall (fun d => (value d <= value s)%Q) l.
Proof.
  induction l as [|x t IH]; intros acc c s Hc Wa Va Da Hl Hb Hs.
  - simpl in Hs. apply Ok_inj in Hs. subst s. split; [lra|constructor].
  - inversion Hl as [|x' t' (Wx & Vx & Dx) Ht]; subst.
    assert (HL : Z.of_nat (List.length (x :: t)) = Z.of_nat (List.length t) + 1)
      by (cbn [List.length]; lia).
    destruct (add_within (K + c) K acc x Wa Wx ltac:(lia)) as (acc' & Hadd & Wa' & Ra').
    rewrite Z.max_l in Wa' by lia.
    cbn [sum_from] in Hs. rewrite Hadd in Hs. cbn [bind] in Hs.
    pose proof (add_digits acc x acc' (within_finite _ _ Wa) (within_finite _ _ Wx) Hadd)
      as Da'.
    assert (H1 : (value acc <= value acc')%Q)
      by (apply (rounds_to_mono _ _ _ _ (rounds_to_self acc Da) Ra'); lra).
    assert (H2 : (value x <= value acc')%Q)
      by (apply (rounds_to_mono _ _ _ _ (rounds_to_self x Dx) Ra'); lra).
    destruct (IH acc' (c + 2) s ltac:(lia)
                ltac:(apply (within_weaken _ _ _ Wa'); lia) ltac:(lra) Da' Ht
                ltac:(lia) Hs) as [H3 H4].
    split; [lra|]. constructor; [lra|exact H4].
Qed.

(** X12: the weights are fractions.  For up to 100000 positive amounts at
    context precision (at most 28 digits, as every result of a decimal
    operation has) and far from the exponent limits, the normalisation
    succeeds and every weight [amount / sum(amounts)] lies in (0, 1]. *)
Theorem weights_in_unit_interval :
  forall (l : list decimal),
    Forall (fun d => moderate d = true /\ ltb (of_int 0) d = true /\ digits d <= 28) l ->
    Z.of_nat (List.length l) <= 100000 ->
    exists ws,
      normalize l = Ok ws /\
      Forall (fun w => ltb (of_int 0) w = true /\ leb w (of_int 1) = true) ws.
Proof.
  intros l Hl Hlen.
  destruct l as [|a0 t0] eqn:El; [exists []; split; [reflexivity|constructor]|].
  assert (Hne : l <> []) by (rewrite El; discriminate).
  rewrite <- El in *. clear El.
  assert (Pl : Forall (fun d => within 100000 d = true /\ (0 < value d)%Q) l).
  { eapply Forall_impl; [|exact Hl]. intros d (Wd & Vd & _). split; [exact Wd|].
    apply value_pos_of_ltb; [apply (within_finite _ _ Wd)|exact Vd]. }
  assert (Dl : Forall (fun d => within 100000 d = true /\ (0 <= value d)%Q /\
                               digits d <= 28) l).
  { rewrite Forall_forall in Hl, Pl |- *. intros d Hd.
    destruct (Hl d Hd) as (Wd & _ & Dd). destruct (Pl d Hd) as (_ & Vd).
    repeat split; [exact Wd|lra|exact Dd]. }
  assert (Z0 : (value (of_int 0) == 0)%Q) by reflexivity.
  assert (Hu : (half_ulp == 5 # 10000000000000000000000000000)%Q) by reflexivity.
  assert (Hq : (0 <= qlen l /\ qlen l <= 100000 # 1)%Q).
  { split; [apply qlen_nonneg|].
    change (100000 # 1)%Q with (inject_Z 100000). rewrite <- Zle_Qle. exact Hlen. }
  assert (T1 : within (100000 + 0) (of_int 0) = true) by reflexivity.
  assert (T2 : (0 <= value (of_int 0))%Q) by (rewrite Z0; lra).
  assert (T3 : 100000 + 0 + 2 * Z.of_nat (List.length l) <= 999990) by lia.
  assert (T4 : (2 * qlen l * half_ulp <= 1)%Q) by (rewrite Hu; lra).
  destruct (sum_from_bounds 100000 l (of_int 0) 0 ltac:(lia) T1
              T2 (positive_nonneg _ l Pl) T3 T4)
    as (total & Htotal & Wtotal0 & _ & _).
  assert (Wtotal : within 300000 total = true)
    by (apply (within_weaken _ _ _ Wtotal0); lia).
  assert (T6 : digits (of_int 0) <= 28) by (vm_compute; discriminate).
  destruct (sum_from_dominates 100000 l (of_int 0) 0 total ltac:(lia) T1 T2 T6 Dl T3
              Htotal) as [_ Hdom].
  assert (Vtotal : (0 < value total)%Q).
  { destruct l as [|a t]; [contradiction|].
    inversion Hdom; subst. inversion Pl as [|? ? (_ & Va) _]; subst. lra. }
  assert (T5 : 100000 + 300000 + 28 <= 999990) by lia.
  pose proof (normalize_bounds 100000 300000 l total l Htotal Wtotal Vtotal T5 Pl) as HNB.
  destruct HNB as (ws & Hws & F2 & _).
  exists ws. split; [exact Hws|].
  clear Hws Hq Wtotal0 Hlen T3.
  assert (Hall : forall a w, In a l -> div a total = Ok w ->
                   ltb (of_int 0) w = true /\ leb w (of_int 1) = true).
  { intros a w Hin Hdiv.
    rewrite Forall_forall in Pl, Hdom.
    destruct (Pl a Hin) as (Wa & Va). specialize (Hdom a Hin).
    destruct (div_relative _ _ a total Wa Wtotal T5 Va Vtotal)
      as (w' & Hw' & Ww & Vw & _ & Whi).
    rewrite Hdiv in Hw'. apply Ok_inj in Hw'. subst w'.
    pose proof (within_finite _ _ Ww) as Fw.
    split; [apply value_pos_of_ltb; assumption|].
    apply leb_finite; [exact Fw|reflexivity|].
    rewrite value_of_int. change (inject_Z 1) with 1%Q.
    apply unit_bound.
    - apply (div_digits a total w (within_finite _ _ Wa) (within_finite _ _ Wtotal) Hdiv).
    - destruct half_ulp_small as [Hu0 Hu1].
      assert (H1 : (value w * value total <= (1 + half_ulp) * value total)%Q).
      { eapply Qle_trans; [exact Whi|].
        apply Qmult_le_l_weak; lra. }
      apply Qmult_le_r in H1; [exact H1|exact Vtotal]. }
  clear - F2 Hall.
  induction F2 as [|a w t ws' (Hd & _) F2' IH]; constructor.
  - apply (Hall a w); [left; reflexivity|exact Hd].
  - apply IH. intros a' w' Hin. apply Hall. right. exact Hin.
Qed.

Lemma weights_in_unit_interval_witness :
  exists ws,
    normalize [of_int 1; Fin false 15 (-1); Fin false 225 (-2)] = Ok ws /\
    Forall (fun w => ltb (of_int 0) w = true /\ leb w (of_int 1) = true) ws.
Proof.
  apply weights_in_unit_interval; [|simpl; lia].
  repeat constructor; vm_compute; discriminate.
Defined.

(** ** The validators of the configuration *)

Lemma split_on_length (sep : Ascii.ascii) (s : string) :
  List.length (split_on sep s) = S (count_char sep s).
Proof.
  induction s as [|c rest IH]; [reflexivity|].
  cbn [split_on count_char]. destruct (Ascii.eqb c sep).
  - cbn [List.length]. rewrite IH. reflexivity.
  - destruct (split_on sep rest) as [|piece pieces]; [discriminate|].
    cbn [List.length] in *. lia.
Qed.

Lemma join_split (sep : Ascii.ascii) (s : string) :
  join_with sep (split_on sep s) = s.
Proof.
  induction s as [|c rest IH]; [reflexivity|].
  cbn [split_on]. destruct (Ascii.eqb_spec c sep) as [->|Hne].
  - pose proof (split_on_length sep rest) as HL.
    destruct (split_on sep rest) as [|piece pieces]; [discriminate|].
    cbn [join_with append]. f_equal. exact IH.
  - pose proof (split_on_length sep rest) as HL.
    destruct (split_on sep rest) as [|piece pieces]; [discriminate|].
    cbn [join_with] in *. destruct pieces as [|p2 ps].
    + f_equal. exact IH.
    + cbn [append]. f_equal. exact IH.
Qed.

Lemma mapM_Decimal_new_PDec (parse : pyval -> result decimal) (ds : list decimal) :
  mapM (Decimal_new parse) (map PDec ds) = Ok ds.
Proof.
  induction ds as [|d t IH]; [reflexivity|].
  cbn [map mapM Decimal_new bind]. rewrite IH. reflexivity.
Qed.

Lemma mapM_raises_In {A B : Type} (f : A -> result B) (l : list A) (e : exn) :
  mapM f l = Raise e -> exists x, In x l /\ f x = Raise e.
Proof.
  induction l as [|x t IH]; [discriminate|].
  cbn [mapM]. destruct (f x) as [y|e'] eqn:Hx; cbn [bind].
  - destruct (mapM f t) as [ys|e'']; cbn [bind]; [discriminate|].
    intros H. inversion H; subst e''.
    destruct IH as (x' & Hin & Hx'); [reflexivity|].
    exists x'. split; [right; exact Hin|exact Hx'].
  - intros H. inversion H; subst e'. exists x. split; [left; reflexivity|exact Hx].
Qed.

(** X13: [parse_activation_bounds] on a str.  The empty string gives [None];
    any other string is cut at its commas (the pieces joined by commas give
    the string back) and treated as the list of its pieces: the validator
    returns the same as for that list, and on success one bound per piece,
    that is one more than the string has commas. *)
Theorem parse_activation_bounds_str :
  forall (parse : pyval -> result decimal) (s : string),
    parse_activation_bounds parse (PStr "") = Ok PNone /\
    join_with comma (split_on comma s) = s /\
    (s <> ""%string ->
     parse_activation_bounds parse (PStr s)
     = parse_activation_bounds parse (PList (map PStr (split_on comma s))) /\
     forall r, parse_activation_bounds parse (PStr s) = Ok r ->
       exists bounds,
         r = PList (map PDec bounds) /\
         List.length bounds = S (count_char comma s) /\
         Forall2 (fun piece d => Decimal_new parse (PStr piece) = Ok d)
                 (split_on comma s) bounds).
Proof.
  intros parse s. split; [reflexivity|]. split; [apply join_split|].
  intros Hne. cbn [parse_activation_bounds].
  destruct (String.eqb_spec s "") as [H|_]; [contradiction|].
  split; [reflexivity|].
  intros r Hr.
  destruct (mapM (Decimal_new parse) (map PStr (split_on comma s)))
    as [bounds|e] eqn:Hm; cbn [bind] in Hr; [|discriminate].
  apply Ok_inj in Hr. subst r. exists bounds. split; [reflexivity|].
  pose proof (mapM_length _ _ _ Hm) as HL.
  rewrite length_map, split_on_length in HL. split; [exact HL|].
  apply mapM_Forall2 in Hm.
  clear - Hm. revert bounds Hm.
  induction (split_on comma s) as [|piece pieces IH]; intros bounds Hm;
    inversion Hm; subst; constructor; auto.
Qed.

(** X14: [parse_activation_bounds] changes nothing it has already parsed:
    applied to its own result it returns that result (the bounds of a list
    are Decimals, which [Decimal] returns as they are; [None] and any value
    that is neither a list nor a str pass through).  It fails only when
    [Decimal] fails on one of the elements, with that exception. *)
Theorem parse_activation_bounds_idempotent :
  forall (parse : pyval -> result decimal) (v : pyval),
    (forall r, parse_activation_bounds parse v = Ok r ->
               parse_activation_bounds parse r = Ok r) /\
    (forall e, parse_activation_bounds parse v = Raise e ->
       exists val,
         Decimal_new parse val = Raise e /\
         match v with
         | PList l => In val l
         | PStr s => exists piece, val = PStr piece /\ In piece (split_on comma s)
         | _ => False
         end).
Proof.
  intros parse v. split.
  - intros r. destruct v as [|s|n|f|d|l]; cbn [parse_activation_bounds].
    + intros H. apply Ok_inj in H. subst r. reflexivity.
    + destruct (String.eqb s "").
      * intros H. apply Ok_inj in H. subst r. reflexivity.
      * destruct (mapM _ _) as [bounds|e]; cbn [bind]; [|discriminate].
        intros H. apply Ok_inj in H. subst r. cbn [parse_activation_bounds].
        rewrite mapM_Decimal_new_PDec. reflexivity.
    + intros H. apply Ok_inj in H. subst r. reflexivity.
    + intros H. apply Ok_inj in H. subst r. reflexivity.
    + intros H. apply Ok_inj in H. subst r. reflexivity.
    + destruct (mapM _ _) as [bounds|e]; cbn [bind]; [|discriminate].
      intros H. apply Ok_inj in H. subst r. cbn [parse_activation_bounds].
      rewrite mapM_Decimal_new_PDec. reflexivity.
  - intros e. destruct v as [|s|n|f|d|l]; cbn [parse_activation_bounds];
      try discriminate.
    + destruct (String.eqb s ""); [discriminate|].
      destruct (mapM _ _) as [bounds|e'] eqn:Hm; cbn [bind]; [discriminate|].
      intros H. inversion H; subst e'.
      destruct (mapM_raises_In _ _ _ Hm) as (val & Hin & Hval).
      exists val. split; [exact Hval|].
      apply in_map_iff in Hin. destruct Hin as (piece & <- & Hp).
      exists piece. split; [reflexivity|exact Hp].
    + destruct (mapM _ _) as [bounds|e'] eqn:Hm; cbn [bind]; [discriminate|].
      intros H. inversion H; subst e'.
      destruct (mapM_raises_In _ _ _ Hm) as (val & Hin & Hval).
      exists val. split; assumption.
Qed.

Lemma values_get_none_or_empty_idem (values : list (string * pyval)) (key : string)
    (v : pyval) :
  (if none_or_empty (if none_or_empty v then values_get values key else v)
   then values_get values key
   else (if none_or_empty v then values_get values key else v))
  = (if none_or_empty v then values_get values key else v).
Proof.
  destruct (none_or_empty v) eqn:Hv.
  - destruct (none_or_empty (values_get values key)); reflexivity.
  - rewrite Hv. reflexivity.
Qed.

(** X15: the two candles validators.  A candles connector (trading pair)
    left [None] or empty takes the value of [connector_name]
    ([trading_pair]) among the fields validated so far, [None] when that
    field is absent; any other value is kept as given.  Applying a validator
    to its own result changes nothing, and the result is [None] or empty
    only if the field it falls back on is. *)
Theorem candles_validators :
  forall (v : pyval) (values : list (string * pyval)),
    (none_or_empty v = true ->
     set_candles_connector v values = values_get values "connector_name" /\
     set_candles_trading_pair v values = values_get values "trading_pair") /\
    (none_or_empty v = false ->
     set_candles_connector v values = v /\ set_candles_trading_pair v values = v) /\
    set_candles_connector (set_candles_connector v values) values
    = set_candles_connector v values /\
    set_candles_trading_pair (set_candles_trading_pair v values) values
    = set_candles_trading_pair v values /\
    (none_or_empty (set_candles_connector v values) = true ->
     none_or_empty (values_get values "connector_name") = true) /\
    (none_or_empty (set_candles_trading_pair v values) = true ->
     none_or_empty (values_get values "trading_pair") = true) /\
    (forall key, (forall w, ~ In (key, w) values) -> values_get values key = PNone).
Proof.
  intros v values. unfold set_candles_connector, set_candles_trading_pair.
  split; [intros ->; split; reflexivity|].
  split; [intros ->; split; reflexivity|].
  split; [apply values_get_none_or_empty_idem|].
  split; [apply values_get_none_or_empty_idem|].
  split; [|split].
  - destruct (none_or_empty v) eqn:Hv; [auto|]. rewrite Hv. discriminate.
  - destruct (none_or_empty v) eqn:Hv; [auto|]. rewrite Hv. discriminate.
  - intros key Hkey. unfold values_get.
    destruct (find _ values) as [[k w]|] eqn:Hf; [|reflexivity].
    exfalso. apply find_some in Hf. destruct Hf as [Hin Hk].
    cbn [fst] in Hk. apply String.eqb_eq in Hk. subst k. exact (Hkey w Hin).
Qed.
